(** * Litefab-chain: a shallow embedding of the execute-order-validate core

    The development follows the TypeScript sources module by module:
    [crypto] (canonical serialization), [types], [msp], [storage]
    (ledger and world state over a string key-value store), [chaincode]
    (execution context and metadata store), [peer] (committer) and
    [consensus] (Solo block cutting); then the reading side of the ledger,
    the chaincode host with the token chaincode, the endorser and the
    client, the orderer with its block cutter, Raft, and the policy
    argument of the command line.

    Modelling conventions.
    - A JavaScript [number] is an integer [Z]; [NaN], fractions and values
      beyond 2^53 are outside the model.
    - A JavaScript string is a [string] of bytes; the default [sort] order and
      JSON quoting are those of the code units, which agree with bytes on ASCII.
    - A LevelDB handle is a finite map from string keys to string values;
      storage I/O errors are outside the model, a missing key is the
      [LEVEL_NOT_FOUND] case of the source.
    - A thrown exception is the [Throw] case of [Exc]. *)

From Stdlib Require Import ZArith String Ascii List DecimalString DecimalZ.
From stdpp Require Import gmap strings list sorting.

Local Open Scope string_scope.
Local Open Scope Z_scope.
#[local] Set Warnings "-register-all".
#[local] Arguments String.append : simpl nomatch.

(** ** Exceptions *)

Inductive Exc (A : Type) : Type :=
| Ok (a : A)
| Throw (e : string).
Arguments Ok {A} a.
Arguments Throw {A} e.

Definition bindE {A B} (m : Exc A) (k : A -> Exc B) : Exc B :=
  match m with
  | Ok a => k a
  | Throw e => Throw e
  end.

Notation "x <- m ;;; k" := (bindE m (fun x => k))
  (at level 20, m at level 100, k at level 200, only parsing).
Notation "' p <- m ;;; k" := (bindE m (fun x => match x with p => k end))
  (at level 20, p pattern, m at level 100, k at level 200, only parsing).

(** ** JSON values and [JSON.stringify] *)

Module JSON.

(** A property holding [undefined] is a property of the object all the same
    ([Object.keys] lists it, [JSON.stringify] skips it). An object is the
    list of its own enumerable string-keyed properties in creation order;
    keys that look like array indices, which an engine would move to the
    front, are not used by the program. *)
Inductive value : Type :=
| Undefined
| Null
| Bool (b : bool)
| Number (z : Z)
| Str (s : string)
| Array (elems : list value)
| Object (props : list (string * value)).

Definition dquote : ascii := "034"%char.
Definition backslash : ascii := "\"%char.

(** [Number.prototype.toString] on an integer: its decimal digits. This is
    what the code writes for the safe integers (absolute value below 2^53);
    larger numbers, which the code holds rounded to doubles and writes with
    an exponent from 10^21 on, are outside the model. *)
Definition Number_toString (z : Z) : string :=
  NilZero.string_of_int (Z.to_int z).

Definition hexDigit (n : N) : ascii :=
  match n with
  | 0%N => "0" | 1%N => "1" | 2%N => "2" | 3%N => "3" | 4%N => "4"
  | 5%N => "5" | 6%N => "6" | 7%N => "7" | 8%N => "8" | 9%N => "9"
  | 10%N => "a" | 11%N => "b" | 12%N => "c" | 13%N => "d" | 14%N => "e"
  | _ => "f"
  end%char.

(** One code unit of [QuoteJSONString]. *)
Definition QuoteJSONChar (c : ascii) : string :=
  if Ascii.eqb c dquote then String backslash (String dquote "")
  else if Ascii.eqb c backslash then String backslash (String backslash "")
  else if Ascii.eqb c "008" then "\b"
  else if Ascii.eqb c "012" then "\f"
  else if Ascii.eqb c "010" then "\n"
  else if Ascii.eqb c "013" then "\r"
  else if Ascii.eqb c "009" then "\t"
  else if (N_of_ascii c <? 32)%N then
    "\u00" ++ String (hexDigit (N_of_ascii c / 16)) (String (hexDigit (N_of_ascii c mod 16)) "")
  else String c "".

Fixpoint QuoteJSONBody (s : string) : string :=
  match s with
  | EmptyString => ""
  | String c s' => QuoteJSONChar c ++ QuoteJSONBody s'
  end.

Definition QuoteJSONString (s : string) : string :=
  String dquote (QuoteJSONBody s ++ String dquote "").

(** [Array.prototype.join]. *)
Fixpoint join (sep : string) (l : list string) : string :=
  match l with
  | [] => ""
  | [x] => x
  | x :: rest => x ++ sep ++ join sep rest
  end.

(** [SerializeJSONObject] for a holder with properties [props]: the keys
    [ks] are taken in order, [Get(holder, P)] is serialized, and a key
    whose value has no serialization, or that the holder lacks, is left
    out. *)
Section Members.
Variable serialize : value -> option string.

Fixpoint serializeGet (ps : list (string * value)) (P : string) : option string :=
  match ps with
  | [] => None
  | (k, x) :: ps' => if String.eqb k P then serialize x else serializeGet ps' P
  end.

Fixpoint serializeMembers (props : list (string * value)) (ks : list string)
  : list string :=
  match ks with
  | [] => []
  | P :: ks' =>
      match serializeGet props P with
      | Some s => (QuoteJSONString P ++ ":" ++ s) :: serializeMembers props ks'
      | None => serializeMembers props ks'
      end
  end.
End Members.

(** [SerializeJSONProperty] with the state of [JSON.stringify]: [K] is the
    property list built from an array replacer, [None] without one. With a
    property list every object, at every depth, is serialized through that
    one list, in its order; an array keeps all its elements. *)
Fixpoint SerializeJSONProperty (K : option (list string)) (v : value) : option string :=
  match v with
  | Undefined => None
  | Null => Some "null"
  | Bool true => Some "true"
  | Bool false => Some "false"
  | Number z => Some (Number_toString z)
  | Str s => Some (QuoteJSONString s)
  | Array elems =>
      Some ("[" ++ join ","
              (map (fun e => default "null" (SerializeJSONProperty K e)) elems)
            ++ "]")
  | Object props =>
      let keys := match K with Some k => k | None => map fst props end in
      Some ("{" ++ join "," (serializeMembers (SerializeJSONProperty K) props keys)
            ++ "}")
  end.

(** The property list of an array replacer: its strings, first occurrences
    only. *)
Fixpoint PropertyList (seen : list string) (replacer : list string) : list string :=
  match replacer with
  | [] => []
  | k :: rest =>
      if bool_decide (k ∈ seen) then PropertyList seen rest
      else k :: PropertyList (k :: seen) rest
  end.

(** [JSON.stringify(v)] and [JSON.stringify(v, replacer)] for an array
    replacer; [None] is the [undefined] result. *)
Definition stringify (v : value) (replacer : option (list string)) : option string :=
  SerializeJSONProperty (PropertyList [] <$> replacer) v.

(** [Object.keys]: own enumerable property names; it throws on [null] and
    [undefined]. *)
Definition indexKeys (n : nat) : list string :=
  map (fun i => Number_toString (Z.of_nat i)) (seq 0 n).

Definition Object_keys (v : value) : Exc (list string) :=
  match v with
  | Undefined | Null => Throw "TypeError: Cannot convert undefined or null to object"
  | Bool _ | Number _ => Ok []
  | Str s => Ok (indexKeys (String.length s))
  | Array elems => Ok (indexKeys (List.length elems))
  | Object props => Ok (map fst props)
  end.

(** [Array.prototype.sort()] without a comparator on an array of strings:
    ascending code-unit order. *)
Fixpoint sortInsert (x : string) (l : list string) : list string :=
  match l with
  | [] => [x]
  | y :: l' => if String.leb x y then x :: l else y :: sortInsert x l'
  end.

Fixpoint Array_sort (l : list string) : list string :=
  match l with
  | [] => []
  | x :: l' => sortInsert x (Array_sort l')
  end.

(** *** [JSON.parse]

    A recursive-descent reader of the JSON grammar with integer numerals.
    A numeral with a fraction or an exponent, and a [\u] escape of a code
    unit beyond ASCII, denote values outside the model and are refused. *)

Definition isWS (c : ascii) : bool :=
  Ascii.eqb c " " || Ascii.eqb c "009" || Ascii.eqb c "010" || Ascii.eqb c "013".

Fixpoint skipWS (s : string) : string :=
  match s with
  | String c s' => if isWS c then skipWS s' else s
  | EmptyString => s
  end.

Definition isDigit (c : ascii) : bool :=
  (48 <=? N_of_ascii c)%N && (N_of_ascii c <=? 57)%N.

Fixpoint readDigits (s : string) : string * string :=
  match s with
  | String c s' =>
      if isDigit c then let '(d, r) := readDigits s' in (String c d, r)
      else ("", s)
  | EmptyString => ("", "")
  end.

Definition hexValue (c : ascii) : option N :=
  let n := N_of_ascii c in
  if (48 <=? n)%N && (n <=? 57)%N then Some (n - 48)%N
  else if (97 <=? n)%N && (n <=? 102)%N then Some (n - 87)%N
  else if (65 <=? n)%N && (n <=? 70)%N then Some (n - 55)%N
  else None.

Definition hex4 (a b c d : ascii) : option N :=
  match hexValue a, hexValue b, hexValue c, hexValue d with
  | Some x, Some y, Some z, Some w => Some (((x * 16 + y) * 16 + z) * 16 + w)%N
  | _, _, _, _ => None
  end.

Definition unescape (e : ascii) : option ascii :=
  if Ascii.eqb e dquote then Some dquote
  else if Ascii.eqb e backslash then Some backslash
  else if Ascii.eqb e "/" then Some "/"%char
  else if Ascii.eqb e "b" then Some "008"%char
  else if Ascii.eqb e "f" then Some "012"%char
  else if Ascii.eqb e "n" then Some "010"%char
  else if Ascii.eqb e "r" then Some "013"%char
  else if Ascii.eqb e "t" then Some "009"%char
  else None.

(** The characters of a string literal after its opening quote. *)
Fixpoint parseStringBody (s : string) : Exc (string * string) :=
  match s with
  | EmptyString => Throw "SyntaxError: unterminated string"
  | String c s' =>
      if Ascii.eqb c dquote then Ok ("", s')
      else if Ascii.eqb c backslash then
        match s' with
        | EmptyString => Throw "SyntaxError: unterminated string"
        | String e s'' =>
            match unescape e with
            | Some c' =>
                '(str, r) <- parseStringBody s'' ;;; Ok (String c' str, r)
            | None =>
                if Ascii.eqb e "u" then
                  match s'' with
                  | String h1 (String h2 (String h3 (String h4 s5))) =>
                      match hex4 h1 h2 h3 h4 with
                      | Some n =>
                          if (n <? 128)%N then
                            '(str, r) <- parseStringBody s5 ;;;
                            Ok (String (ascii_of_N n) str, r)
                          else Throw "unsupported: code unit beyond ASCII"
                      | None => Throw "SyntaxError: bad unicode escape"
                      end
                  | _ => Throw "SyntaxError: bad unicode escape"
                  end
                else Throw "SyntaxError: bad escaped character"
            end
        end
      else if (N_of_ascii c <? 32)%N then
        Throw "SyntaxError: bad control character in string literal"
      else '(str, r) <- parseStringBody s' ;;; Ok (String c str, r)
  end.

Definition startsFraction (s : string) : bool :=
  match s with
  | String c _ => Ascii.eqb c "." || Ascii.eqb c "e" || Ascii.eqb c "E"
  | EmptyString => false
  end.

Definition parseNumber (s : string) : Exc (Z * string) :=
  let '(neg, s1) :=
    match s with
    | String c r => if Ascii.eqb c "-" then (true, r) else (false, s)
    | EmptyString => (false, s)
    end in
  let '(ds, r) := readDigits s1 in
  match ds with
  | EmptyString => Throw "SyntaxError: no number after minus sign"
  | String d ds' =>
      if Ascii.eqb d "0" && negb (String.eqb ds' "") then
        Throw "SyntaxError: unexpected number"
      else if startsFraction r then
        Throw "unsupported: numeral with fraction or exponent"
      else
        match NilEmpty.uint_of_string ds with
        | Some u => Ok (if neg : bool then - Z.of_uint u else Z.of_uint u, r)
        | None => Throw "SyntaxError: unexpected token"
        end
  end.

(** [CreateDataProperty] while reading an object: a repeated key keeps its
    first position and takes the later value. *)
Fixpoint defineProperty (props : list (string * value)) (kv : string * value)
  : list (string * value) :=
  match props with
  | [] => [kv]
  | (k, x) :: ps =>
      if String.eqb k (fst kv) then (k, snd kv) :: ps
      else (k, x) :: defineProperty ps kv
  end.

Fixpoint dropPrefix (lit s : string) : option string :=
  match lit, s with
  | EmptyString, _ => Some s
  | String a lit', String b s' => if Ascii.eqb a b then dropPrefix lit' s' else None
  | String _ _, EmptyString => None
  end.

(** A literal name: [true], [false] or [null]. *)
Definition expect (lit : string) (v : value) (s : string) : Exc (value * string) :=
  match dropPrefix lit s with
  | Some r => Ok (v, r)
  | None => Throw "SyntaxError: unexpected token"
  end.

(** [fuel] bounds the depth of the recursion. Reading an array or an object
    takes one unit and one more for each of its elements, which is at most
    the number of characters of its text, so [parse] starts with the length
    of the text plus one; [cost_le_length] is this bound for the texts that
    [JSON.stringify] writes. *)
Fixpoint parseValue (fuel : nat) (s : string) : Exc (value * string) :=
  match fuel with
  | O => Throw "out of fuel"
  | S fuel' =>
      match skipWS s with
      | EmptyString => Throw "SyntaxError: unexpected end of JSON input"
      | String c r =>
          if Ascii.eqb c "{" then
            match skipWS r with
            | EmptyString => Throw "SyntaxError: unexpected end of JSON input"
            | String c' r' =>
                if Ascii.eqb c' "}" then Ok (Object [], r')
                else
                  '(ms, r2) <- parseMembers fuel' r ;;;
                  Ok (Object (fold_left defineProperty ms []), r2)
            end
          else if Ascii.eqb c "[" then
            match skipWS r with
            | EmptyString => Throw "SyntaxError: unexpected end of JSON input"
            | String c' r' =>
                if Ascii.eqb c' "]" then Ok (Array [], r')
                else
                  '(vs, r2) <- parseElements fuel' r ;;; Ok (Array vs, r2)
            end
          else if Ascii.eqb c dquote then
            '(str, r') <- parseStringBody r ;;; Ok (Str str, r')
          else if Ascii.eqb c "t" then expect "true" (Bool true) (String c r)
          else if Ascii.eqb c "f" then expect "false" (Bool false) (String c r)
          else if Ascii.eqb c "n" then expect "null" Null (String c r)
          else if Ascii.eqb c "-" || isDigit c then
            '(z, r') <- parseNumber (String c r) ;;; Ok (Number z, r')
          else Throw "SyntaxError: unexpected token"
      end
  end
with parseElements (fuel : nat) (s : string) : Exc (list value * string) :=
  match fuel with
  | O => Throw "out of fuel"
  | S fuel' =>
      '(v, r) <- parseValue fuel' s ;;;
      match skipWS r with
      | EmptyString => Throw "SyntaxError: unexpected end of JSON input"
      | String c r' =>
          if Ascii.eqb c "," then
            '(vs, r2) <- parseElements fuel' r' ;;; Ok (v :: vs, r2)
          else if Ascii.eqb c "]" then Ok ([v], r')
          else Throw "SyntaxError: unexpected token"
      end
  end
with parseMembers (fuel : nat) (s : string)
  : Exc (list (string * value) * string) :=
  match fuel with
  | O => Throw "out of fuel"
  | S fuel' =>
      match skipWS s with
      | EmptyString => Throw "SyntaxError: unexpected end of JSON input"
      | String c r =>
          if Ascii.eqb c dquote then
            '(k, r1) <- parseStringBody r ;;;
            match skipWS r1 with
            | EmptyString => Throw "SyntaxError: unexpected end of JSON input"
            | String c1 r2 =>
                if Ascii.eqb c1 ":" then
                  '(v, r3) <- parseValue fuel' r2 ;;;
                  match skipWS r3 with
                  | EmptyString =>
                      Throw "SyntaxError: unexpected end of JSON input"
                  | String c3 r4 =>
                      if Ascii.eqb c3 "," then
                        '(ms, r5) <- parseMembers fuel' r4 ;;;
                        Ok ((k, v) :: ms, r5)
                      else if Ascii.eqb c3 "}" then Ok ([(k, v)], r4)
                      else Throw "SyntaxError: unexpected token"
                  end
                else Throw "SyntaxError: unexpected token"
            end
          else Throw "SyntaxError: unexpected token"
      end
  end.

Definition parse (s : string) : Exc value :=
  '(v, r) <- parseValue (S (String.length s)) s ;;;
  match skipWS r with
  | EmptyString => Ok v
  | String _ _ => Throw "SyntaxError: unexpected non-whitespace character after JSON"
  end.

(** [o.k] on a parsed object: the property value, [undefined] without it. *)
Fixpoint Get (props : list (string * value)) (k : string) : value :=
  match props with
  | [] => Undefined
  | (k', x) :: ps => if String.eqb k' k then x else Get ps k
  end.

(** What [JSON.parse] gives back unchanged: no [undefined] inside, which
    [JSON.stringify] drops or turns into [null], and no repeated key. *)
Fixpoint printable (v : value) : bool :=
  match v with
  | Undefined => false
  | Null | Bool _ | Number _ | Str _ => true
  | Array elems => forallb printable elems
  | Object props =>
      bool_decide (NoDup (map fst props))
      && forallb (fun p => printable (snd p)) props
  end.

(** A bound on the nesting of calls that reads a value back. *)
Fixpoint cost (v : value) : nat :=
  match v with
  | Array elems => S (list_sum (map (fun e => S (cost e)) elems))
  | Object props => S (list_sum (map (fun p => S (cost (snd p))) props))
  | _ => 1
  end.

(** The end of a numeral: the text goes on with no digit and with no
    fraction or exponent mark. *)
Definition numberEnds (rest : string) : bool :=
  match rest with
  | EmptyString => true
  | String c _ => negb (isDigit c) && negb (startsFraction rest)
  end.

(** The text of a value inside an array, and of a member of an object,
    when [JSON.stringify] has no replacer. *)
Definition text (v : value) : string :=
  default "null" (SerializeJSONProperty None v).

Definition member (p : string * value) : string :=
  QuoteJSONString (fst p) ++ ":" ++ text (snd p).

(** [v] is read back from its text, whatever follows it. *)
Definition readsBack (v : value) : Prop :=
  printable v = true ->
  forall fuel rest,
    (cost v <= fuel)%nat -> numberEnds rest = true ->
    parseValue fuel (text v ++ rest) = Ok (v, rest).

(** [!v] of the language. *)
Definition falsy (v : value) : bool :=
  match v with
  | Undefined | Null | Bool false | Number 0 | Str EmptyString => true
  | _ => false
  end.

End JSON.

(** ** crypto/index.ts *)

(** [canonicalStringify(obj) = JSON.stringify(obj, Object.keys(obj).sort())].
    [JSON.stringify] returns a string for every value but [undefined], on
    which [Object.keys] has thrown before. *)
Definition canonicalStringify (obj : JSON.value) : Exc string :=
  keys <- JSON.Object_keys obj ;;;
  match JSON.stringify obj (Some (JSON.Array_sort keys)) with
  | Some s => Ok s
  | None => Throw "unreachable: JSON.stringify of undefined"
  end.

(** ** types/index.ts *)

Inductive TxType := DEPLOY_CHAINCODE | INVOKE_CHAINCODE.

(** The three policy kinds are the string tags of the source; a tag read back
    from stored metadata can be any string, which the [default] branch of
    [checkEndorsementPolicy] handles. *)
Record EndorsementPolicy := {
  policy_type : string;
  policy_orgs : list string
}.

Record TxPayload := {
  payload_type : TxType;
  chaincodeId : string;
  functionName : option string;
  args : option (list string);
  endorsementPolicy : option EndorsementPolicy
}.

Record Version := { blockNum : Z; txNum : Z }.

Record ReadVersion := { read_key : string; read_version : option Version }.

Record WriteEntry := { write_key : string; write_value : option string }.

Record RWSet := { reads : list ReadVersion; writes : list WriteEntry }.

Record Endorsement := {
  endorserId : string;
  endorserOrgId : string;
  signature : string
}.

Record TransactionEnvelope := {
  txId : string;
  creatorId : string;
  creatorOrgId : string;
  creatorPubKey : string;
  payload : TxPayload;
  rwSet : RWSet;
  result : option string;
  endorsements : list Endorsement;
  clientSignature : string
}.

Record BlockHeader := { number : Z; previousHash : string; dataHash : string }.

Inductive ValidationCode :=
| VALID
| ENDORSEMENT_POLICY_FAILURE
| MVCC_READ_CONFLICT
| BAD_PAYLOAD
| MSP_VALIDATION_FAILED.

Record TxValidationInfo := {
  info_txId : string;
  code : ValidationCode;
  message : option string
}.

Record BlockMetadata := {
  timestamp : string;
  ordererId : string;
  ordererSignature : string;
  validationInfo : option (list TxValidationInfo)
}.

Record Block := {
  header : BlockHeader;
  transactions : list TransactionEnvelope;
  metadata : BlockMetadata
}.

Inductive Role := ADMIN | CLIENT | PEER | ORDERER.

Record Identity := {
  identity_id : string;
  orgId : string;
  role : Role;
  publicKey : string
}.

Record OrgMSP := {
  org_orgId : string;
  rootPublicKeys : list string;
  identities : list Identity
}.

Record NetworkMSPConfig := { config_orgs : list OrgMSP }.

#[global] Instance TxType_eq_dec : EqDecision TxType.
Proof. solve_decision. Defined.
#[global] Instance ValidationCode_eq_dec : EqDecision ValidationCode.
Proof. solve_decision. Defined.
#[global] Instance Role_eq_dec : EqDecision Role.
Proof. solve_decision. Defined.
#[global] Instance Version_eq_dec : EqDecision Version.
Proof. solve_decision. Defined.

(** *** The JavaScript objects behind the records

    The property order of an object literal is the order it is written in; an
    optional field that is absent is no property at all. *)
Module ToJSON.
Import JSON.

Definition nullable (s : option string) : value :=
  match s with Some x => Str x | None => Null end.

Definition optional {A} (k : string) (f : A -> value) (o : option A)
  : list (string * value) :=
  match o with Some a => [(k, f a)] | None => [] end.

Definition TxType_string (t : TxType) : string :=
  match t with
  | DEPLOY_CHAINCODE => "DEPLOY_CHAINCODE"
  | INVOKE_CHAINCODE => "INVOKE_CHAINCODE"
  end.

Definition ValidationCode_string (c : ValidationCode) : string :=
  match c with
  | VALID => "VALID"
  | ENDORSEMENT_POLICY_FAILURE => "ENDORSEMENT_POLICY_FAILURE"
  | MVCC_READ_CONFLICT => "MVCC_READ_CONFLICT"
  | BAD_PAYLOAD => "BAD_PAYLOAD"
  | MSP_VALIDATION_FAILED => "MSP_VALIDATION_FAILED"
  end.

Definition Role_string (r : Role) : string :=
  match r with
  | ADMIN => "ADMIN" | CLIENT => "CLIENT" | PEER => "PEER" | ORDERER => "ORDERER"
  end.

Definition policy (p : EndorsementPolicy) : value :=
  Object [("type", Str (policy_type p));
          ("orgs", Array (map Str (policy_orgs p)))].

Definition txPayload (p : TxPayload) : value :=
  Object ([("type", Str (TxType_string (payload_type p)));
           ("chaincodeId", Str (chaincodeId p))]
          ++ optional "functionName" Str (functionName p)
          ++ optional "args" (fun a => Array (map Str a)) (args p)
          ++ optional "endorsementPolicy" policy (endorsementPolicy p)).

Definition version (v : Version) : value :=
  Object [("blockNum", Number (blockNum v)); ("txNum", Number (txNum v))].

Definition readVersion (r : ReadVersion) : value :=
  Object [("key", Str (read_key r));
          ("version", match read_version r with
                      | Some v => version v
                      | None => Null
                      end)].

Definition writeEntry (w : WriteEntry) : value :=
  Object [("key", Str (write_key w)); ("value", nullable (write_value w))].

Definition rwset (rw : RWSet) : value :=
  Object [("reads", Array (map readVersion (reads rw)));
          ("writes", Array (map writeEntry (writes rw)))].

Definition endorsement (e : Endorsement) : value :=
  Object [("endorserId", Str (endorserId e));
          ("endorserOrgId", Str (endorserOrgId e));
          ("signature", Str (signature e))].

Definition transactionEnvelope (tx : TransactionEnvelope) : value :=
  Object [("txId", Str (txId tx));
          ("creatorId", Str (creatorId tx));
          ("creatorOrgId", Str (creatorOrgId tx));
          ("creatorPubKey", Str (creatorPubKey tx));
          ("payload", txPayload (payload tx));
          ("rwSet", rwset (rwSet tx));
          ("result", nullable (result tx));
          ("endorsements", Array (map endorsement (endorsements tx)));
          ("clientSignature", Str (clientSignature tx))].

Definition blockHeader (h : BlockHeader) : value :=
  Object [("number", Number (number h));
          ("previousHash", Str (previousHash h));
          ("dataHash", Str (dataHash h))].

(** [{ txId, code, message: validation.message }]: the [message] property
    is there also when its value is [undefined]. *)
Definition txValidationInfo (i : TxValidationInfo) : value :=
  Object [("txId", Str (info_txId i));
          ("code", Str (ValidationCode_string (code i)));
          ("message", match message i with Some m => Str m | None => Undefined end)].

Definition blockMetadata (m : BlockMetadata) : value :=
  Object ([("timestamp", Str (timestamp m));
           ("ordererId", Str (ordererId m));
           ("ordererSignature", Str (ordererSignature m))]
          ++ optional "validationInfo"
               (fun l => Array (map txValidationInfo l)) (validationInfo m)).

Definition block (b : Block) : value :=
  Object [("header", blockHeader (header b));
          ("transactions", Array (map transactionEnvelope (transactions b)));
          ("metadata", blockMetadata (metadata b))].

End ToJSON.

(** *** Reading typed records back from parsed JSON

    [JSON.parse(...) as T] is an unchecked cast. A parsed value that does not
    have the shape of [T] is outside the typed model; it is reported as an
    exception here. *)
Module FromJSON.
Import JSON.

Definition illTyped {A} (what : string) : Exc A :=
  Throw ("TypeError: stored value is not a " ++ what).

(** [{ blockNum: number; txNum: number } | null] *)
Definition version (v : value) : Exc (option Version) :=
  match v with
  | Null => Ok None
  | Object props =>
      match Get props "blockNum", Get props "txNum" with
      | Number b, Number t => Ok (Some {| blockNum := b; txNum := t |})
      | _, _ => illTyped "version"
      end
  | _ => illTyped "version"
  end.

Fixpoint strings (l : list value) : Exc (list string) :=
  match l with
  | [] => Ok []
  | Str x :: rest => xs <- strings rest ;;; Ok (x :: xs)
  | _ :: _ => illTyped "string"
  end.

Definition policy (v : value) : Exc EndorsementPolicy :=
  match v with
  | Object props =>
      match Get props "type", Get props "orgs" with
      | Str t, Array os =>
          orgs <- strings os ;;; Ok {| policy_type := t; policy_orgs := orgs |}
      | _, _ => illTyped "policy"
      end
  | _ => illTyped "policy"
  end.

(** [metadata.endorsementPolicy] on the parsed metadata. *)
Definition metadataPolicy (metadata : value) : Exc EndorsementPolicy :=
  match metadata with
  | Object props => policy (Get props "endorsementPolicy")
  | _ => illTyped "chaincode metadata"
  end.

End FromJSON.

(** [JSON.stringify(x)] put where a string is expected; the missing result
    on [undefined] coerces to the text ["undefined"]. *)
Definition stringified (v : JSON.value) : string :=
  default "undefined" (JSON.stringify v None).

(** ** Primitives of node:crypto

    [verify data signature publicKey] is RSA-SHA256 verification of a base64
    signature, [hash] the hexadecimal SHA-256 digest. *)
Class Crypto := {
  verify : string -> string -> string -> bool;
  hash : string -> string
}.

(** ** msp/index.ts *)

Record MSP := {
  identityMap : gmap string Identity;
  orgMap : gmap string OrgMSP
}.

Definition MSP_initialize (config : NetworkMSPConfig) : MSP :=
  fold_left
    (fun msp org =>
       {| orgMap := <[org_orgId org := org]> (orgMap msp);
          identityMap :=
            fold_left (fun m identity => <[identity_id identity := identity]> m)
                      (identities org) (identityMap msp) |})
    (config_orgs config)
    {| identityMap := ∅; orgMap := ∅ |}.

Definition getIdentity (msp : MSP) (id : string) : option Identity :=
  identityMap msp !! id.

Record SignatureCheck := {
  valid : bool;
  signer : option Identity;
  error : option string
}.

Section WithCrypto.
Context `{Crypto}.

Definition verifySignature (msp : MSP) (data signature signerId : string)
           (expectedRole : option Role) : SignatureCheck :=
  match getIdentity msp signerId with
  | None =>
      {| valid := false; signer := None;
         error := Some ("Identity " ++ signerId ++ " not found") |}
  | Some identity =>
      if match expectedRole with
         | Some r => bool_decide (role identity ≠ r)
         | None => false
         end
      then
        {| valid := false; signer := None;
           error := Some ("Identity " ++ signerId ++ " has role "
                          ++ ToJSON.Role_string (role identity) ++ ", expected "
                          ++ from_option ToJSON.Role_string "" expectedRole) |}
      else if negb (verify data signature (publicKey identity)) then
        {| valid := false; signer := None;
           error := Some ("Invalid signature for " ++ signerId) |}
      else {| valid := true; signer := Some identity; error := None |}
  end.

(** ** storage/index.ts: the ledger *)

Definition blockKey (blockNumber : Z) : string :=
  "block:" ++ JSON.Number_toString blockNumber.

Definition hashKey (blockHash : string) : string := "hash:" ++ blockHash.

Definition calculateBlockHash (block : Block) : Exc string :=
  headerData <- canonicalStringify (ToJSON.blockHeader (header block)) ;;;
  txData <- (fix each (txs : list TransactionEnvelope) : Exc (list string) :=
               match txs with
               | [] => Ok []
               | tx :: rest =>
                   x <- canonicalStringify (ToJSON.transactionEnvelope tx) ;;;
                   xs <- each rest ;;; Ok (x :: xs)
               end) (transactions block) ;;;
  metadataData <- canonicalStringify (ToJSON.blockMetadata (metadata block)) ;;;
  Ok (hash (headerData ++ JSON.join "" txData ++ metadataData)).

Definition storeBlock (db : gmap string string) (block : Block)
  : Exc (gmap string string) :=
  let db := <[blockKey (number (header block)) := stringified (ToJSON.block block)]> db in
  blockHash <- calculateBlockHash block ;;;
  let db := <[hashKey blockHash := JSON.Number_toString (number (header block))]> db in
  Ok (<["meta:latest" := JSON.Number_toString (number (header block))]> db).

End WithCrypto.

(** ** storage/index.ts: the world state

    [db.get] is the lookup in the map (its [LEVEL_NOT_FOUND] error is
    [None]), [db.put] the insertion and [db.del] the deletion. State and
    version entries live in one map under the prefixes [state:<channel>:]
    and [version:<channel>:]. *)

Record WorldStateStore := {
  db : gmap string string;
  channelId : string
}.

Definition stateKey (ws : WorldStateStore) (key : string) : string :=
  "state:" ++ channelId ws ++ ":" ++ key.

Definition versionKey (ws : WorldStateStore) (key : string) : string :=
  "version:" ++ channelId ws ++ ":" ++ key.

Definition db_put (ws : WorldStateStore) (k v : string) : WorldStateStore :=
  {| db := <[k := v]> (db ws); channelId := channelId ws |}.

Definition db_del (ws : WorldStateStore) (k : string) : WorldStateStore :=
  {| db := delete k (db ws); channelId := channelId ws |}.

Definition getState (ws : WorldStateStore) (key : string) : option string :=
  db ws !! stateKey ws key.

Definition setState (ws : WorldStateStore) (key value : string) : WorldStateStore :=
  db_put ws (stateKey ws key) value.

Definition deleteState (ws : WorldStateStore) (key : string) : WorldStateStore :=
  db_del ws (stateKey ws key).

Definition getVersion (ws : WorldStateStore) (key : string) : Exc (option Version) :=
  match db ws !! versionKey ws key with
  | None => Ok None
  | Some versionStr =>
      if String.eqb versionStr "" || String.eqb versionStr "undefined" then Ok None
      else v <- JSON.parse versionStr ;;; FromJSON.version v
  end.

Definition setVersion (ws : WorldStateStore) (key : string) (version : Version)
  : WorldStateStore :=
  db_put ws (versionKey ws key) (stringified (ToJSON.version version)).

(** The body of the loop of [applyRWSet] for one write entry. *)
Definition applyWrite (blockNumber txNumber : Z) (ws : WorldStateStore)
           (write : WriteEntry) : WorldStateStore :=
  match write_value write with
  | None =>
      setVersion (deleteState ws (write_key write)) (write_key write)
                 {| blockNum := blockNumber; txNum := txNumber |}
  | Some value =>
      setVersion (setState ws (write_key write) value) (write_key write)
                 {| blockNum := blockNumber; txNum := txNumber |}
  end.

Definition applyRWSet (ws : WorldStateStore) (rwSet : RWSet)
           (blockNumber txNumber : Z) : WorldStateStore :=
  fold_left (applyWrite blockNumber txNumber) (writes rwSet) ws.

Fixpoint validateReadSet (ws : WorldStateStore) (reads : list ReadVersion) : Exc bool :=
  match reads with
  | [] => Ok true
  | read :: rest =>
      currentVersion <- getVersion ws (read_key read) ;;;
      match read_version read, currentVersion with
      | None, Some _ => Ok false (* expected no version but found one *)
      | Some _, None => Ok false (* expected a version but found none *)
      | Some recorded, Some current =>
          if negb (blockNum recorded =? blockNum current)
             || negb (txNum recorded =? txNum current)
          then Ok false
          else validateReadSet ws rest
      | None, None => validateReadSet ws rest
      end
  end.

(** ** chaincode/index.ts *)

(** The execution context of one simulation. It holds a reference to the
    world-state store, which it only reads, and the two sets it records. *)
Record ChaincodeExecutionContext := {
  ctx_txId : string;
  clientId : string;
  clientOrgId : string;
  readSet : list ReadVersion;
  writeSet : list WriteEntry
}.

Definition newContext (txId clientId clientOrgId : string) : ChaincodeExecutionContext :=
  {| ctx_txId := txId; clientId := clientId; clientOrgId := clientOrgId;
     readSet := []; writeSet := [] |}.

Definition pushRead (ctx : ChaincodeExecutionContext) (r : ReadVersion) :=
  {| ctx_txId := ctx_txId ctx; clientId := clientId ctx; clientOrgId := clientOrgId ctx;
     readSet := readSet ctx ++ [r]; writeSet := writeSet ctx |}.

Definition pushWrite (ctx : ChaincodeExecutionContext) (w : WriteEntry) :=
  {| ctx_txId := ctx_txId ctx; clientId := clientId ctx; clientOrgId := clientOrgId ctx;
     readSet := readSet ctx; writeSet := writeSet ctx ++ [w] |}.

Module Context.

Definition getState (worldState : WorldStateStore) (ctx : ChaincodeExecutionContext)
           (key : string) : Exc (ChaincodeExecutionContext * option string) :=
  version <- getVersion worldState key ;;;
  let ctx := pushRead ctx {| read_key := key; read_version := version |} in
  Ok (ctx, getState worldState key).

Definition putState (ctx : ChaincodeExecutionContext) (key value : string)
  : ChaincodeExecutionContext :=
  pushWrite ctx {| write_key := key; write_value := Some value |}.

Definition delState (ctx : ChaincodeExecutionContext) (key : string)
  : ChaincodeExecutionContext :=
  pushWrite ctx {| write_key := key; write_value := None |}.

Definition getRWSet (ctx : ChaincodeExecutionContext) : RWSet :=
  {| reads := readSet ctx; writes := writeSet ctx |}.

End Context.

(** The metadata store keeps its entries in the world state it is given, in
    the state namespace, under [CHAINCODE:<id>]. *)
Definition metadataKey (chaincodeId : string) : string := "CHAINCODE:" ++ chaincodeId.

(** The [metadata] object of [storeChaincodeMetadata]; [deployedAt] is the
    reading of [new Date().toISOString()]. *)
Definition chaincodeMetadata (chaincodeId version : string)
           (endorsementPolicy : EndorsementPolicy) (deployedAt : string) : JSON.value :=
  JSON.Object [("chaincodeId", JSON.Str chaincodeId);
               ("version", JSON.Str version);
               ("endorsementPolicy", ToJSON.policy endorsementPolicy);
               ("deployedAt", JSON.Str deployedAt)].

Definition storeChaincodeMetadata (ws : WorldStateStore) (chaincodeId version : string)
           (endorsementPolicy : EndorsementPolicy) (deployedAt : string) : WorldStateStore :=
  setState ws (metadataKey chaincodeId)
           (stringified (chaincodeMetadata chaincodeId version endorsementPolicy deployedAt)).

(** The result has type [any | null]. *)
Definition getChaincodeMetadata (ws : WorldStateStore) (chaincodeId : string)
  : Exc JSON.value :=
  match getState ws (metadataKey chaincodeId) with
  | None => Ok JSON.Null
  | Some metadataStr =>
      if String.eqb metadataStr "" then Ok JSON.Null else JSON.parse metadataStr
  end.

Definition chaincodeExists (ws : WorldStateStore) (chaincodeId : string) : Exc bool :=
  metadata <- getChaincodeMetadata ws chaincodeId ;;;
  Ok (match metadata with JSON.Null => false | _ => true end).

(** ** peer/index.ts: the committer *)

Record Validation := {
  v_code : ValidationCode;
  v_message : option string
}.

(** [Array.prototype.includes] on an array of strings. *)
Definition includes (l : list string) (x : string) : bool := bool_decide (x ∈ l).

(** [Set.prototype.add]; the list is the set in insertion order, which is the
    order of [Array.from]. *)
Definition Set_add (set : list string) (x : string) : list string :=
  if includes set x then set else set ++ [x].

Definition checkEndorsementPolicy (policy : EndorsementPolicy)
           (endorsingOrgs : list string) : Validation :=
  if String.eqb (policy_type policy) "ANY" then
    if existsb (fun org => includes endorsingOrgs org) (policy_orgs policy)
    then {| v_code := VALID; v_message := None |}
    else {| v_code := ENDORSEMENT_POLICY_FAILURE;
            v_message := Some "ANY policy not satisfied" |}
  else if String.eqb (policy_type policy) "ALL" then
    if forallb (fun org => includes endorsingOrgs org) (policy_orgs policy)
    then {| v_code := VALID; v_message := None |}
    else {| v_code := ENDORSEMENT_POLICY_FAILURE;
            v_message := Some "ALL policy not satisfied" |}
  else if String.eqb (policy_type policy) "MAJORITY" then
    let requiredCount := (List.length (policy_orgs policy) / 2 + 1)%nat in
    let actualCount :=
      List.length (List.filter (fun org => includes endorsingOrgs org)
                               (policy_orgs policy)) in
    if (requiredCount <=? actualCount)%nat
    then {| v_code := VALID; v_message := None |}
    else {| v_code := ENDORSEMENT_POLICY_FAILURE;
            v_message := Some "MAJORITY policy not satisfied" |}
  else {| v_code := BAD_PAYLOAD;
          v_message := Some "Unknown endorsement policy type" |}.

Definition defaultPolicy (tx : TransactionEnvelope) : EndorsementPolicy :=
  {| policy_type := "ANY"; policy_orgs := [creatorOrgId tx] |}.

Section Committer.
Context `{Crypto}.
Variable msp : MSP.

Definition endorsementData (tx : TransactionEnvelope) : JSON.value :=
  JSON.Object [("proposal", JSON.Object [("txId", JSON.Str (txId tx));
                                         ("payload", ToJSON.txPayload (payload tx))]);
               ("rwSet", ToJSON.rwset (rwSet tx));
               ("result", ToJSON.nullable (result tx))].

(** The loop over [tx.endorsements]: [inl] is the early [return] of the
    function, [inr] the set of endorsing organizations at the end. *)
Fixpoint verifyEndorsements (tx : TransactionEnvelope) (es : list Endorsement)
         (endorsingOrgs : list string) : Exc (Validation + list string) :=
  match es with
  | [] => Ok (inr endorsingOrgs)
  | endorsement :: rest =>
      data <- canonicalStringify (endorsementData tx) ;;;
      let signatureValid :=
        verifySignature msp data (signature endorsement)
                        (endorserId endorsement) (Some PEER) in
      if negb (valid signatureValid) then
        Ok (inl {| v_code := ENDORSEMENT_POLICY_FAILURE;
                   v_message := error signatureValid |})
      else
        verifyEndorsements tx rest (Set_add endorsingOrgs (endorserOrgId endorsement))
  end.

(** The first part of [validateEndorsements]: [inl] is the early [return]
    with [BAD_PAYLOAD]; the policy read from stored metadata is looked at
    only when it is evaluated. *)
Definition resolvePolicy (ws : WorldStateStore) (tx : TransactionEnvelope)
  : Exc (Validation + Exc EndorsementPolicy) :=
  match payload_type (payload tx) with
  | DEPLOY_CHAINCODE =>
      Ok (inr (Ok (default (defaultPolicy tx) (endorsementPolicy (payload tx)))))
  | INVOKE_CHAINCODE =>
      metadata <- getChaincodeMetadata ws (chaincodeId (payload tx)) ;;;
      if JSON.falsy metadata then
        Ok (inl {| v_code := BAD_PAYLOAD; v_message := Some "Chaincode not found" |})
      else Ok (inr (FromJSON.metadataPolicy metadata))
  end.

Definition validateEndorsements (ws : WorldStateStore) (tx : TransactionEnvelope)
  : Exc Validation :=
  resolved <- resolvePolicy ws tx ;;;
  match resolved with
  | inl failure => Ok failure
  | inr endorsementPolicy =>
      checked <- verifyEndorsements tx (endorsements tx) [] ;;;
      match checked with
      | inl failure => Ok failure
      | inr endorsingOrgs =>
          policy <- endorsementPolicy ;;;
          Ok (checkEndorsementPolicy policy endorsingOrgs)
      end
  end.

Definition txData (tx : TransactionEnvelope) : JSON.value :=
  JSON.Object [("txId", JSON.Str (txId tx));
               ("creatorId", JSON.Str (creatorId tx));
               ("creatorOrgId", JSON.Str (creatorOrgId tx));
               ("creatorPubKey", JSON.Str (creatorPubKey tx));
               ("payload", ToJSON.txPayload (payload tx));
               ("rwSet", ToJSON.rwset (rwSet tx));
               ("result", ToJSON.nullable (result tx));
               ("endorsements", JSON.Array (map ToJSON.endorsement (endorsements tx)))].

Definition validateTransaction (ws : WorldStateStore) (tx : TransactionEnvelope)
           (blockNumber : Z) (txNumber : nat) : Exc Validation :=
  data <- canonicalStringify (txData tx) ;;;
  let signatureValid :=
    verifySignature msp data (clientSignature tx) (creatorId tx) (Some CLIENT) in
  if negb (valid signatureValid) then
    Ok {| v_code := MSP_VALIDATION_FAILED; v_message := error signatureValid |}
  else
    endorsementValidation <- validateEndorsements ws tx ;;;
    if bool_decide (v_code endorsementValidation ≠ VALID) then Ok endorsementValidation
    else
      mvccValid <- validateReadSet ws (reads (rwSet tx)) ;;;
      if negb mvccValid then
        Ok {| v_code := MVCC_READ_CONFLICT;
              v_message := Some "Read set validation failed" |}
      else Ok {| v_code := VALID; v_message := None |}.

(** The branch of the commit loop for a transaction found [VALID]: its
    writes are applied with [txNum = i], and a deploy stores the chaincode
    metadata. [now i] is the clock reading taken at that point. *)
Definition applyTransaction (now : nat -> string) (ws : WorldStateStore)
           (tx : TransactionEnvelope) (blockNumber : Z) (i : nat) : WorldStateStore :=
  let ws := applyRWSet ws (rwSet tx) blockNumber (Z.of_nat i) in
  if bool_decide (payload_type (payload tx) = DEPLOY_CHAINCODE) then
    storeChaincodeMetadata ws (chaincodeId (payload tx)) "1.0"
      (default (defaultPolicy tx) (endorsementPolicy (payload tx))) (now i)
  else ws.

Definition applyValidated (now : nat -> string) (ws : WorldStateStore)
           (tx : TransactionEnvelope) (blockNumber : Z) (i : nat)
           (validation : Validation) : WorldStateStore :=
  if bool_decide (v_code validation = VALID)
  then applyTransaction now ws tx blockNumber i
  else ws.

(** [for (let i = 0; i < block.transactions.length; i++)]: [n] iterations
    remain and [i] is the loop variable. *)
Fixpoint commitLoop (now : nat -> string) (block : Block) (n i : nat)
         (validationInfo : list TxValidationInfo) (ws : WorldStateStore)
  : Exc (list TxValidationInfo * WorldStateStore) :=
  match n with
  | O => Ok (validationInfo, ws)
  | S n' =>
      match transactions block !! i with
      | None => commitLoop now block n' (S i) validationInfo ws
      | Some tx =>
          validation <- validateTransaction ws tx (number (header block)) i ;;;
          let validationInfo :=
            (validationInfo ++ [{| info_txId := txId tx;
                                   code := v_code validation;
                                   message := v_message validation |}])%list in
          let ws := applyValidated now ws tx (number (header block)) i validation in
          commitLoop now block n' (S i) validationInfo ws
      end
  end.

Definition setValidationInfo (block : Block) (validationInfo : list TxValidationInfo)
  : Block :=
  {| header := header block;
     transactions := transactions block;
     metadata := {| timestamp := timestamp (metadata block);
                    ordererId := ordererId (metadata block);
                    ordererSignature := ordererSignature (metadata block);
                    validationInfo := Some validationInfo |} |}.

(** The peer's two stores. *)
Record Stores := {
  ledgerStore : gmap string string;
  worldStateStore : WorldStateStore
}.

Definition commitBlock (now : nat -> string) (st : Stores) (block : Block)
  : Exc (Stores * Block) :=
  '(validationInfo, ws) <-
    commitLoop now block (List.length (transactions block)) 0 []
               (worldStateStore st) ;;;
  let block := setValidationInfo block validationInfo in
  ledger <- storeBlock (ledgerStore st) block ;;;
  Ok ({| ledgerStore := ledger; worldStateStore := ws |}, block).

End Committer.

(** ** consensus/index.ts: Solo *)

Record SoloConsensus := {
  nodeId : string;
  blockNumber : Z;
  pendingTxs : list TransactionEnvelope;
  blockTimer : bool
}.

Definition newSoloConsensus (nodeId : string) : SoloConsensus :=
  {| nodeId := nodeId; blockNumber := 0; pendingTxs := []; blockTimer := false |}.

(** [submitTx] arms the timer when none is running. *)
Definition submitTx (c : SoloConsensus) (tx : TransactionEnvelope) : SoloConsensus :=
  let pending := (pendingTxs c ++ [tx])%list in
  {| nodeId := nodeId c; blockNumber := blockNumber c; pendingTxs := pending;
     blockTimer :=
       if negb (blockTimer c) && (0 <? List.length pending)%nat then true
       else blockTimer c |}.

(** [createBlock], run when the timer fires; the block, if any, is the one
    given to [emitBlockCommitted]. [now] is [new Date().toISOString()]. *)
Definition createBlock (c : SoloConsensus) (now : string)
  : SoloConsensus * option Block :=
  let c := {| nodeId := nodeId c; blockNumber := blockNumber c;
              pendingTxs := pendingTxs c; blockTimer := false |} in
  if (List.length (pendingTxs c) =? 0)%nat then (c, None)
  else
    let block :=
      {| header := {| number := blockNumber c;
                      previousHash := "0";
                      dataHash := JSON.join "|" (map txId (pendingTxs c)) |};
         transactions := pendingTxs c;
         metadata := {| timestamp := now;
                        ordererId := nodeId c;
                        ordererSignature := "";
                        validationInfo := None |} |} in
    ({| nodeId := nodeId c; blockNumber := blockNumber c + 1;
        pendingTxs := []; blockTimer := false |}, Some block).

(** ** Definitions used to state the properties *)

Definition policyOf (type : string) (orgs : list string) : EndorsementPolicy :=
  {| policy_type := type; policy_orgs := orgs |}.

Section Statements.
Context `{Crypto}.
Variable msp : MSP.

(** From the words of the specification: an endorsement is verified when its
    signature verifies with role PEER over the canonical endorsement data,
    and the policy is evaluated over the distinct organizations of the
    verified endorsements. *)
Definition endorsementVerifies (tx : TransactionEnvelope) (e : Endorsement) : bool :=
  match canonicalStringify (endorsementData tx) with
  | Ok data => valid (verifySignature msp data (signature e) (endorserId e) (Some PEER))
  | Throw _ => false
  end.

Definition verifiedOrgs (tx : TransactionEnvelope) : list string :=
  fold_left Set_add
            (map endorserOrgId (List.filter (endorsementVerifies tx) (endorsements tx))) [].

End Statements.

Section CommitStatements.
Context `{Crypto}.
Variable msp : MSP.
Variable now : nat -> string.
Variable blockNumber : Z.

Definition infoOf (tx : TransactionEnvelope) (v : Validation) : TxValidationInfo :=
  {| info_txId := txId tx; code := v_code v; message := v_message v |}.

(** The commit loop as a recursion on the transactions that remain, [i]
    being the index of the first of them. *)
Fixpoint commitFrom (txs : list TransactionEnvelope) (i : nat)
         (validationInfo : list TxValidationInfo) (ws : WorldStateStore)
  : Exc (list TxValidationInfo * WorldStateStore) :=
  match txs with
  | [] => Ok (validationInfo, ws)
  | tx :: rest =>
      validation <- validateTransaction msp ws tx blockNumber i ;;;
      commitFrom rest (S i) (validationInfo ++ [infoOf tx validation])%list
                 (applyValidated now ws tx blockNumber i validation)
  end.

(** From the words of the specification: [Commits i txs ws vs ws'] says that
    the transactions [txs], at the indices [i], [i+1], ... of the block, are
    taken in order from the world state [ws]; each one is validated against
    the state its predecessors left, a transaction whose code is not [VALID]
    is skipped and a [VALID] one is applied with [txNum] its index; [vs] are
    the validation results and [ws'] is the state at the end. *)
Inductive Commits : nat -> list TransactionEnvelope -> WorldStateStore ->
                    list Validation -> WorldStateStore -> Prop :=
| Commits_done i ws : Commits i [] ws [] ws
| Commits_skip i tx txs ws v vs ws' :
    validateTransaction msp ws tx blockNumber i = Ok v ->
    v_code v <> VALID ->
    Commits (S i) txs ws vs ws' ->
    Commits i (tx :: txs) ws (v :: vs) ws'
| Commits_apply i tx txs ws v vs ws' :
    validateTransaction msp ws tx blockNumber i = Ok v ->
    v_code v = VALID ->
    Commits (S i) txs (applyTransaction now ws tx blockNumber i) vs ws' ->
    Commits i (tx :: txs) ws (v :: vs) ws'.

End CommitStatements.

(** Keys of the state namespace that the metadata store uses. *)
Definition reserved (key : string) : bool := String.prefix "CHAINCODE:" key.

(** A world state as the committer leaves it: every version entry was
    written by [setVersion] and every entry under a reserved key by
    [storeChaincodeMetadata]. *)
Definition wellFormed (ws : WorldStateStore) : Prop :=
  (forall key s, db ws !! versionKey ws key = Some s ->
                 exists v, s = stringified (ToJSON.version v))
  /\ (forall key s, reserved key = true -> db ws !! stateKey ws key = Some s ->
                    exists id version policy deployedAt,
                      s = stringified (chaincodeMetadata id version policy deployedAt)).


(** The orderer's callback for a block cut by the consensus module: the block
    is stored in the orderer's ledger (it is signed and broadcast after
    that). *)
Definition onBlockCommitted `{Crypto} (ledger : gmap string string) (block : Block)
  : Exc (gmap string string) :=
  storeBlock ledger block.

(** ** A small network and one block, for running the definitions *)

Module Scenario.

(** Stand-ins for the primitives: a signature is the key followed by the
    signed text, the public and the private key of an identity are the same
    string, and a digest is the first 64 characters of the padded text. *)
Definition sign (data privateKey : string) : string := privateKey ++ "|" ++ data.

Fixpoint pad (n : nat) (s : string) : string :=
  match n with
  | O => ""
  | S n' =>
      match s with
      | EmptyString => String "0" (pad n' "")
      | String c s' => String c (pad n' s')
      end
  end.

#[local] Instance crypto : Crypto :=
  {| verify data signature publicKey := String.eqb signature (sign data publicKey);
     hash data := pad 64 data |}.

Definition identityOf (id org : string) (r : Role) : Identity :=
  {| identity_id := id; orgId := org; role := r; publicKey := "K-" ++ id |}.

Definition config : NetworkMSPConfig :=
  {| config_orgs :=
       [ {| org_orgId := "Org1"; rootPublicKeys := [];
            identities := [identityOf "Org1Client" "Org1" CLIENT;
                           identityOf "Org1Peer" "Org1" PEER] |};
         {| org_orgId := "Org2"; rootPublicKeys := [];
            identities := [identityOf "Org2Peer" "Org2" PEER] |} ] |}.

Definition msp : MSP := MSP_initialize config.

Definition text (r : Exc string) : string :=
  match r with Ok s => s | Throw _ => "" end.

Definition endorse (tx : TransactionEnvelope) (peer org : string) : Endorsement :=
  {| endorserId := peer; endorserOrgId := org;
     signature := sign (text (canonicalStringify (endorsementData tx))) ("K-" ++ peer) |}.

(** An envelope by [Org1Client], endorsed by the given peers and signed. *)
Definition envelope (id : string) (p : TxPayload) (rw : RWSet) (res : option string)
           (endorsers : list (string * string)) : TransactionEnvelope :=
  let unsigned es sig :=
    {| txId := id; creatorId := "Org1Client"; creatorOrgId := "Org1";
       creatorPubKey := "K-Org1Client"; payload := p; rwSet := rw; result := res;
       endorsements := es; clientSignature := sig |} in
  let es := map (fun e => endorse (unsigned [] "") (fst e) (snd e)) endorsers in
  unsigned es (sign (text (canonicalStringify (txData (unsigned es "")))) "K-Org1Client").

Definition transfer (amount : string) : TxPayload :=
  {| payload_type := INVOKE_CHAINCODE; chaincodeId := "basic";
     functionName := Some "transfer"; args := Some ["Alice"; "Bob"; amount];
     endorsementPolicy := None |}.

(** The state after blocks 0 to 2 of the token scenario: [basic] is
    deployed and Alice holds 400. *)
Definition world : WorldStateStore :=
  let ws := {| db := ∅; channelId := "default" |} in
  let ws := storeChaincodeMetadata ws "basic" "1.0"
              {| policy_type := "ANY"; policy_orgs := ["Org1"] |}
              "2026-01-01T00:00:00.000Z" in
  applyRWSet ws {| reads := [];
                   writes := [{| write_key := "balance:Alice";
                                 write_value := Some "400" |}] |} 2 0.

(** Two transfers simulated on that state, and a third envelope whose
    client signature is not the client's. *)
Definition transferSet (alice bob : string) : RWSet :=
  {| reads := [{| read_key := "balance:Alice";
                  read_version := Some {| blockNum := 2; txNum := 0 |} |};
               {| read_key := "balance:Bob"; read_version := None |}];
     writes := [{| write_key := "balance:Alice"; write_value := Some alice |};
                {| write_key := "balance:Bob"; write_value := Some bob |}] |}.

Definition tx0 : TransactionEnvelope :=
  envelope "tx0" (transfer "100") (transferSet "300" "100") (Some "ok")
           [("Org1Peer", "Org1")].

Definition tx1 : TransactionEnvelope :=
  envelope "tx1" (transfer "50") (transferSet "350" "50") (Some "ok")
           [("Org1Peer", "Org1")].

Definition tx2 : TransactionEnvelope :=
  let tx := envelope "tx2" (transfer "1") (transferSet "399" "1") (Some "ok")
                     [("Org1Peer", "Org1")] in
  {| txId := txId tx; creatorId := creatorId tx; creatorOrgId := creatorOrgId tx;
     creatorPubKey := creatorPubKey tx; payload := payload tx; rwSet := rwSet tx;
     result := result tx; endorsements := endorsements tx;
     clientSignature := "forged" |}.

Definition block3 : Block :=
  {| header := {| number := 3; previousHash := "0"; dataHash := "tx0|tx1|tx2" |};
     transactions := [tx0; tx1; tx2];
     metadata := {| timestamp := "2026-01-01T00:00:03.000Z"; ordererId := "orderer1";
                    ordererSignature := ""; validationInfo := None |} |}.

Definition stores : Stores := {| ledgerStore := ∅; worldStateStore := world |}.

Definition now (i : nat) : string := "2026-01-01T00:00:04.000Z".

(** The stores and the block after [commitBlock]. *)
Definition committed : Stores * Block :=
  match commitBlock msp now stores block3 with
  | Ok r => r
  | Throw _ => (stores, block3)
  end.

(** An envelope with a verified endorsement of [Org1] and one more
    endorsement by an identity the MSP does not know. *)
Definition txGhost : TransactionEnvelope :=
  envelope "tx3" (transfer "100") (transferSet "300" "100") (Some "ok")
           [("Org1Peer", "Org1"); ("Ghost", "Org9")].

(** The object a client signs for a proposal, for two amounts. *)
Definition proposalOf (amount : string) : JSON.value :=
  JSON.Object [("txId", JSON.Str "tx1");
               ("creatorId", JSON.Str "Org1Client");
               ("creatorOrgId", JSON.Str "Org1");
               ("creatorPubKey", JSON.Str "K-Org1Client");
               ("payload", ToJSON.txPayload (transfer amount))].



(** A read-write set with a put and a delete. *)
Definition mixedSet : RWSet :=
  {| reads := [];
     writes := [{| write_key := "balance:Bob"; write_value := Some "100" |};
                {| write_key := "balance:Alice"; write_value := None |}] |}.

Definition context : ChaincodeExecutionContext := newContext "tx0" "Org1Client" "Org1".

(** Solo ordering on two submissions, the timer firing after each. *)
Definition solo0 : SoloConsensus := newSoloConsensus "orderer1".

Definition firstCut : SoloConsensus * option Block :=
  createBlock (submitTx solo0 tx0) "2026-01-01T00:00:01.000Z".

Definition secondCut : SoloConsensus * option Block :=
  createBlock (submitTx (fst firstCut) tx1) "2026-01-01T00:00:03.000Z".

Definition emptyBlock : Block :=
  {| header := {| number := 0; previousHash := ""; dataHash := "" |};
     transactions := [];
     metadata := {| timestamp := ""; ordererId := ""; ordererSignature := "";
                    validationInfo := None |} |}.

Definition block0 : Block := default emptyBlock (snd firstCut).
Definition block1 : Block := default emptyBlock (snd secondCut).

(** The orderer's ledger after it has stored the two blocks. *)
Definition ordererLedger : Exc (gmap string string) :=
  ledger <- onBlockCommitted ∅ block0 ;;; onBlockCommitted ledger block1.

End Scenario.

(** ** Numbers

    The numbers of the program are doubles; the model has the integers. The
    two agree on the safe integers, those of absolute value below 2^53:
    there [toString] writes all the digits, [parseInt] reads them back
    exactly and sums and differences are exact as long as they stay in that
    range. Beyond it the code rounds, and writes an exponent from 10^21 on;
    that is outside the model, and the properties that depend on the text
    of a number or on arithmetic are stated for safe integers. *)
Definition isSafeInteger (n : Z) : bool := Z.abs n <=? 2 ^ 53 - 1.

(** ** [parseInt]

    [parseInt(string)] without a radix: leading white space is skipped, a
    sign is read, [0x] or [0X] selects radix 16, and the longest run of
    digits that follows is the value; with no digit the result is [NaN],
    here [None]. The strings are strings of bytes, and the white space
    skipped is that of ASCII: on a string that starts with white space
    beyond ASCII the code goes on where the model gives [NaN]. *)
Definition isStrWhiteSpace (c : ascii) : bool :=
  Ascii.eqb c " " || ((9 <=? N_of_ascii c)%N && (N_of_ascii c <=? 13)%N).

Fixpoint trimStart (s : string) : string :=
  match s with
  | String c s' => if isStrWhiteSpace c then trimStart s' else s
  | EmptyString => s
  end.

Fixpoint readHex (acc : option Z) (s : string) : option Z :=
  match s with
  | String c s' =>
      match JSON.hexValue c with
      | Some d => readHex (Some (default 0 acc * 16 + Z.of_N d)) s'
      | None => acc
      end
  | EmptyString => acc
  end.

Definition readDecimal (s : string) : option Z :=
  let '(ds, _) := JSON.readDigits s in
  match ds with
  | EmptyString => None
  | String _ _ => Z.of_uint <$> NilEmpty.uint_of_string ds
  end.

Definition parseInt (input : string) : option Z :=
  let inputString := trimStart input in
  let '(negative, digits) :=
    match inputString with
    | String c r =>
        if Ascii.eqb c "-" then (true, r)
        else if Ascii.eqb c "+" then (false, r)
        else (false, inputString)
    | EmptyString => (false, inputString)
    end in
  let number :=
    match digits with
    | String c (String x r) =>
        if Ascii.eqb c "0" && (Ascii.eqb x "x" || Ascii.eqb x "X")
        then readHex None r
        else readDecimal digits
    | _ => readDecimal digits
    end in
  (fun n => if negative : bool then - n else n) <$> number.

(** *** Typed views of parsed JSON

    [JSON.parse(...) as Block] and the like, field by field. An optional
    field is absent when the property is missing. *)
Module Cast.
Import JSON.

Fixpoint each {A} (f : value -> Exc A) (l : list value) : Exc (list A) :=
  match l with
  | [] => Ok []
  | v :: rest => x <- f v ;;; xs <- each f rest ;;; Ok (x :: xs)
  end.

Definition array {A} (what : string) (f : value -> Exc A) (v : value) : Exc (list A) :=
  match v with
  | Array elems => each f elems
  | _ => FromJSON.illTyped what
  end.

Definition str (what : string) (v : value) : Exc string :=
  match v with
  | Str s => Ok s
  | _ => FromJSON.illTyped what
  end.

Definition nullable (what : string) (v : value) : Exc (option string) :=
  match v with
  | Null => Ok None
  | Str s => Ok (Some s)
  | _ => FromJSON.illTyped what
  end.

Definition optional {A} (f : value -> Exc A) (v : value) : Exc (option A) :=
  match v with
  | Undefined => Ok None
  | _ => x <- f v ;;; Ok (Some x)
  end.

Definition object {A} (what : string) (f : list (string * value) -> Exc A) (v : value)
  : Exc A :=
  match v with
  | Object props => f props
  | _ => FromJSON.illTyped what
  end.

Definition txType (v : value) : Exc TxType :=
  s <- str "TxType" v ;;;
  if String.eqb s "DEPLOY_CHAINCODE" then Ok DEPLOY_CHAINCODE
  else if String.eqb s "INVOKE_CHAINCODE" then Ok INVOKE_CHAINCODE
  else FromJSON.illTyped "TxType".

Definition validationCode (v : value) : Exc ValidationCode :=
  s <- str "ValidationCode" v ;;;
  if String.eqb s "VALID" then Ok VALID
  else if String.eqb s "ENDORSEMENT_POLICY_FAILURE" then Ok ENDORSEMENT_POLICY_FAILURE
  else if String.eqb s "MVCC_READ_CONFLICT" then Ok MVCC_READ_CONFLICT
  else if String.eqb s "BAD_PAYLOAD" then Ok BAD_PAYLOAD
  else if String.eqb s "MSP_VALIDATION_FAILED" then Ok MSP_VALIDATION_FAILED
  else FromJSON.illTyped "ValidationCode".

Definition txPayload : value -> Exc TxPayload :=
  object "TxPayload" (fun props =>
    type <- txType (Get props "type") ;;;
    chaincodeId <- str "string" (Get props "chaincodeId") ;;;
    functionName <- optional (str "string") (Get props "functionName") ;;;
    args <- optional (array "string[]" (str "string")) (Get props "args") ;;;
    endorsementPolicy <- optional FromJSON.policy (Get props "endorsementPolicy") ;;;
    Ok {| payload_type := type; chaincodeId := chaincodeId;
          functionName := functionName; args := args;
          endorsementPolicy := endorsementPolicy |}).

Definition readVersion : value -> Exc ReadVersion :=
  object "ReadVersion" (fun props =>
    key <- str "string" (Get props "key") ;;;
    version <- FromJSON.version (Get props "version") ;;;
    Ok {| read_key := key; read_version := version |}).

Definition writeEntry : value -> Exc WriteEntry :=
  object "WriteEntry" (fun props =>
    key <- str "string" (Get props "key") ;;;
    value <- nullable "string | null" (Get props "value") ;;;
    Ok {| write_key := key; write_value := value |}).

Definition rwset : value -> Exc RWSet :=
  object "RWSet" (fun props =>
    reads <- array "ReadVersion[]" readVersion (Get props "reads") ;;;
    writes <- array "WriteEntry[]" writeEntry (Get props "writes") ;;;
    Ok {| reads := reads; writes := writes |}).

Definition endorsement : value -> Exc Endorsement :=
  object "Endorsement" (fun props =>
    endorserId <- str "string" (Get props "endorserId") ;;;
    endorserOrgId <- str "string" (Get props "endorserOrgId") ;;;
    signature <- str "string" (Get props "signature") ;;;
    Ok {| endorserId := endorserId; endorserOrgId := endorserOrgId;
          signature := signature |}).

Definition transactionEnvelope : value -> Exc TransactionEnvelope :=
  object "TransactionEnvelope" (fun props =>
    txId <- str "string" (Get props "txId") ;;;
    creatorId <- str "string" (Get props "creatorId") ;;;
    creatorOrgId <- str "string" (Get props "creatorOrgId") ;;;
    creatorPubKey <- str "string" (Get props "creatorPubKey") ;;;
    payload <- txPayload (Get props "payload") ;;;
    rwSet <- rwset (Get props "rwSet") ;;;
    result <- nullable "string | null" (Get props "result") ;;;
    endorsements <- array "Endorsement[]" endorsement (Get props "endorsements") ;;;
    clientSignature <- str "string" (Get props "clientSignature") ;;;
    Ok {| txId := txId; creatorId := creatorId; creatorOrgId := creatorOrgId;
          creatorPubKey := creatorPubKey; payload := payload; rwSet := rwSet;
          result := result; endorsements := endorsements;
          clientSignature := clientSignature |}).

Definition blockHeader : value -> Exc BlockHeader :=
  object "BlockHeader" (fun props =>
    match Get props "number" with
    | Number number =>
        previousHash <- str "string" (Get props "previousHash") ;;;
        dataHash <- str "string" (Get props "dataHash") ;;;
        Ok {| number := number; previousHash := previousHash; dataHash := dataHash |}
    | _ => FromJSON.illTyped "number"
    end).

Definition txValidationInfo : value -> Exc TxValidationInfo :=
  object "TxValidationInfo" (fun props =>
    txId <- str "string" (Get props "txId") ;;;
    code <- validationCode (Get props "code") ;;;
    message <- optional (str "string") (Get props "message") ;;;
    Ok {| info_txId := txId; code := code; message := message |}).

Definition blockMetadata : value -> Exc BlockMetadata :=
  object "BlockMetadata" (fun props =>
    timestamp <- str "string" (Get props "timestamp") ;;;
    ordererId <- str "string" (Get props "ordererId") ;;;
    ordererSignature <- str "string" (Get props "ordererSignature") ;;;
    validationInfo <-
      optional (array "TxValidationInfo[]" txValidationInfo)
               (Get props "validationInfo") ;;;
    Ok {| timestamp := timestamp; ordererId := ordererId;
          ordererSignature := ordererSignature; validationInfo := validationInfo |}).

Definition block : value -> Exc Block :=
  object "Block" (fun props =>
    header <- blockHeader (Get props "header") ;;;
    transactions <-
      array "TransactionEnvelope[]" transactionEnvelope (Get props "transactions") ;;;
    metadata <- blockMetadata (Get props "metadata") ;;;
    Ok {| header := header; transactions := transactions; metadata := metadata |}).

End Cast.

(** What [JSON.parse] reads from the text of a value: a property holding
    [undefined] is gone and an [undefined] array element is [null]. *)
Fixpoint prune (v : JSON.value) : JSON.value :=
  match v with
  | JSON.Array elems =>
      JSON.Array (map (fun e => match e with
                                | JSON.Undefined => JSON.Null
                                | _ => prune e
                                end) elems)
  | JSON.Object props =>
      JSON.Object
        ((fix members (ps : list (string * JSON.value)) :=
            match ps with
            | [] => []
            | (k, JSON.Undefined) :: ps' => members ps'
            | (k, x) :: ps' => (k, prune x) :: members ps'
            end) props)
  | _ => v
  end.

(** No object inside the value has two properties of one name. *)
Fixpoint distinctKeys (v : JSON.value) : bool :=
  match v with
  | JSON.Array elems => forallb distinctKeys elems
  | JSON.Object props =>
      bool_decide (NoDup (map fst props))
      && forallb (fun p => distinctKeys (snd p)) props
  | _ => true
  end.

(** ** storage/index.ts: reading the ledger *)

(** The body of [getBlock] once the key is built; the parsed value is
    viewed as a [Block]. *)
Definition readBlock (db : gmap string string) (key : string) : Exc (option Block) :=
  match db !! key with
  | None => Ok None
  | Some blockStr =>
      v <- JSON.parse blockStr ;;;
      match v with
      | JSON.Null => Ok None
      | _ => block <- Cast.block v ;;; Ok (Some block)
      end
  end.

Definition getBlock (db : gmap string string) (blockNumber : Z) : Exc (option Block) :=
  readBlock db (blockKey blockNumber).

(** [parseInt] may give [NaN], with which [getBlock] builds the key
    [block:NaN]. *)
Definition getBlockByHash (db : gmap string string) (blockHash : string)
  : Exc (option Block) :=
  match db !! hashKey blockHash with
  | None => Ok None
  | Some blockNumberStr =>
      match parseInt blockNumberStr with
      | Some blockNumber => getBlock db blockNumber
      | None => readBlock db "block:NaN"
      end
  end.

(** The result is a number or [NaN] ([None]). *)
Definition getLatestBlockNumber (db : gmap string string) : option Z :=
  match db !! "meta:latest" with
  | None => Some (-1)
  | Some latest => parseInt latest
  end.

Definition getGenesisBlock (db : gmap string string) : Exc (option Block) :=
  getBlock db 0.

Definition txKey (txId : string) : string := "tx:" ++ txId.

Definition storeTransactionIndex (db : gmap string string) (txId : string)
           (blockNumber txNumber : Z) : gmap string string :=
  <[txKey txId := stringified (JSON.Object [("blockNumber", JSON.Number blockNumber);
                                            ("txNumber", JSON.Number txNumber)])]> db.

(** [getTransaction] returns what [JSON.parse] gives; the cast to
    [TransactionEnvelope] is not checked, so the result is the parsed value. *)
Definition getTransaction (db : gmap string string) (txId : string)
  : Exc (option JSON.value) :=
  match db !! txKey txId with
  | None => Ok None
  | Some txStr => v <- JSON.parse txStr ;;; Ok (Some v)
  end.

(** ** storage/index.ts: keys by prefix

    The iterator of the store yields the keys strictly between its two
    bounds in ascending byte order; [upperBound] is the UTF-8 form of
    the code unit U+FFFF. *)
Definition upperBound : string := String "239" (String "191" (String "191" "")).

(** [s.substring(n)]. *)
Fixpoint substringFrom (n : nat) (s : string) : string :=
  match n, s with
  | O, _ => s
  | S n', String _ s' => substringFrom n' s'
  | S _, EmptyString => ""
  end.

Definition iterator (db : gmap string string) (gt lt : string) : list string :=
  JSON.Array_sort
    (List.filter (fun key => String.ltb gt key && String.ltb key lt)
                 (map fst (map_to_list db))).

Definition getKeysByPrefix (ws : WorldStateStore) (prefix : string) : list string :=
  let statePrefix := "state:" ++ channelId ws ++ ":" ++ prefix in
  map (fun key => substringFrom (String.length ("state:" ++ channelId ws ++ ":")) key)
      (iterator (db ws) statePrefix (statePrefix ++ upperBound)).

(** [ChaincodeMetadataStore.getAllChaincodes]. *)
Definition getAllChaincodes (ws : WorldStateStore) : list string :=
  getKeysByPrefix ws "CHAINCODE:".

(** ** chaincode/index.ts: the chaincode host

    A chaincode is given the context object and acts on the world only
    through its three methods. Its run is the tree of these calls: what it
    does next may depend on what [getState] answered. [Raise] is a [throw]
    of the chaincode, with the text of the error. A chaincode that does not
    terminate, or that catches an exception of the context, is outside the
    model. *)
Inductive Program : Type :=
| Return (result : option string)
| Raise (error : string)
| GetState (key : string) (next : option string -> Program)
| PutState (key value : string) (next : Program)
| DelState (key : string) (next : Program).

(** [init] is optional; the functions read [ctx.txId], [ctx.clientId] and
    [ctx.clientOrgId] from the context they are given. *)
Record Chaincode := {
  init : option (ChaincodeExecutionContext -> list string -> Program);
  invoke : ChaincodeExecutionContext -> string -> list string -> Program
}.

(** The run of a chaincode function on the context [ctx] over the world
    state [worldState]; the result is the context at the end and the value
    the function returns ([None] is [undefined]). *)
Fixpoint run (worldState : WorldStateStore) (p : Program)
         (ctx : ChaincodeExecutionContext)
  : Exc (ChaincodeExecutionContext * option string) :=
  match p with
  | Return result => Ok (ctx, result)
  | Raise error => Throw error
  | GetState key next =>
      '(ctx, value) <- Context.getState worldState ctx key ;;;
      run worldState (next value) ctx
  | PutState key value next => run worldState next (Context.putState ctx key value)
  | DelState key next => run worldState next (Context.delState ctx key)
  end.

Record ChaincodeHost := {
  chaincodes : gmap string Chaincode;
  host_worldState : WorldStateStore
}.

Definition registerChaincode (host : ChaincodeHost) (chaincodeId : string)
           (chaincode : Chaincode) : ChaincodeHost :=
  {| chaincodes := <[chaincodeId := chaincode]> (chaincodes host);
     host_worldState := host_worldState host |}.

Definition hasChaincode (host : ChaincodeHost) (chaincodeId : string) : bool :=
  bool_decide (is_Some (chaincodes host !! chaincodeId)).

(** [x || null] for [x : string | void]. *)
Definition orNull (x : option string) : option string :=
  match x with
  | Some EmptyString | None => None
  | Some s => Some s
  end.

(** [executeTransaction]; [txId] is the value of [generateTxId()], a digest
    of the clock and of a random number. *)
Definition executeTransaction (host : ChaincodeHost) (chaincodeId : string)
           (payload : TxPayload) (creatorId creatorOrgId : string) (txId : string)
  : Exc (RWSet * option string) :=
  match chaincodes host !! chaincodeId with
  | None => Throw ("Error: Chaincode " ++ chaincodeId ++ " not found")
  | Some chaincode =>
      let context := newContext txId creatorId creatorOrgId in
      let body : Exc (ChaincodeExecutionContext * option string) :=
        match payload_type payload with
        | DEPLOY_CHAINCODE =>
            match init chaincode with
            | Some init =>
                '(ctx, initResult) <-
                  run (host_worldState host) (init context (default [] (args payload)))
                      context ;;;
                Ok (ctx, orNull initResult)
            | None => Ok (context, None)
            end
        | INVOKE_CHAINCODE =>
            match functionName payload with
            | Some (String c fn) =>
                '(ctx, invokeResult) <-
                  run (host_worldState host)
                      (invoke chaincode context (String c fn) (default [] (args payload)))
                      context ;;;
                Ok (ctx, orNull invokeResult)
            | _ => Throw "Error: Function name not provided for INVOKE_CHAINCODE"
            end
        end in
      match body with
      | Ok (ctx, result) => Ok (Context.getRWSet ctx, result)
      | Throw error => Throw ("Error: Chaincode execution failed: " ++ error)
      end
  end.

(** ** crypto/index.ts: signing

    [sign data privateKey] is the base64 RSA-SHA256 signature of [data]. *)
Class Signer := { sign : string -> string -> string }.

(** ** types/index.ts: proposals *)

Record Proposal := {
  proposal_txId : string;
  proposal_creatorId : string;
  proposal_creatorOrgId : string;
  proposal_creatorPubKey : string;
  proposal_payload : TxPayload;
  proposal_signature : string
}.

Record ProposalResponse := {
  response_proposal : Proposal;
  response_rwSet : RWSet;
  response_result : option string;
  response_endorsement : Endorsement
}.

(** The object of a proposal that is signed and verified. *)
Definition proposalData (txId creatorId creatorOrgId creatorPubKey : string)
           (payload : TxPayload) : JSON.value :=
  JSON.Object [("txId", JSON.Str txId);
               ("creatorId", JSON.Str creatorId);
               ("creatorOrgId", JSON.Str creatorOrgId);
               ("creatorPubKey", JSON.Str creatorPubKey);
               ("payload", ToJSON.txPayload payload)].

(** ** peer/index.ts: the endorser *)

(** The chaincode host and the metadata store of a peer are built over one
    world-state store; the endorser is given the two of them. *)
Record Endorser := {
  endorser_msp : MSP;
  chaincodeHost : ChaincodeHost;
  chaincodeMetadataStore : WorldStateStore;
  peerId : string;
  peerPrivateKey : string
}.

(** The answer of a request handler: the body of a 200 response, or the
    status and text of a rejection. *)
Inductive Answer (A : Type) : Type :=
| Accepted (body : A)
| Rejected (status : Z) (text : string).
Arguments Accepted {A} body.
Arguments Rejected {A} status text.

Section Endorsing.
Context `{Crypto} `{Signer}.

Definition processProposal (endorser : Endorser) (proposal : Proposal)
           (generatedTxId : string) : Exc ProposalResponse :=
  let payload := proposal_payload proposal in
  _ <- match payload_type payload with
       | INVOKE_CHAINCODE =>
           chaincodeExists <-
             chaincodeExists (chaincodeMetadataStore endorser) (chaincodeId payload) ;;;
           if negb chaincodeExists
           then Throw ("Error: Chaincode " ++ chaincodeId payload ++ " not deployed")
           else Ok tt
       | DEPLOY_CHAINCODE => Ok tt
       end ;;;
  '(rwSet, result) <-
    executeTransaction (chaincodeHost endorser) (chaincodeId payload) payload
                       (proposal_creatorId proposal) (proposal_creatorOrgId proposal)
                       generatedTxId ;;;
  endorsementData <-
    canonicalStringify
      (JSON.Object [("proposal",
                     JSON.Object [("txId", JSON.Str (proposal_txId proposal));
                                  ("payload", ToJSON.txPayload payload)]);
                    ("rwSet", ToJSON.rwset rwSet);
                    ("result", ToJSON.nullable result)]) ;;;
  match getIdentity (endorser_msp endorser) (peerId endorser) with
  | None => Throw ("Error: Peer identity " ++ peerId endorser ++ " not found")
  | Some peerIdentity =>
      Ok {| response_proposal := proposal;
            response_rwSet := rwSet;
            response_result := result;
            response_endorsement :=
              {| endorserId := identity_id peerIdentity;
                 endorserOrgId := orgId peerIdentity;
                 signature := sign endorsementData (peerPrivateKey endorser) |} |}
  end.

(** [Peer.handleProposal]: the proposal signature is verified with role
    [CLIENT], then the endorser processes the proposal. *)
Definition handleProposal (endorser : Endorser) (proposal : Proposal)
           (generatedTxId : string) : Exc (Answer ProposalResponse) :=
  proposalData <-
    canonicalStringify
      (proposalData (proposal_txId proposal) (proposal_creatorId proposal)
                    (proposal_creatorOrgId proposal) (proposal_creatorPubKey proposal)
                    (proposal_payload proposal)) ;;;
  let signatureValid :=
    verifySignature (endorser_msp endorser) proposalData (proposal_signature proposal)
                    (proposal_creatorId proposal) (Some CLIENT) in
  if negb (valid signatureValid) then
    Ok (Rejected 400 ("Invalid signature: " ++ default "undefined" (error signatureValid)))
  else
    response <- processProposal endorser proposal generatedTxId ;;;
    Ok (Accepted response).

(** [Peer.handleSubmit]: the client signature of an envelope is verified;
    the envelope is acknowledged and goes nowhere from here. *)
Definition handleSubmit (msp : MSP) (tx : TransactionEnvelope) : Exc (Answer string) :=
  data <- canonicalStringify (txData tx) ;;;
  let signatureValid :=
    verifySignature msp data (clientSignature tx) (creatorId tx) (Some CLIENT) in
  if negb (valid signatureValid) then
    Ok (Rejected 400 ("Invalid signature: " ++ default "undefined" (error signatureValid)))
  else Ok (Accepted "received").

(** ** The client *)

Record LitefabClient := {
  client_clientId : string;
  client_clientOrgId : string;
  client_clientPubKey : string;
  client_clientPrivateKey : string
}.

Definition createProposal (client : LitefabClient) (txId : string) (payload : TxPayload)
  : Exc Proposal :=
  proposalData <-
    canonicalStringify
      (proposalData txId (client_clientId client) (client_clientOrgId client)
                    (client_clientPubKey client) payload) ;;;
  Ok {| proposal_txId := txId;
        proposal_creatorId := client_clientId client;
        proposal_creatorOrgId := client_clientOrgId client;
        proposal_creatorPubKey := client_clientPubKey client;
        proposal_payload := payload;
        proposal_signature := sign proposalData (client_clientPrivateKey client) |}.

(** The read-write set and the result are those of the first response; the
    endorsements are those of all responses. *)
Definition createTransactionEnvelope (client : LitefabClient) (proposal : Proposal)
           (proposalResponses : list ProposalResponse) : Exc TransactionEnvelope :=
  match proposalResponses with
  | [] => Throw "TypeError: undefined is not an object (evaluating 'firstResponse.rwSet')"
  | firstResponse :: _ =>
      let tx clientSignature :=
        {| txId := proposal_txId proposal;
           creatorId := proposal_creatorId proposal;
           creatorOrgId := proposal_creatorOrgId proposal;
           creatorPubKey := proposal_creatorPubKey proposal;
           payload := proposal_payload proposal;
           rwSet := response_rwSet firstResponse;
           result := response_result firstResponse;
           endorsements := map response_endorsement proposalResponses;
           clientSignature := clientSignature |} in
      data <- canonicalStringify (txData (tx "")) ;;;
      Ok (tx (sign data (client_clientPrivateKey client)))
  end.

End Endorsing.

(** ** The token chaincode [basic]

    Numbers of the chaincode: an integer, or [NaN] when [parseInt] finds no
    digit; arithmetic with [NaN] gives [NaN] and every comparison with it is
    false. The arithmetic is that of the integers, which is the arithmetic
    of the code as long as the operands and the results are safe integers. *)
Module Token.

Definition add (a b : option Z) : option Z :=
  match a, b with
  | Some x, Some y => Some (x + y)
  | _, _ => None
  end.

Definition sub (a b : option Z) : option Z :=
  match a, b with
  | Some x, Some y => Some (x - y)
  | _, _ => None
  end.

Definition lt (a b : option Z) : bool :=
  match a, b with
  | Some x, Some y => x <? y
  | _, _ => false
  end.

Definition le (a b : option Z) : bool :=
  match a, b with
  | Some x, Some y => x <=? y
  | _, _ => false
  end.

Definition isNaN (a : option Z) : bool :=
  match a with Some _ => false | None => true end.

Definition toString (a : option Z) : string :=
  match a with
  | Some z => JSON.Number_toString z
  | None => "NaN"
  end.

(** [!x] for [x : string | undefined]. *)
Definition missing (x : option string) : bool :=
  match x with
  | Some (String _ _) => false
  | _ => true
  end.

(** [x || '0'] for [x : string | null]. *)
Definition orZero (x : option string) : string :=
  match x with
  | Some (String c s) => String c s
  | _ => "0"
  end.

(** [String.prototype.includes]. *)
Fixpoint includes (s sub : string) : bool :=
  String.prefix sub s
  || match s with
     | String _ s' => includes s' sub
     | EmptyString => false
     end.

Definition mint (ctx : ChaincodeExecutionContext) (args : list string) : Program :=
  let amount := args !! 0%nat in
  let recipient := args !! 1%nat in
  if missing amount || missing recipient then
    Raise "Error: Mint requires amount and recipient"
  else if negb (includes (clientOrgId ctx) "Org1") then
    Raise "Error: Only Org1 can mint tokens"
  else
    let amountNum := parseInt (default "" amount) in
    if isNaN amountNum || le amountNum (Some 0) then Raise "Error: Invalid amount"
    else
      GetState "totalSupply" (fun value =>
        let currentSupply := parseInt (orZero value) in
        let newSupply := add currentSupply amountNum in
        PutState "totalSupply" (toString newSupply) (
          let balanceKey := "balance:" ++ default "" recipient in
          GetState balanceKey (fun value =>
            let currentBalance := parseInt (orZero value) in
            let newBalance := add currentBalance amountNum in
            PutState balanceKey (toString newBalance) (
              Return (Some ("Minted " ++ toString amountNum ++ " tokens to "
                            ++ default "" recipient)))))).

Definition transfer (ctx : ChaincodeExecutionContext) (args : list string) : Program :=
  let from := args !! 0%nat in
  let to := args !! 1%nat in
  let amount := args !! 2%nat in
  if missing from || missing to || missing amount then
    Raise "Error: Transfer requires from, to, and amount"
  else
    let amountNum := parseInt (default "" amount) in
    if isNaN amountNum || le amountNum (Some 0) then Raise "Error: Invalid amount"
    else
      let fromBalanceKey := "balance:" ++ default "" from in
      GetState fromBalanceKey (fun value =>
        let fromBalance := parseInt (orZero value) in
        if lt fromBalance amountNum then Raise "Error: Insufficient balance"
        else
          PutState fromBalanceKey (toString (sub fromBalance amountNum)) (
            let toBalanceKey := "balance:" ++ default "" to in
            GetState toBalanceKey (fun value =>
              let toBalance := parseInt (orZero value) in
              PutState toBalanceKey (toString (add toBalance amountNum)) (
                Return (Some ("Transferred " ++ toString amountNum ++ " tokens from "
                              ++ default "" from ++ " to " ++ default "" to)))))).

Definition balanceOf (ctx : ChaincodeExecutionContext) (args : list string) : Program :=
  let account := args !! 0%nat in
  if missing account then Raise "Error: balanceOf requires account"
  else
    GetState ("balance:" ++ default "" account) (fun value =>
      Return (Some (orZero value))).

Definition totalSupply (ctx : ChaincodeExecutionContext) : Program :=
  GetState "totalSupply" (fun value => Return (Some (orZero value))).

Definition chaincode : Chaincode :=
  {| init := Some (fun ctx args =>
       match args with
       | String c s :: _ =>
           PutState "totalSupply" (String c s) (
             Return (Some ("Initialized with total supply: " ++ String c s)))
       | _ =>
           PutState "totalSupply" "0" (Return (Some "Initialized with zero supply"))
       end);
     invoke := fun ctx fn args =>
       if String.eqb fn "mint" then mint ctx args
       else if String.eqb fn "transfer" then transfer ctx args
       else if String.eqb fn "balanceOf" then balanceOf ctx args
       else if String.eqb fn "totalSupply" then totalSupply ctx
       else Raise ("Error: Unknown function: " ++ fn) |}.

End Token.

(** ** orderer/index.ts

    The orderer over Solo consensus: its MSP, its ledger, the consensus
    module and its private key. *)
Module Orderer.

(** The object of a block that the orderer signs and verifies. *)
Definition blockData (block : Block) : JSON.value :=
  JSON.Object [("header", ToJSON.blockHeader (header block));
               ("transactions",
                JSON.Array (map ToJSON.transactionEnvelope (transactions block)));
               ("metadata",
                JSON.Object [("timestamp", JSON.Str (timestamp (metadata block)));
                             ("ordererId", JSON.Str (ordererId (metadata block)))])].

Definition withSignature (block : Block) (ordererSignature : string) : Block :=
  {| header := header block;
     transactions := transactions block;
     metadata := {| timestamp := timestamp (metadata block);
                    ordererId := ordererId (metadata block);
                    ordererSignature := ordererSignature;
                    validationInfo := validationInfo (metadata block) |} |}.

Section WithPrimitives.
Context `{Crypto} `{Signer}.

(** [handleSubmit]: an envelope whose client signature verifies is handed
    to the consensus module. *)
Definition handleSubmit (msp : MSP) (consensus : SoloConsensus) (tx : TransactionEnvelope)
  : Exc (Answer string * SoloConsensus) :=
  data <- canonicalStringify (txData tx) ;;;
  let signatureValid :=
    verifySignature msp data (clientSignature tx) (creatorId tx) (Some CLIENT) in
  if negb (valid signatureValid) then
    Ok (Rejected 400 ("Invalid signature: " ++ default "undefined" (error signatureValid)),
        consensus)
  else Ok (Accepted "submitted", submitTx consensus tx).

(** [handleBroadcast]: a block whose orderer signature verifies is stored. *)
Definition handleBroadcast (msp : MSP) (ledger : gmap string string) (block : Block)
  : Exc (Answer string * gmap string string) :=
  data <- canonicalStringify (blockData block) ;;;
  let signatureValid :=
    verifySignature msp data (ordererSignature (metadata block))
                    (ordererId (metadata block)) (Some ORDERER) in
  if negb (valid signatureValid) then
    Ok (Rejected 400 ("Invalid signature: " ++ default "undefined" (error signatureValid)),
        ledger)
  else
    ledger <- storeBlock ledger block ;;;
    Ok (Accepted "stored", ledger).

(** [onBlockCommitted]: the block is stored as the consensus module made
    it, then signed; the result is the ledger and the block handed to the
    broadcaster. *)
Definition onBlockCommitted (privateKey : string) (ledger : gmap string string)
           (block : Block) : Exc (gmap string string * Block) :=
  ledger <- storeBlock ledger block ;;;
  data <- canonicalStringify (blockData block) ;;;
  Ok (ledger, withSignature block (sign data privateKey)).

End WithPrimitives.

End Orderer.

(** ** orderer/index.ts: the block cutter *)

Record BlockCutter := {
  cutter_pendingTxs : list TransactionEnvelope;
  batchTimer : bool
}.

Definition newBlockCutter : BlockCutter :=
  {| cutter_pendingTxs := []; batchTimer := false |}.

Definition maxBlockSize : nat := 10.

Section Cutting.
Context `{Crypto}.

(** [calculateDataHash]: the digest of the canonical texts, joined. *)
Definition calculateDataHash (txs : list TransactionEnvelope) : Exc string :=
  txData <- (fix each (txs : list TransactionEnvelope) : Exc (list string) :=
               match txs with
               | [] => Ok []
               | tx :: rest =>
                   x <- canonicalStringify (ToJSON.transactionEnvelope tx) ;;;
                   xs <- each rest ;;; Ok (x :: xs)
               end) txs ;;;
  Ok (hash (JSON.join "" txData)).

Definition cutter_createBlock (txs : list TransactionEnvelope) (now : string) : Exc Block :=
  dataHash <- calculateDataHash txs ;;;
  Ok {| header := {| number := 0; previousHash := "0"; dataHash := dataHash |};
        transactions := txs;
        metadata := {| timestamp := now; ordererId := "orderer1";
                       ordererSignature := ""; validationInfo := None |} |}.

(** [cutBlock]; the block, if any, is the one emitted as [blockCreated]. *)
Definition cutBlock (c : BlockCutter) (now : string) : Exc (BlockCutter * option Block) :=
  let c := {| cutter_pendingTxs := cutter_pendingTxs c; batchTimer := false |} in
  if (List.length (cutter_pendingTxs c) =? 0)%nat then Ok (c, None)
  else
    block <- cutter_createBlock (cutter_pendingTxs c) now ;;;
    Ok ({| cutter_pendingTxs := []; batchTimer := false |}, Some block).

Definition addTransaction (c : BlockCutter) (tx : TransactionEnvelope) (now : string)
  : Exc (BlockCutter * option Block) :=
  let c := {| cutter_pendingTxs := cutter_pendingTxs c ++ [tx];
              batchTimer := batchTimer c |} in
  if (maxBlockSize <=? List.length (cutter_pendingTxs c))%nat then cutBlock c now
  else if negb (batchTimer c) then
    Ok ({| cutter_pendingTxs := cutter_pendingTxs c; batchTimer := true |}, None)
  else Ok (c, None).

End Cutting.

(** ** Runs of the ordering components

    What happens to a consensus module or a block cutter is a sequence of
    events: a transaction is submitted, or the timer that is armed fires.
    Each event carries the reading of the clock at that moment, which is
    used when a block is made. A timer that is not armed does not fire. *)
Inductive OrderingEvent :=
| Submitted (tx : TransactionEnvelope) (now : string)
| TimerFired (now : string).

Definition submitted (events : list OrderingEvent) : list TransactionEnvelope :=
  omap (fun e => match e with Submitted tx _ => Some tx | TimerFired _ => None end) events.

Definition emitted (block : option Block) : list Block :=
  match block with Some b => [b] | None => [] end.

Definition soloStep (c : SoloConsensus) (e : OrderingEvent) : SoloConsensus * option Block :=
  match e with
  | Submitted tx _ => (submitTx c tx, None)
  | TimerFired now => if blockTimer c then createBlock c now else (c, None)
  end.

(** The blocks emitted along the events, oldest first, and the state at
    the end. *)
Fixpoint soloRun (c : SoloConsensus) (events : list OrderingEvent)
  : SoloConsensus * list Block :=
  match events with
  | [] => (c, [])
  | e :: rest =>
      let '(c, block) := soloStep c e in
      let '(c', blocks) := soloRun c rest in
      (c', (emitted block ++ blocks)%list)
  end.

Section CutterRuns.
Context `{Crypto}.

Definition cutterStep (c : BlockCutter) (e : OrderingEvent)
  : Exc (BlockCutter * option Block) :=
  match e with
  | Submitted tx now => addTransaction c tx now
  | TimerFired now => if batchTimer c then cutBlock c now else Ok (c, None)
  end.

Fixpoint cutterRun (c : BlockCutter) (events : list OrderingEvent)
  : Exc (BlockCutter * list Block) :=
  match events with
  | [] => Ok (c, [])
  | e :: rest =>
      '(c, block) <- cutterStep c e ;;;
      '(c', blocks) <- cutterRun c rest ;;;
      Ok (c', (emitted block ++ blocks)%list)
  end.

End CutterRuns.

(** ** consensus/index.ts: Raft

    The state of a [RaftConsensus] node. The three timers are recorded as
    armed or not; [votes] is the set of votes in insertion order. *)
Record RaftConsensus := {
  raft_nodeId : string;
  clusterNodes : list string;
  isLeader : bool;
  term : Z;
  log : list TransactionEnvelope;
  commitIndex : Z;
  lastApplied : Z;
  raft_blockNumber : Z;
  raft_blockTimer : bool;
  raft_pendingTxs : list TransactionEnvelope;
  votedFor : option string;
  votes : list string;
  electionTimer : bool;
  heartbeatTimer : bool
}.

Definition blockSize : nat := 10.

(** The constructor, which starts the election timer. *)
Definition newRaftConsensus (nodeId : string) (clusterNodes : list string) : RaftConsensus :=
  {| raft_nodeId := nodeId; clusterNodes := clusterNodes; isLeader := false; term := 0;
     log := []; commitIndex := -1; lastApplied := -1; raft_blockNumber := 0;
     raft_blockTimer := false; raft_pendingTxs := []; votedFor := None; votes := [];
     electionTimer := true; heartbeatTimer := false |}.

(** [createBlock] with [commitBlock]; the block, if any, is the one given
    to [emitBlockCommitted]. *)
Definition raft_createBlock (c : RaftConsensus) (now : string)
  : RaftConsensus * option Block :=
  if (List.length (raft_pendingTxs c) =? 0)%nat then
    ({| raft_nodeId := raft_nodeId c; clusterNodes := clusterNodes c;
        isLeader := isLeader c; term := term c; log := log c;
        commitIndex := commitIndex c; lastApplied := lastApplied c;
        raft_blockNumber := raft_blockNumber c; raft_blockTimer := false;
        raft_pendingTxs := raft_pendingTxs c; votedFor := votedFor c; votes := votes c;
        electionTimer := electionTimer c; heartbeatTimer := heartbeatTimer c |}, None)
  else
    let block :=
      {| header := {| number := raft_blockNumber c;
                      previousHash := "0";
                      dataHash := JSON.join "|" (map txId (raft_pendingTxs c)) |};
         transactions := raft_pendingTxs c;
         metadata := {| timestamp := now;
                        ordererId := raft_nodeId c;
                        ordererSignature := "";
                        validationInfo := None |} |} in
    ({| raft_nodeId := raft_nodeId c; clusterNodes := clusterNodes c;
        isLeader := isLeader c; term := term c; log := log c;
        commitIndex := raft_blockNumber c; lastApplied := raft_blockNumber c;
        raft_blockNumber := raft_blockNumber c + 1; raft_blockTimer := false;
        raft_pendingTxs := []; votedFor := votedFor c; votes := votes c;
        electionTimer := electionTimer c; heartbeatTimer := heartbeatTimer c |},
     Some block).

(** [addToLog] with [checkBlockCreation]. *)
Definition addToLog (c : RaftConsensus) (tx : TransactionEnvelope) (now : string)
  : RaftConsensus * option Block :=
  let c := {| raft_nodeId := raft_nodeId c; clusterNodes := clusterNodes c;
              isLeader := isLeader c; term := term c; log := log c ++ [tx];
              commitIndex := commitIndex c; lastApplied := lastApplied c;
              raft_blockNumber := raft_blockNumber c;
              raft_blockTimer := raft_blockTimer c;
              raft_pendingTxs := raft_pendingTxs c ++ [tx];
              votedFor := votedFor c; votes := votes c;
              electionTimer := electionTimer c; heartbeatTimer := heartbeatTimer c |} in
  if (blockSize <=? List.length (raft_pendingTxs c))%nat then raft_createBlock c now
  else if negb (raft_blockTimer c) && (0 <? List.length (raft_pendingTxs c))%nat then
    ({| raft_nodeId := raft_nodeId c; clusterNodes := clusterNodes c;
        isLeader := isLeader c; term := term c; log := log c;
        commitIndex := commitIndex c; lastApplied := lastApplied c;
        raft_blockNumber := raft_blockNumber c; raft_blockTimer := true;
        raft_pendingTxs := raft_pendingTxs c; votedFor := votedFor c; votes := votes c;
        electionTimer := electionTimer c; heartbeatTimer := heartbeatTimer c |}, None)
  else (c, None).

Definition raft_submitTx (c : RaftConsensus) (tx : TransactionEnvelope) (now : string)
  : Exc (RaftConsensus * option Block) :=
  if isLeader c then Ok (addToLog c tx now)
  else Throw ("Error: Node " ++ raft_nodeId c
              ++ " is not the leader. Cannot submit transaction.").

(** [startElection]: a new term, one's own vote, and the election timer
    started again. The vote requests it sends are answered by later
    events. *)
Definition startElection (c : RaftConsensus) : RaftConsensus :=
  {| raft_nodeId := raft_nodeId c; clusterNodes := clusterNodes c;
     isLeader := false; term := term c + 1; log := log c;
     commitIndex := commitIndex c; lastApplied := lastApplied c;
     raft_blockNumber := raft_blockNumber c; raft_blockTimer := raft_blockTimer c;
     raft_pendingTxs := raft_pendingTxs c; votedFor := Some (raft_nodeId c);
     votes := [raft_nodeId c]; electionTimer := true;
     heartbeatTimer := heartbeatTimer c |}.

Definition becomeLeader (c : RaftConsensus) : RaftConsensus :=
  {| raft_nodeId := raft_nodeId c; clusterNodes := clusterNodes c;
     isLeader := true; term := term c; log := log c;
     commitIndex := commitIndex c; lastApplied := lastApplied c;
     raft_blockNumber := raft_blockNumber c; raft_blockTimer := raft_blockTimer c;
     raft_pendingTxs := raft_pendingTxs c; votedFor := votedFor c; votes := votes c;
     electionTimer := false; heartbeatTimer := true |}.

Definition quorum (c : RaftConsensus) : nat := (List.length (clusterNodes c) / 2 + 1)%nat.

Definition checkElectionWon (c : RaftConsensus) : RaftConsensus :=
  if (quorum c <=? List.length (votes c))%nat && negb (isLeader c)
  then becomeLeader c else c.

Definition addVote (c : RaftConsensus) (node : string) : RaftConsensus :=
  {| raft_nodeId := raft_nodeId c; clusterNodes := clusterNodes c;
     isLeader := isLeader c; term := term c; log := log c;
     commitIndex := commitIndex c; lastApplied := lastApplied c;
     raft_blockNumber := raft_blockNumber c; raft_blockTimer := raft_blockTimer c;
     raft_pendingTxs := raft_pendingTxs c; votedFor := votedFor c;
     votes := Set_add (votes c) node;
     electionTimer := electionTimer c; heartbeatTimer := heartbeatTimer c |}.

(** The callback that [requestVotes] schedules for [node] when it draws a
    vote. *)
Definition voteGranted (c : RaftConsensus) (node : string) : RaftConsensus :=
  checkElectionWon (addVote c node).

Definition stepDown (c : RaftConsensus) : RaftConsensus :=
  {| raft_nodeId := raft_nodeId c; clusterNodes := clusterNodes c;
     isLeader := false; term := term c; log := log c;
     commitIndex := commitIndex c; lastApplied := lastApplied c;
     raft_blockNumber := raft_blockNumber c; raft_blockTimer := raft_blockTimer c;
     raft_pendingTxs := raft_pendingTxs c; votedFor := votedFor c; votes := votes c;
     electionTimer := true; heartbeatTimer := false |}.

Definition withTerm (c : RaftConsensus) (t : Z) : RaftConsensus :=
  {| raft_nodeId := raft_nodeId c; clusterNodes := clusterNodes c;
     isLeader := isLeader c; term := t; log := log c;
     commitIndex := commitIndex c; lastApplied := lastApplied c;
     raft_blockNumber := raft_blockNumber c; raft_blockTimer := raft_blockTimer c;
     raft_pendingTxs := raft_pendingTxs c; votedFor := votedFor c; votes := votes c;
     electionTimer := electionTimer c; heartbeatTimer := heartbeatTimer c |}.

Definition receiveVote (c : RaftConsensus) (nodeId : string) (t : Z) : RaftConsensus :=
  if (t =? term c) && negb (includes (votes c) nodeId) then
    checkElectionWon (addVote c nodeId)
  else if term c <? t then stepDown (withTerm c t)
  else c.

Definition receiveAppendEntries (c : RaftConsensus) (leaderId : string) (t : Z)
           (prevLogIndex prevLogTerm : Z) (entries : list TransactionEnvelope)
           (leaderCommit : Z) : RaftConsensus * bool :=
  let c := if term c <? t then stepDown (withTerm c t) else c in
  if t <? term c then (c, false)
  else
    let c :=
      {| raft_nodeId := raft_nodeId c; clusterNodes := clusterNodes c;
         isLeader := isLeader c; term := term c; log := log c;
         commitIndex := Z.min leaderCommit (Z.of_nat (List.length (log c)) - 1);
         lastApplied := lastApplied c;
         raft_blockNumber := raft_blockNumber c; raft_blockTimer := raft_blockTimer c;
         raft_pendingTxs := raft_pendingTxs c; votedFor := votedFor c; votes := votes c;
         electionTimer := true; heartbeatTimer := heartbeatTimer c |} in
    (c, true).

(** What can happen to a node: the calls of its public methods and the
    firing of its timers and vote callbacks. The block timer fires only
    when it is armed; an election timer may fire at any time, since
    [stepDown] starts one without clearing the one that is running. *)
Inductive RaftEvent :=
| RaftSubmit (tx : TransactionEnvelope) (now : string)
| RaftBlockTimer (now : string)
| RaftElectionTimer
| RaftVoteGranted (node : string)
| RaftReceiveVote (nodeId : string) (t : Z)
| RaftAppendEntries (leaderId : string) (t prevLogIndex prevLogTerm : Z)
                    (entries : list TransactionEnvelope) (leaderCommit : Z).

(** One event: the state after it, the block emitted, and whether a
    submission was taken. *)
Definition raftStep (c : RaftConsensus) (e : RaftEvent)
  : RaftConsensus * option Block * list TransactionEnvelope :=
  match e with
  | RaftSubmit tx now =>
      match raft_submitTx c tx now with
      | Ok (c', block) => (c', block, [tx])
      | Throw _ => (c, None, [])
      end
  | RaftBlockTimer now =>
      if raft_blockTimer c then (raft_createBlock c now, []) else (c, None, [])
  | RaftElectionTimer => (startElection c, None, [])
  | RaftVoteGranted node => (voteGranted c node, None, [])
  | RaftReceiveVote nodeId t => (receiveVote c nodeId t, None, [])
  | RaftAppendEntries leaderId t prevLogIndex prevLogTerm entries leaderCommit =>
      (fst (receiveAppendEntries c leaderId t prevLogIndex prevLogTerm entries
                                 leaderCommit), None, [])
  end.

(** The state at the end, the blocks emitted and the submissions taken. *)
Fixpoint raftRun (c : RaftConsensus) (events : list RaftEvent)
  : RaftConsensus * list Block * list TransactionEnvelope :=
  match events with
  | [] => (c, [], [])
  | e :: rest =>
      let '(c, block, taken) := raftStep c e in
      let '(c', blocks, takens) := raftRun c rest in
      (c', (emitted block ++ blocks)%list, (taken ++ takens)%list)
  end.

(** ** client/index.ts: the policy argument of the command line

    String methods on strings of bytes: [split] with a separator of one
    character, [trim] for ASCII white space, [toUpperCase] for ASCII
    letters. On ASCII strings these are the methods of the code; beyond
    ASCII the code also trims the other white space of Unicode and maps
    other letters, which is outside the model, and the properties of the
    parser are stated for ASCII input. *)
Fixpoint isASCII (s : string) : bool :=
  match s with
  | EmptyString => true
  | String c s' => (N_of_ascii c <? 128)%N && isASCII s'
  end.

Fixpoint split (separator : ascii) (s : string) : list string :=
  match s with
  | EmptyString => [""]
  | String c s' =>
      if Ascii.eqb c separator then "" :: split separator s'
      else
        match split separator s' with
        | first :: rest => String c first :: rest
        | [] => [String c ""]
        end
  end.

Fixpoint trimEnd (s : string) : string :=
  match s with
  | EmptyString => ""
  | String c s' =>
      match trimEnd s' with
      | EmptyString => if isStrWhiteSpace c then "" else String c ""
      | String c' r => String c (String c' r)
      end
  end.

Definition trim (s : string) : string := trimEnd (trimStart s).

Definition toUpperCaseChar (c : ascii) : ascii :=
  if (97 <=? N_of_ascii c)%N && (N_of_ascii c <=? 122)%N
  then ascii_of_N (N_of_ascii c - 32)
  else c.

Fixpoint toUpperCase (s : string) : string :=
  match s with
  | EmptyString => ""
  | String c s' => String (toUpperCaseChar c) (toUpperCase s')
  end.

(** [CLI.parseEndorsementPolicy]. *)
Definition parseEndorsementPolicy (policy : string) : Exc EndorsementPolicy :=
  match split ":" policy with
  | [type; orgsStr] =>
      if String.eqb type "" || String.eqb orgsStr "" then
        Throw ("Error: Invalid endorsement policy format: " ++ policy)
      else
        let orgs := map trim (split "," orgsStr) in
        let upper := toUpperCase type in
        if String.eqb upper "ANY" then Ok {| policy_type := "ANY"; policy_orgs := orgs |}
        else if String.eqb upper "ALL" then
          Ok {| policy_type := "ALL"; policy_orgs := orgs |}
        else if String.eqb upper "MAJORITY" then
          Ok {| policy_type := "MAJORITY"; policy_orgs := orgs |}
        else Throw ("Error: Unknown endorsement policy type: " ++ type)
  | _ => Throw ("Error: Invalid endorsement policy format: " ++ policy)
  end.

(** ** Definitions used to state the further properties *)

(** The identities of a configuration, in the order of the organizations
    and of their lists. *)
Definition allIdentities (config : NetworkMSPConfig) : list Identity :=
  concat (map identities (config_orgs config)).

(** The parts of [prune]: a property, and an array element. *)
Definition pruneMember (p : string * JSON.value) : option (string * JSON.value) :=
  match snd p with
  | JSON.Undefined => None
  | x => Some (fst p, prune x)
  end.

Definition pruneElement (e : JSON.value) : JSON.value :=
  match e with
  | JSON.Undefined => JSON.Null
  | _ => prune e
  end.

(** The text of a member of an object under the serialization [f], if it
    has one. *)
Definition memberText (f : JSON.value -> option string) (p : string * JSON.value)
  : option string :=
  (fun s => JSON.QuoteJSONString (fst p) ++ ":" ++ s) <$> f (snd p).

(** The sorted keys of the object a client signs for an envelope. *)
Definition txDataKeys : list string :=
  ["creatorId"; "creatorOrgId"; "creatorPubKey"; "endorsements"; "payload";
   "result"; "rwSet"; "txId"].

(** Every read holds the version its key has in [ws]. *)
Definition readsCurrent (ws : WorldStateStore) (reads : list ReadVersion) : Prop :=
  Forall (fun r => getVersion ws (read_key r) = Ok (read_version r)) reads.

(** The keys and payloads of the token chaincode. *)
Definition balanceKey (account : string) : string := "balance:" ++ account.

Definition transferPayload (id from to amount : string) (policy : option EndorsementPolicy)
  : TxPayload :=
  {| payload_type := INVOKE_CHAINCODE; chaincodeId := id;
     functionName := Some "transfer"; args := Some [from; to; amount];
     endorsementPolicy := policy |}.

(** What holds of a Solo module between events: the timer is armed exactly
    when a transaction is pending. *)
Definition soloInvariant (c : SoloConsensus) : Prop :=
  blockTimer c = negb (List.length (pendingTxs c) =? 0)%nat.

(** A block as Solo makes them from the state [c]. *)
Definition soloBlock (c : SoloConsensus) (b : Block) : Prop :=
  number (header b) = blockNumber c
  /\ transactions b = pendingTxs c
  /\ transactions b <> []
  /\ previousHash (header b) = "0"
  /\ dataHash (header b) = JSON.join "|" (map txId (transactions b))
  /\ ordererId (metadata b) = nodeId c
  /\ ordererSignature (metadata b) = ""
  /\ validationInfo (metadata b) = None.

(** The sorted keys of the object an orderer signs for a block. *)
Definition blockDataKeys : list string := ["header"; "metadata"; "transactions"].

(** What holds of a block cutter between events: fewer transactions are
    pending than a block may hold, and the timer is armed exactly when one
    is pending. *)
Definition cutterInvariant (c : BlockCutter) : Prop :=
  (List.length (cutter_pendingTxs c) < maxBlockSize)%nat
  /\ batchTimer c = negb (List.length (cutter_pendingTxs c) =? 0)%nat.

(** A block as the block cutter makes them. *)
Definition cutterBlock (b : Block) : Prop :=
  (0 < List.length (transactions b) <= maxBlockSize)%nat
  /\ number (header b) = 0
  /\ previousHash (header b) = "0"
  /\ ordererId (metadata b) = "orderer1"
  /\ ordererSignature (metadata b) = "".

(** The order of [sort] on strings, as a relation. *)
Definition sortsBefore (a b : string) : Prop := String.leb a b = true.

(** [c] does not occur in [s]. *)
Fixpoint lacks (c : ascii) (s : string) : bool :=
  match s with
  | EmptyString => true
  | String c' s' => negb (Ascii.eqb c' c) && lacks c s'
  end.

(** An organization name as it can be given on the command line: no comma,
    no colon, no white space at either end. *)
Definition orgName (s : string) : Prop :=
  lacks "," s = true /\ lacks ":" s = true /\ trim s = s.

(** What holds of a Raft node between events: fewer transactions are
    pending than a block may hold, the block timer is armed exactly when one
    is pending, and a leader holds a quorum of votes. *)
Definition raftInvariant (c : RaftConsensus) : Prop :=
  (List.length (raft_pendingTxs c) < blockSize)%nat
  /\ raft_blockTimer c = negb (List.length (raft_pendingTxs c) =? 0)%nat
  /\ (isLeader c = true -> (quorum c <= List.length (votes c))%nat).

(** A block as a Raft node makes them from the state [c]. *)
Definition raftBlock (c : RaftConsensus) (b : Block) : Prop :=
  number (header b) = raft_blockNumber c
  /\ (0 < List.length (transactions b) <= blockSize)%nat
  /\ previousHash (header b) = "0"
  /\ ordererId (metadata b) = raft_nodeId c
  /\ ordererSignature (metadata b) = "".

(** The part of the state that ordering works on, and the part that
    elections work on. *)
Definition orderingState (c : RaftConsensus)
  : string * list TransactionEnvelope * list TransactionEnvelope * Z * bool :=
  (raft_nodeId c, log c, raft_pendingTxs c, raft_blockNumber c, raft_blockTimer c).

Definition electionState (c : RaftConsensus) : list string * bool * list string * Z :=
  (clusterNodes c, isLeader c, votes c, term c).

(** An event that brings a vote. *)
Definition bringsVote (e : RaftEvent) : bool :=
  match e with
  | RaftVoteGranted _ | RaftReceiveVote _ _ => true
  | _ => false
  end.

(** An election step: ordering is untouched, the term does not go down and
    a node that is leader afterwards holds a quorum of votes. *)
Definition electionStep (c c' : RaftConsensus) : Prop :=
  orderingState c' = orderingState c
  /\ clusterNodes c' = clusterNodes c
  /\ term c <= term c'
  /\ ((isLeader c = true -> (quorum c <= List.length (votes c))%nat) ->
      isLeader c' = true -> (quorum c' <= List.length (votes c'))%nat).

Definition mintPayload (id amount recipient : string) (policy : option EndorsementPolicy)
  : TxPayload :=
  {| payload_type := INVOKE_CHAINCODE; chaincodeId := id;
     functionName := Some "mint"; args := Some [amount; recipient];
     endorsementPolicy := policy |}.

(** The block as the commit loop has seen it after [k] iterations: the
    first [k] transactions under the same header. *)
Definition truncated (block : Block) (k : nat) : Block :=
  {| header := header block;
     transactions := take k (transactions block);
     metadata := metadata block |}.

(** [tx] is the transaction at index [j] of the block and the entry of
    [infos] at that index has the code [VALID]. *)
Definition validAt (block : Block) (infos : list TxValidationInfo) (j : nat)
           (tx : TransactionEnvelope) : Prop :=
  transactions block !! j = Some tx
  /\ exists info, infos !! j = Some info /\ code info = VALID.

Definition writesKey (tx : TransactionEnvelope) (key : string) : Prop :=
  exists w, w ∈ writes (rwSet tx) /\ write_key w = key.

(** [tx] is a deploy, whose metadata the committer stores under [key]. *)
Definition deploysKey (tx : TransactionEnvelope) (key : string) : Prop :=
  payload_type (payload tx) = DEPLOY_CHAINCODE
  /\ metadataKey (chaincodeId (payload tx)) = key.

(** [w] is the entry of the write set of [tx] that comes last for its key. *)
Definition lastWrite (tx : TransactionEnvelope) (w : WriteEntry) : Prop :=
  exists before after,
    writes (rwSet tx) = (before ++ w :: after)%list
    /\ forall w', w' ∈ after -> write_key w' <> write_key w.

(** What is read from the world state [after] when, starting from [before],
    the write sets of the transactions recorded [VALID] among the first [k]
    of the block have been applied in block order, each with [txNum] its
    index, and those of the others have not:
    - a key written by the [VALID] transaction [j < k] and by no [VALID]
      transaction between [j] and [k] carries the version
      [{blockNum, txNum := j}], and holds the value of the last write of
      transaction [j] for it unless a [VALID] deploy from [j] on stored
      its metadata there;
    - a key that no [VALID] transaction below [k] writes has the version it
      had, and the value it had unless a [VALID] deploy stored its metadata
      there. *)
Definition appliedUpTo (block : Block) (infos : list TxValidationInfo) (k : nat)
           (before after : WorldStateStore) : Prop :=
  (forall j tx w,
     (j < k)%nat -> validAt block infos j tx -> lastWrite tx w ->
     (forall j' tx', (j < j' < k)%nat -> validAt block infos j' tx' ->
                     ~ writesKey tx' (write_key w)) ->
     getVersion after (write_key w)
     = Ok (Some {| blockNum := number (header block); txNum := Z.of_nat j |})
     /\ ((forall j' tx', (j <= j' < k)%nat -> validAt block infos j' tx' ->
                         ~ deploysKey tx' (write_key w)) ->
         getState after (write_key w) = write_value w))
  /\ (forall key,
        (forall j tx, (j < k)%nat -> validAt block infos j tx -> ~ writesKey tx key) ->
        getVersion after key = getVersion before key
        /\ ((forall j tx, (j < k)%nat -> validAt block infos j tx ->
                          ~ deploysKey tx key) ->
            getState after key = getState before key)).

(** ** Sample data for the further properties *)
Module Samples.

(** A write set that writes one key twice and deletes another. *)
Definition overwriteSet : RWSet :=
  {| reads := [];
     writes := [{| write_key := "balance:Alice"; write_value := Some "300" |};
                {| write_key := "balance:Bob"; write_value := None |};
                {| write_key := "balance:Alice"; write_value := Some "250" |}] |}.

(** A read set recorded on [Scenario.world]. *)
Definition readsOfWorld : list ReadVersion :=
  [{| read_key := "balance:Bob"; read_version := None |};
   {| read_key := "balance:Alice";
      read_version := Some {| blockNum := 2; txNum := 0 |} |}].

Definition readsOfCarol : list ReadVersion :=
  [{| read_key := "balance:Carol"; read_version := None |}].

(** A deploy of [basic] with a policy, and its envelope. *)
Definition deployPayload : TxPayload :=
  {| payload_type := DEPLOY_CHAINCODE; chaincodeId := "basic";
     functionName := None; args := Some [];
     endorsementPolicy := Some {| policy_type := "ALL"; policy_orgs := ["Org1"; "Org2"] |} |}.

Definition deployBasic : TransactionEnvelope :=
  Scenario.envelope "txd" deployPayload
    {| reads := [];
       writes := [{| write_key := "totalSupply"; write_value := Some "0" |}] |}
    (Some "Initialized with zero supply") [("Org1Peer", "Org1")].

(** The first transfer of the scenario with other arguments and another
    write set under the same signatures. *)
Definition rewritten : TransactionEnvelope :=
  {| txId := txId Scenario.tx0;
     creatorId := creatorId Scenario.tx0;
     creatorOrgId := creatorOrgId Scenario.tx0;
     creatorPubKey := creatorPubKey Scenario.tx0;
     payload := Scenario.transfer "1000000";
     rwSet := {| reads := reads (rwSet Scenario.tx0);
                 writes := [{| write_key := "balance:Alice"; write_value := Some "0" |};
                            {| write_key := "balance:Mallory";
                               write_value := Some "1000000" |}] |};
     result := result Scenario.tx0;
     endorsements := endorsements Scenario.tx0;
     clientSignature := clientSignature Scenario.tx0 |}.

(** A chaincode host with [basic] installed, over the world state of the
    scenario. *)
Definition host : ChaincodeHost :=
  registerChaincode {| chaincodes := ∅; host_worldState := Scenario.world |}
                    "basic" Token.chaincode.

(** The client and the endorsing peer of [Org1], with the stand-in signing
    of the scenario. *)
Definition signer : Signer := {| sign := Scenario.sign |}.

Definition client : LitefabClient :=
  {| client_clientId := "Org1Client"; client_clientOrgId := "Org1";
     client_clientPubKey := "K-Org1Client"; client_clientPrivateKey := "K-Org1Client" |}.

Definition endorser : Endorser :=
  {| endorser_msp := Scenario.msp; chaincodeHost := host;
     chaincodeMetadataStore := Scenario.world;
     peerId := "Org1Peer"; peerPrivateKey := "K-Org1Peer" |}.

(** A transfer proposed, endorsed and wrapped. *)
Definition proposal : Proposal :=
  {| proposal_txId := "tx9"; proposal_creatorId := "Org1Client";
     proposal_creatorOrgId := "Org1"; proposal_creatorPubKey := "K-Org1Client";
     proposal_payload := Scenario.transfer "100";
     proposal_signature :=
       Scenario.sign
         (Scenario.text
            (canonicalStringify
               (proposalData "tx9" "Org1Client" "Org1" "K-Org1Client"
                             (Scenario.transfer "100"))))
         "K-Org1Client" |}.

Definition response : ProposalResponse :=
  {| response_proposal := proposal;
     response_rwSet := Scenario.transferSet "300" "100";
     response_result := Some "Transferred 100 tokens from Alice to Bob";
     response_endorsement :=
       {| endorserId := "Org1Peer"; endorserOrgId := "Org1";
          signature :=
            Scenario.sign
              (Scenario.text
                 (canonicalStringify
                    (JSON.Object
                       [("proposal",
                         JSON.Object [("txId", JSON.Str "tx9");
                                      ("payload",
                                       ToJSON.txPayload (Scenario.transfer "100"))]);
                        ("rwSet", ToJSON.rwset (Scenario.transferSet "300" "100"));
                        ("result",
                         JSON.Str "Transferred 100 tokens from Alice to Bob")])))
              "K-Org1Peer" |} |}.

Definition endorsedTx : TransactionEnvelope :=
  let tx clientSignature :=
    {| txId := "tx9"; creatorId := "Org1Client"; creatorOrgId := "Org1";
       creatorPubKey := "K-Org1Client"; payload := Scenario.transfer "100";
       rwSet := Scenario.transferSet "300" "100";
       result := Some "Transferred 100 tokens from Alice to Bob";
       endorsements := [response_endorsement response];
       clientSignature := clientSignature |} in
  tx (Scenario.sign (Scenario.text (canonicalStringify (txData (tx "")))) "K-Org1Client").

(** A network that registers the orderer, and a second block with as many
    transactions as the first block of the Solo scenario. *)
Definition ordererConfig : NetworkMSPConfig :=
  {| config_orgs :=
       config_orgs Scenario.config
       ++ [ {| org_orgId := "OrdererOrg"; rootPublicKeys := [];
               identities := [Scenario.identityOf "orderer1" "OrdererOrg" ORDERER] |} ] |}.

Definition ordererMsp : MSP := MSP_initialize ordererConfig.

Definition otherBlock : Block :=
  {| header := {| number := 7; previousHash := "ff"; dataHash := "tx1" |};
     transactions := [Scenario.tx1];
     metadata := {| timestamp := "2030-01-01T00:00:00.000Z"; ordererId := "orderer1";
                    ordererSignature := ""; validationInfo := None |} |}.

(** The properties of one object, written in two orders. *)
Definition written : list (string * JSON.value) :=
  [("txId", JSON.Str "tx1"); ("creatorId", JSON.Str "Org1Client");
   ("result", JSON.Null)].

Definition rewrittenOrder : list (string * JSON.value) :=
  [("result", JSON.Null); ("txId", JSON.Str "tx1");
   ("creatorId", JSON.Str "Org1Client")].

(** A write set that replaces the metadata of [basic], and one that
    deletes it. *)
Definition policyWrite : RWSet :=
  {| reads := [];
     writes := [{| write_key := "CHAINCODE:basic";
                   write_value :=
                     Some (stringified
                             (chaincodeMetadata "basic" "6.6"
                                {| policy_type := "ANY"; policy_orgs := ["Org9"] |}
                                "2030-01-01T00:00:00.000Z")) |}] |}.

End Samples.

(** * Properties *)

(** ** Strings and store keys *)

Lemma append_inj_l (p a b : string) : p ++ a = p ++ b -> a = b.
Proof.
  induction p as [|c p IH]; simpl; [done|].
  intros Heq. apply IH. congruence.
Qed.

Lemma append_assoc (a b c : string) : (a ++ b) ++ c = a ++ (b ++ c).
Proof. induction a as [|x a IH]; simpl; [done|]. by rewrite IH. Qed.

Lemma stateKey_inj ws k k' : stateKey ws k = stateKey ws k' -> k = k'.
Proof.
  unfold stateKey. intros Heq.
  apply append_inj_l in Heq. apply append_inj_l in Heq.
  by apply append_inj_l in Heq.
Qed.

Lemma versionKey_inj ws k k' : versionKey ws k = versionKey ws k' -> k = k'.
Proof.
  unfold versionKey. intros Heq.
  apply append_inj_l in Heq. apply append_inj_l in Heq.
  by apply append_inj_l in Heq.
Qed.

Lemma stateKey_versionKey ws ws' k k' : stateKey ws k <> versionKey ws' k'.
Proof. unfold stateKey, versionKey. simpl. congruence. Qed.

(** ** Numerals *)

Lemma readDigits_uint (u : Decimal.uint) (rest : string) :
  JSON.numberEnds rest = true ->
  JSON.readDigits (NilEmpty.string_of_uint u ++ rest)
  = (NilEmpty.string_of_uint u, rest).
Proof.
  intros Hend.
  induction u; simpl; try (rewrite IHu; reflexivity).
  destruct rest as [|c r]; [done|]. simpl in *.
  destruct (JSON.isDigit c); [done|reflexivity].
Qed.

Lemma to_uint_head (p : positive) :
  exists c r, NilEmpty.string_of_uint (Pos.to_uint p) = String c r
              /\ JSON.isDigit c = true
              /\ (Ascii.eqb c "0" && negb (String.eqb r "") = false)
              /\ Ascii.eqb c "-" = false.
Proof.
  pose proof (DecimalPos.Unsigned.to_uint_nonzero p) as Hnz.
  pose proof (DecimalPos.Unsigned.to_of (Pos.to_uint p)) as Hnorm.
  rewrite DecimalPos.Unsigned.of_to in Hnorm. simpl in Hnorm.
  destruct (Pos.to_uint p) as [|u|u|u|u|u|u|u|u|u|u] eqn:Hu;
    try (simpl; eexists _, _; repeat split; reflexivity).
  - by destruct (DecimalPos.Unsigned.to_uint_nonnil p).
  - exfalso. rewrite DecimalFacts.unorm_D0 in Hnorm.
    unfold Decimal.unorm in Hnorm.
    pose proof (DecimalFacts.nb_digits_nzhead u) as Hlen.
    destruct (Decimal.nzhead u) eqn:Hh.
    + exact (Hnz Hnorm).
    + rewrite <- Hnorm in Hlen. simpl in Hlen. lia.
    + rewrite <- Hnorm in Hlen. simpl in Hlen. lia.
    + rewrite <- Hnorm in Hlen. simpl in Hlen. lia.
    + rewrite <- Hnorm in Hlen. simpl in Hlen. lia.
    + rewrite <- Hnorm in Hlen. simpl in Hlen. lia.
    + rewrite <- Hnorm in Hlen. simpl in Hlen. lia.
    + rewrite <- Hnorm in Hlen. simpl in Hlen. lia.
    + rewrite <- Hnorm in Hlen. simpl in Hlen. lia.
    + rewrite <- Hnorm in Hlen. simpl in Hlen. lia.
    + rewrite <- Hnorm in Hlen. simpl in Hlen. lia.
Qed.

Ltac ascii_cases c := destruct c as [[|] [|] [|] [|] [|] [|] [|] [|]].

Lemma numberEnds_noFraction rest :
  JSON.numberEnds rest = true -> JSON.startsFraction rest = false.
Proof.
  destruct rest as [|c r]; [done|]. unfold JSON.numberEnds. cbn [JSON.numberEnds].
  intros [_ Hf]%andb_prop. by apply negb_true_iff in Hf.
Qed.

Lemma parseNumber_uint (u : Decimal.uint) (c : ascii) (r rest : string) :
  NilEmpty.string_of_uint u = String c r ->
  Ascii.eqb c "0" && negb (String.eqb r "") = false ->
  Ascii.eqb c "-" = false ->
  JSON.numberEnds rest = true ->
  JSON.parseNumber (NilEmpty.string_of_uint u ++ rest) = Ok (Z.of_uint u, rest).
Proof.
  intros Hs Hzero Hminus Hend.
  pose proof (readDigits_uint u rest Hend) as Hrd.
  pose proof (NilEmpty.usu u) as Husu.
  rewrite Hs in Hrd, Husu |- *.
  change (String c r ++ rest) with (String c (r ++ rest)) in *.
  unfold JSON.parseNumber. rewrite Hminus, Hrd, Hzero.
  rewrite (numberEnds_noFraction _ Hend). by rewrite Husu.
Qed.

Lemma parseNumber_negative (u : Decimal.uint) (c : ascii) (r rest : string) :
  NilEmpty.string_of_uint u = String c r ->
  Ascii.eqb c "0" && negb (String.eqb r "") = false ->
  JSON.numberEnds rest = true ->
  JSON.parseNumber (String "-" (NilEmpty.string_of_uint u ++ rest))
  = Ok (- Z.of_uint u, rest).
Proof.
  intros Hs Hzero Hend.
  pose proof (readDigits_uint u rest Hend) as Hrd.
  pose proof (NilEmpty.usu u) as Husu.
  rewrite Hs in Hrd, Husu |- *.
  change (String c r ++ rest) with (String c (r ++ rest)) in *.
  unfold JSON.parseNumber.
  change (Ascii.eqb "-" "-") with true. cbv iota.
  rewrite Hrd, Hzero.
  rewrite (numberEnds_noFraction _ Hend). by rewrite Husu.
Qed.

Lemma Z_of_uint_to_uint (p : positive) : Z.of_uint (Pos.to_uint p) = Z.pos p.
Proof. unfold Z.of_uint. by rewrite DecimalPos.Unsigned.of_to. Qed.

Lemma NilZero_to_uint (p : positive) :
  NilZero.string_of_uint (Pos.to_uint p) = NilEmpty.string_of_uint (Pos.to_uint p).
Proof.
  unfold NilZero.string_of_uint.
  destruct (Pos.to_uint p) eqn:Hu; try reflexivity.
  by destruct (DecimalPos.Unsigned.to_uint_nonnil p).
Qed.

(** A numeral printed by [Number.prototype.toString] is read back. *)
Lemma parseNumber_toString (z : Z) (rest : string) :
  JSON.numberEnds rest = true ->
  JSON.parseNumber (JSON.Number_toString z ++ rest) = Ok (z, rest).
Proof.
  intros Hend. unfold JSON.Number_toString. destruct z as [|p|p]; simpl Z.to_int.
  - apply (parseNumber_uint (Decimal.D0 Decimal.Nil) "0" "" rest); done.
  - unfold NilZero.string_of_int. rewrite NilZero_to_uint.
    destruct (to_uint_head p) as (c & r & Hs & _ & Hzero & Hminus).
    rewrite (parseNumber_uint _ c r rest Hs Hzero Hminus Hend).
    by rewrite Z_of_uint_to_uint.
  - unfold NilZero.string_of_int. rewrite NilZero_to_uint.
    destruct (to_uint_head p) as (c & r & Hs & _ & Hzero & _).
    simpl. rewrite (parseNumber_negative _ c r rest Hs Hzero Hend).
    by rewrite Z_of_uint_to_uint.
Qed.

(** The first character of a printed numeral: a digit or the minus sign. *)
Lemma Number_toString_head (z : Z) :
  exists c r, JSON.Number_toString z = String c r
              /\ (Ascii.eqb c "-" || JSON.isDigit c = true).
Proof.
  unfold JSON.Number_toString. destruct z as [|p|p]; simpl Z.to_int.
  - by exists "0"%char, "".
  - unfold NilZero.string_of_int. rewrite NilZero_to_uint.
    destruct (to_uint_head p) as (c & r & Hs & Hd & _ & _).
    exists c, r. split; [done|]. rewrite Hd. apply orb_true_r.
  - unfold NilZero.string_of_int. rewrite NilZero_to_uint.
    by eexists "-"%char, _.
Qed.

Lemma numeral_head_tokens (c : ascii) :
  Ascii.eqb c "-" || JSON.isDigit c = true ->
  JSON.isWS c = false /\ Ascii.eqb c "{" = false /\ Ascii.eqb c "[" = false
  /\ Ascii.eqb c JSON.dquote = false /\ Ascii.eqb c "t" = false
  /\ Ascii.eqb c "f" = false /\ Ascii.eqb c "n" = false.
Proof. ascii_cases c; intros Hc; try discriminate Hc; repeat split. Qed.

Lemma parseValue_number (fuel : nat) (z : Z) (rest : string) :
  JSON.numberEnds rest = true ->
  JSON.parseValue (S fuel) (JSON.Number_toString z ++ rest) = Ok (JSON.Number z, rest).
Proof.
  intros Hend.
  pose proof (parseNumber_toString z rest Hend) as Hnum.
  destruct (Number_toString_head z) as (c & r & Hs & Hc).
  rewrite Hs in Hnum |- *. simpl in Hnum |- *.
  destruct (numeral_head_tokens c Hc) as (-> & -> & -> & -> & -> & -> & ->).
  rewrite Hc. by rewrite Hnum.
Qed.

(** ** String literals *)

Lemma hex_escape (c : ascii) :
  (N_of_ascii c <? 32)%N = true ->
  JSON.hex4 "0" "0" (JSON.hexDigit (N_of_ascii c / 16))
            (JSON.hexDigit (N_of_ascii c mod 16)) = Some (N_of_ascii c).
Proof. ascii_cases c; intros Hc; try discriminate Hc; reflexivity. Qed.

Lemma parseStringBody_char (c : ascii) (tail : string) :
  JSON.parseStringBody (JSON.QuoteJSONChar c ++ tail)
  = bindE (JSON.parseStringBody tail) (fun p => Ok (String c (fst p), snd p)).
Proof.
  unfold JSON.QuoteJSONChar.
  destruct (Ascii.eqb c JSON.dquote) eqn:E1.
  { apply Ascii.eqb_eq in E1 as ->. cbn. by destruct (JSON.parseStringBody tail) as [[]|]. }
  destruct (Ascii.eqb c JSON.backslash) eqn:E2.
  { apply Ascii.eqb_eq in E2 as ->. cbn. by destruct (JSON.parseStringBody tail) as [[]|]. }
  destruct (Ascii.eqb c "008") eqn:E3.
  { apply Ascii.eqb_eq in E3 as ->. cbn. by destruct (JSON.parseStringBody tail) as [[]|]. }
  destruct (Ascii.eqb c "012") eqn:E4.
  { apply Ascii.eqb_eq in E4 as ->. cbn. by destruct (JSON.parseStringBody tail) as [[]|]. }
  destruct (Ascii.eqb c "010") eqn:E5.
  { apply Ascii.eqb_eq in E5 as ->. cbn. by destruct (JSON.parseStringBody tail) as [[]|]. }
  destruct (Ascii.eqb c "013") eqn:E6.
  { apply Ascii.eqb_eq in E6 as ->. cbn. by destruct (JSON.parseStringBody tail) as [[]|]. }
  destruct (Ascii.eqb c "009") eqn:E7.
  { apply Ascii.eqb_eq in E7 as ->. cbn. by destruct (JSON.parseStringBody tail) as [[]|]. }
  destruct (N_of_ascii c <? 32)%N eqn:E8.
  - cbn -[JSON.hex4 N.ltb]. rewrite (hex_escape c E8).
    assert ((N_of_ascii c <? 128)%N = true) as ->.
    { apply N.ltb_lt. apply N.ltb_lt in E8. lia. }
    rewrite ascii_N_embedding.
    by destruct (JSON.parseStringBody tail) as [[]|].
  - cbn -[N.ltb]. rewrite E1, E2, E8.
    by destruct (JSON.parseStringBody tail) as [[]|].
Qed.

Lemma parseStringBody_quote (s rest : string) :
  JSON.parseStringBody (JSON.QuoteJSONBody s ++ String JSON.dquote rest) = Ok (s, rest).
Proof.
  induction s as [|c s IH]; [reflexivity|].
  cbn [JSON.QuoteJSONBody]. rewrite append_assoc, parseStringBody_char.
  by rewrite IH.
Qed.

Lemma parseStringBody_QuoteJSONString (s rest : string) :
  exists body,
    JSON.QuoteJSONString s ++ rest = String JSON.dquote body
    /\ JSON.parseStringBody body = Ok (s, rest).
Proof.
  exists (JSON.QuoteJSONBody s ++ String JSON.dquote rest). split.
  - unfold JSON.QuoteJSONString. cbn. by rewrite append_assoc.
  - apply parseStringBody_quote.
Qed.

(** ** [JSON.parse] after [JSON.stringify] *)

Lemma value_nested_ind (P : JSON.value -> Prop) :
  P JSON.Undefined -> P JSON.Null -> (forall b, P (JSON.Bool b)) ->
  (forall z, P (JSON.Number z)) -> (forall s, P (JSON.Str s)) ->
  (forall l, Forall P l -> P (JSON.Array l)) ->
  (forall ps, Forall (fun p => P (snd p)) ps -> P (JSON.Object ps)) ->
  forall v, P v.
Proof.
  intros HU HN HB HZ HS HA HO.
  fix IH 1. intros [| |b|z|s|l|ps].
  - exact HU.
  - exact HN.
  - apply HB.
  - apply HZ.
  - apply HS.
  - apply HA. induction l as [|e l IHl]; constructor; [apply IH|exact IHl].
  - apply HO. induction ps as [|[k e] ps IHps]; constructor; [apply IH|exact IHps].
Qed.

Lemma text_Array (l : list JSON.value) :
  JSON.text (JSON.Array l) = "[" ++ JSON.join "," (map JSON.text l) ++ "]".
Proof. reflexivity. Qed.

Lemma serializeGet_lookup (pre suf : list (string * JSON.value)) k v :
  k ∉ map fst pre ->
  JSON.serializeGet (JSON.SerializeJSONProperty None) (pre ++ (k, v) :: suf) k
  = JSON.SerializeJSONProperty None v.
Proof.
  induction pre as [|[k' v'] pre IH]; simpl; intros Hk.
  - by rewrite String.eqb_refl.
  - apply not_elem_of_cons in Hk as [Hne Hk].
    destruct (String.eqb_spec k' k) as [->|_]; [done|]. by apply IH.
Qed.

Lemma serializeMembers_own (pre suf : list (string * JSON.value)) :
  NoDup (map fst (pre ++ suf)) ->
  forallb (fun p => JSON.printable (snd p)) suf = true ->
  JSON.serializeMembers (JSON.SerializeJSONProperty None) (pre ++ suf) (map fst suf)
  = map (fun p => JSON.QuoteJSONString (fst p) ++ ":" ++ JSON.text (snd p)) suf.
Proof.
  revert pre. induction suf as [|[k v] suf IH]; intros pre Hnd Hp; [done|].
  simpl in Hp. apply andb_prop in Hp as [Hv Hp].
  cbn [map fst JSON.serializeMembers].
  rewrite serializeGet_lookup.
  2:{ rewrite map_app in Hnd. apply NoDup_app in Hnd as (_ & Hd & _).
      intros Hin. apply (Hd k Hin). simpl. left. }
  unfold JSON.text at 1. cbn [snd fst].
  destruct (JSON.SerializeJSONProperty None v) as [s|] eqn:Hs.
  - cbn [default]. f_equal.
    specialize (IH (pre ++ [(k, v)])%list). rewrite <- app_assoc in IH. by apply IH.
  - destruct v as [| |[]| | | |]; (discriminate Hs || discriminate Hv).
Qed.

Lemma text_Object (ps : list (string * JSON.value)) :
  JSON.printable (JSON.Object ps) = true ->
  JSON.text (JSON.Object ps)
  = "{" ++ JSON.join "," (map (fun p => JSON.QuoteJSONString (fst p) ++ ":"
                                         ++ JSON.text (snd p)) ps) ++ "}".
Proof.
  cbn [JSON.printable]. intros [Hnd Hp]%andb_prop. apply bool_decide_eq_true in Hnd.
  unfold JSON.text at 1. cbn [JSON.SerializeJSONProperty default].
  by rewrite (serializeMembers_own [] ps Hnd Hp
              : JSON.serializeMembers _ ps _ = _).
Qed.

Lemma text_head (v : JSON.value) :
  JSON.printable v = true ->
  exists c r, JSON.text v = String c r /\ JSON.isWS c = false
              /\ Ascii.eqb c "]" = false /\ Ascii.eqb c "}" = false.
Proof.
  destruct v as [| |[]|z|s|l|ps]; intros Hp; try discriminate Hp;
    try (by eexists _, _).
  destruct (Number_toString_head z) as (c & r & Hs & Hc).
  exists c, r. split; [exact Hs|].
  clear Hs. ascii_cases c; try discriminate Hc; repeat split.
Qed.

Lemma parseElements_eq (fuel : nat) (s : string) :
  JSON.parseElements (S fuel) s
  = bindE (JSON.parseValue fuel s) (fun p =>
      match JSON.skipWS (snd p) with
      | EmptyString => Throw "SyntaxError: unexpected end of JSON input"
      | String c r' =>
          if Ascii.eqb c "," then
            bindE (JSON.parseElements fuel r') (fun q => Ok (fst p :: fst q, snd q))
          else if Ascii.eqb c "]" then Ok ([fst p], r')
          else Throw "SyntaxError: unexpected token"
      end).
Proof.
  cbn [JSON.parseElements]. destruct (JSON.parseValue fuel s) as [[v r]|e]; [|done].
  cbn [bindE fst snd]. destruct (JSON.skipWS r) as [|c r']; [done|].
  destruct (Ascii.eqb c ","); [|done].
  by destruct (JSON.parseElements fuel r') as [[]|].
Qed.

Lemma parseMembers_eq (fuel : nat) (k : string) (s : string) :
  JSON.parseMembers (S fuel) (JSON.QuoteJSONString k ++ String ":" s)
  = bindE (JSON.parseValue fuel s) (fun p =>
      match JSON.skipWS (snd p) with
      | EmptyString => Throw "SyntaxError: unexpected end of JSON input"
      | String c r' =>
          if Ascii.eqb c "," then
            bindE (JSON.parseMembers fuel r') (fun q => Ok ((k, fst p) :: fst q, snd q))
          else if Ascii.eqb c "}" then Ok ([(k, fst p)], r')
          else Throw "SyntaxError: unexpected token"
      end).
Proof.
  destruct (parseStringBody_QuoteJSONString k (String ":" s)) as (body & Hq & Hbody).
  rewrite Hq. cbn [JSON.parseMembers JSON.skipWS]. 
  change (JSON.isWS JSON.dquote) with false. cbv iota.
  change (Ascii.eqb JSON.dquote JSON.dquote) with true. cbv iota.
  rewrite Hbody. cbn [bindE JSON.skipWS].
  change (JSON.isWS ":") with false. cbv iota.
  change (Ascii.eqb ":" ":") with true. cbv iota.
  destruct (JSON.parseValue fuel s) as [[v r]|e]; [|done].
  cbn [bindE fst snd]. destruct (JSON.skipWS r) as [|c r']; [done|].
  destruct (Ascii.eqb c ","); [|done].
  by destruct (JSON.parseMembers fuel r') as [[]|].
Qed.

Lemma join_cons (sep x y : string) (l : list string) :
  JSON.join sep (x :: y :: l) = x ++ sep ++ JSON.join sep (y :: l).
Proof. reflexivity. Qed.

Lemma parseElements_text (l : list JSON.value) :
  l <> [] -> Forall JSON.readsBack l -> forallb JSON.printable l = true ->
  forall fuel rest,
    (list_sum (map (fun e => S (JSON.cost e)) l) <= fuel)%nat ->
    JSON.parseElements fuel (JSON.join "," (map JSON.text l) ++ String "]" rest)
    = Ok (l, rest).
Proof.
  induction l as [|e l IHl]; [done|]. intros _ Hrb Hp fuel rest Hfuel.
  apply Forall_cons in Hrb as [He Hrb].
  cbn [forallb] in Hp. apply andb_prop in Hp as [Hpe Hp].
  cbn [map list_sum fold_right] in Hfuel.
  destruct fuel as [|fuel]; [lia|]. rewrite parseElements_eq.
  destruct l as [|e2 l].
  - cbn [map JSON.join].
    rewrite (He Hpe fuel (String "]" rest)); [done|lia|done].
  - cbn [map]. rewrite join_cons, !append_assoc.
    change ("," ++ ?x) with (String "," x).
    rewrite (He Hpe fuel); [|cbn [map list_sum fold_right] in Hfuel; lia|done].
    cbn [bindE snd fst JSON.skipWS].
    change (JSON.isWS ",") with false. cbv iota.
    change (Ascii.eqb "," ",") with true. cbv iota.
    change (JSON.text e2 :: map JSON.text l) with (map JSON.text (e2 :: l)).
    rewrite IHl; [done|done|done|done|]. cbn [map list_sum fold_right] in Hfuel |- *. lia.
Qed.

Lemma parseMembers_text (ps : list (string * JSON.value)) :
  ps <> [] -> Forall (fun p => JSON.readsBack (snd p)) ps ->
  forallb (fun p => JSON.printable (snd p)) ps = true ->
  forall fuel rest,
    (list_sum (map (fun p => S (JSON.cost (snd p))) ps) <= fuel)%nat ->
    JSON.parseMembers fuel (JSON.join "," (map JSON.member ps) ++ String "}" rest)
    = Ok (ps, rest).
Proof.
  induction ps as [|[k v] ps IHps]; [done|]. intros _ Hrb Hp fuel rest Hfuel.
  apply Forall_cons in Hrb as [Hv Hrb].
  cbn [forallb snd] in Hp. apply andb_prop in Hp as [Hpv Hp].
  cbn [map list_sum fold_right snd] in Hfuel. cbn [snd] in Hv.
  destruct fuel as [|fuel]; [lia|].
  destruct ps as [|p2 ps].
  - cbn [map JSON.join]. unfold JSON.member at 1. cbn [fst snd].
    rewrite !append_assoc. change (":" ++ ?x) with (String ":" x).
    rewrite parseMembers_eq.
    rewrite (Hv Hpv fuel (String "}" rest)); [done|lia|done].
  - cbn [map]. rewrite join_cons. unfold JSON.member at 1. cbn [fst snd].
    rewrite !append_assoc.
    change (":" ++ ?x) with (String ":" x). change ("," ++ ?x) with (String "," x).
    rewrite parseMembers_eq.
    rewrite (Hv Hpv fuel); [|cbn [map list_sum fold_right] in Hfuel; lia|done].
    cbn [bindE snd fst JSON.skipWS].
    change (JSON.isWS ",") with false. cbv iota.
    change (Ascii.eqb "," ",") with true. cbv iota.
    change (JSON.member p2 :: map JSON.member ps) with (map JSON.member (p2 :: ps)).
    rewrite IHps; [done|done|done|done|]. cbn [map list_sum fold_right] in Hfuel |- *. lia.
Qed.

Lemma defineProperty_fresh (props : list (string * JSON.value)) k v :
  k ∉ map fst props -> JSON.defineProperty props (k, v) = (props ++ [(k, v)])%list.
Proof.
  induction props as [|[k' v'] props IH]; [done|].
  cbn [map fst]. intros [Hne Hk]%not_elem_of_cons. cbn.
  destruct (String.eqb_spec k' k) as [->|_]; [done|]. by rewrite IH.
Qed.

Lemma fold_defineProperty (pre suf : list (string * JSON.value)) :
  NoDup (map fst (pre ++ suf)) ->
  fold_left JSON.defineProperty suf pre = (pre ++ suf)%list.
Proof.
  revert pre. induction suf as [|[k v] suf IH]; intros pre Hnd.
  - by rewrite app_nil_r.
  - cbn [fold_left]. rewrite defineProperty_fresh.
    + rewrite IH; rewrite <- app_assoc; done.
    + rewrite map_app in Hnd. apply NoDup_app in Hnd as (_ & Hd & _).
      intros Hin. apply (Hd k Hin). simpl. left.
Qed.

Lemma parseValue_text (v : JSON.value) : JSON.readsBack v.
Proof.
  induction v as [| |b|z|s|l IH|ps IH] using value_nested_ind;
    intros Hp fuel rest Hfuel Hend; try discriminate Hp;
    (destruct fuel as [|fuel]; [cbn in Hfuel; lia|]).
  - reflexivity.
  - by destruct b.
  - by apply parseValue_number.
  - destruct (parseStringBody_QuoteJSONString s rest) as (body & Hq & Hbody).
    change (JSON.text (JSON.Str s)) with (JSON.QuoteJSONString s). rewrite Hq.
    cbn [JSON.parseValue JSON.skipWS].
    change (JSON.isWS JSON.dquote) with false. cbv iota.
    change (Ascii.eqb JSON.dquote "{") with false.
    change (Ascii.eqb JSON.dquote "[") with false.
    change (Ascii.eqb JSON.dquote JSON.dquote) with true. cbv iota.
    by rewrite Hbody.
  - rewrite text_Array. destruct l as [|e l]; [reflexivity|].
    cbn [JSON.printable] in Hp. cbn [JSON.cost] in Hfuel.
    rewrite !append_assoc.
    change ("[" ++ ?x) with (String "[" x). change ("]" ++ ?x) with (String "]" x).
    assert (exists c r, JSON.join "," (map JSON.text (e :: l)) ++ String "]" rest = String c r
                        /\ JSON.isWS c = false /\ Ascii.eqb c "]" = false)
      as (c & r & Hs & Hws & Hc).
    { cbn [forallb] in Hp. apply andb_prop in Hp as [Hpe _].
      destruct (text_head e Hpe) as (c & r & Hs & Hws & Hc & _).
      destruct l as [|e2 l]; cbn [map]; [cbn [JSON.join]|rewrite join_cons];
        rewrite Hs; eexists _, _; (split; [reflexivity|done]). }
    cbn [JSON.parseValue JSON.skipWS].
    change (JSON.isWS "[") with false. cbv iota.
    change (Ascii.eqb "[" "{") with false. change (Ascii.eqb "[" "[") with true.
    cbv iota.
    rewrite Hs. cbn [JSON.skipWS]. rewrite Hws, Hc. rewrite <- Hs.
    rewrite parseElements_text; [done|done|done|done|lia].
  - rewrite (text_Object _ Hp). destruct ps as [|p ps]; [reflexivity|].
    cbn [JSON.printable] in Hp. apply andb_prop in Hp as [Hnd Hp].
    apply bool_decide_eq_true in Hnd. cbn [JSON.cost] in Hfuel.
    rewrite !append_assoc.
    change ("{" ++ ?x) with (String "{" x). change ("}" ++ ?x) with (String "}" x).
    fold JSON.member.
    assert (exists r, JSON.join "," (map JSON.member (p :: ps)) ++ String "}" rest
                      = String JSON.dquote r) as (r & Hs).
    { destruct ps as [|p2 ps]; cbn [map]; [cbn [JSON.join]|rewrite join_cons];
        by eexists. }
    cbn [JSON.parseValue JSON.skipWS].
    change (JSON.isWS "{") with false. cbv iota.
    change (Ascii.eqb "{" "{") with true. cbv iota.
    rewrite Hs. cbn [JSON.skipWS].
    change (JSON.isWS JSON.dquote) with false. cbv iota.
    change (Ascii.eqb JSON.dquote "}") with false. cbv iota.
    rewrite <- Hs.
    rewrite parseMembers_text; [|done|done|done|lia].
    cbn [bindE]. by rewrite (fold_defineProperty [] (p :: ps) Hnd).
Qed.

Lemma length_append (a b : string) :
  String.length (a ++ b) = (String.length a + String.length b)%nat.
Proof. induction a as [|c a IH]; cbn; [done|]. by rewrite IH. Qed.

Lemma append_nil_r (a : string) : a ++ "" = a.
Proof. induction a as [|c a IH]; cbn; [done|]. by rewrite IH. Qed.

Lemma cost_sum_le_join {A} (f : A -> string) (g : A -> nat) (l : list A) :
  Forall (fun x => (g x <= String.length (f x))%nat) l ->
  (list_sum (map (fun x => S (g x)) l) <= String.length (JSON.join "," (map f l)) + 1)%nat.
Proof.
  induction l as [|x l IH]; intros Hall; [cbn; lia|].
  apply Forall_cons in Hall as [Hx Hall]. specialize (IH Hall).
  destruct l as [|y l].
  - cbn. lia.
  - cbn [map]. rewrite join_cons, !length_append.
    cbn [map list_sum fold_right String.length] in IH |- *. lia.
Qed.

Lemma cost_le_length (v : JSON.value) :
  JSON.printable v = true -> (JSON.cost v <= String.length (JSON.text v))%nat.
Proof.
  induction v as [| |b|z|s|l IH|ps IH] using value_nested_ind; intros Hp;
    try discriminate Hp.
  - cbn. lia.
  - destruct b; cbn; lia.
  - destruct (Number_toString_head z) as (c & r & Hs & _).
    change (JSON.text (JSON.Number z)) with (JSON.Number_toString z). rewrite Hs. cbn. lia.
  - cbn. lia.
  - rewrite text_Array, !length_append. cbn [JSON.cost JSON.printable] in Hp |- *.
    pose proof (cost_sum_le_join JSON.text JSON.cost l) as Hsum.
    cbn [String.length]. 
    assert (Forall (fun x => (JSON.cost x <= String.length (JSON.text x))%nat) l) as Hall.
    { apply Forall_forall. intros x Hx.
      apply (proj1 (Forall_forall _ _) IH x Hx).
      apply (proj1 (forallb_forall _ _) Hp x). by apply list_elem_of_In. }
    specialize (Hsum Hall). lia.
  - rewrite (text_Object _ Hp), !length_append. fold JSON.member.
    cbn [JSON.cost JSON.printable] in Hp |- *. apply andb_prop in Hp as [_ Hp].
    pose proof (cost_sum_le_join JSON.member (fun p => JSON.cost (snd p)) ps) as Hsum.
    cbn [String.length].
    assert (Forall (fun p => (JSON.cost (snd p) <= String.length (JSON.member p))%nat) ps)
      as Hall.
    { apply Forall_forall. intros p Hin.
      assert (JSON.cost (snd p) <= String.length (JSON.text (snd p)))%nat as Hle.
      { apply (proj1 (Forall_forall _ _) IH p Hin).
        apply (proj1 (forallb_forall _ _) Hp p). by apply list_elem_of_In. }
      unfold JSON.member. rewrite !length_append. lia. }
    specialize (Hsum Hall). lia.
Qed.

Lemma stringified_text (v : JSON.value) :
  JSON.printable v = true -> stringified v = JSON.text v.
Proof. by destruct v as [| |[]| | | |]. Qed.

(** [JSON.parse(JSON.stringify(v))] is [v] again, for every value with no
    [undefined] inside and no repeated key. *)
Lemma parse_stringified (v : JSON.value) :
  JSON.printable v = true -> JSON.parse (stringified v) = Ok v.
Proof.
  intros Hp. rewrite (stringified_text v Hp). unfold JSON.parse.
  rewrite <- (append_nil_r (JSON.text v)) at 2.
  rewrite parseValue_text; [done|done| |done].
  pose proof (cost_le_length v Hp). lia.
Qed.

(** ** The world-state store *)

Lemma version_printable (v : Version) : JSON.printable (ToJSON.version v) = true.
Proof. reflexivity. Qed.

Lemma version_toJSON_fromJSON (v : Version) :
  FromJSON.version (ToJSON.version v) = Ok (Some v).
Proof. by destruct v. Qed.

Lemma getVersion_setVersion ws key v : getVersion (setVersion ws key v) key = Ok (Some v).
Proof.
  unfold getVersion, setVersion, db_put. cbn [db channelId].
  change (versionKey {| db := _; channelId := channelId ws |} key)
    with (versionKey ws key).
  rewrite lookup_insert_eq.
  rewrite (parse_stringified _ (version_printable v)).
  cbn [bindE]. rewrite version_toJSON_fromJSON.
  by destruct v.
Qed.

Lemma getVersion_setVersion_ne ws key key' v :
  key <> key' -> getVersion (setVersion ws key v) key' = getVersion ws key'.
Proof.
  intros Hne. unfold getVersion, setVersion, db_put. cbn [db channelId].
  change (versionKey {| db := _; channelId := channelId ws |} key')
    with (versionKey ws key').
  rewrite lookup_insert_ne; [done|]. intros Heq. by apply versionKey_inj in Heq.
Qed.

Lemma getVersion_setState ws key value key' :
  getVersion (setState ws key value) key' = getVersion ws key'.
Proof.
  unfold getVersion, setState, db_put. cbn [db channelId].
  change (versionKey {| db := _; channelId := channelId ws |} key')
    with (versionKey ws key').
  rewrite lookup_insert_ne; [done|]. apply stateKey_versionKey.
Qed.

Lemma getVersion_deleteState ws key key' :
  getVersion (deleteState ws key) key' = getVersion ws key'.
Proof.
  unfold getVersion, deleteState, db_del. cbn [db channelId].
  change (versionKey {| db := _; channelId := channelId ws |} key')
    with (versionKey ws key').
  rewrite lookup_delete_ne; [done|]. apply stateKey_versionKey.
Qed.

Lemma getState_setVersion ws key v key' :
  getState (setVersion ws key v) key' = getState ws key'.
Proof.
  unfold getState, setVersion, db_put. cbn [db channelId].
  change (stateKey {| db := _; channelId := channelId ws |} key')
    with (stateKey ws key').
  rewrite lookup_insert_ne; [done|]. intros Heq. symmetry in Heq.
  by apply stateKey_versionKey in Heq.
Qed.

Lemma getState_setState ws key value : getState (setState ws key value) key = Some value.
Proof.
  unfold getState, setState, db_put. cbn [db channelId].
  change (stateKey {| db := _; channelId := channelId ws |} key)
    with (stateKey ws key).
  apply lookup_insert_eq.
Qed.

Lemma getState_setState_ne ws key value key' :
  key <> key' -> getState (setState ws key value) key' = getState ws key'.
Proof.
  intros Hne. unfold getState, setState, db_put. cbn [db channelId].
  change (stateKey {| db := _; channelId := channelId ws |} key')
    with (stateKey ws key').
  rewrite lookup_insert_ne; [done|]. intros Heq. by apply stateKey_inj in Heq.
Qed.

Lemma getState_deleteState ws key : getState (deleteState ws key) key = None.
Proof.
  unfold getState, deleteState, db_del. cbn [db channelId].
  change (stateKey {| db := _; channelId := channelId ws |} key)
    with (stateKey ws key).
  apply lookup_delete_eq.
Qed.

Lemma getState_deleteState_ne ws key key' :
  key <> key' -> getState (deleteState ws key) key' = getState ws key'.
Proof.
  intros Hne. unfold getState, deleteState, db_del. cbn [db channelId].
  change (stateKey {| db := _; channelId := channelId ws |} key')
    with (stateKey ws key').
  rewrite lookup_delete_ne; [done|]. intros Heq. by apply stateKey_inj in Heq.
Qed.

(** One write entry: its key is stamped, every other key is left alone. *)
Lemma applyWrite_getVersion bn tn ws w :
  getVersion (applyWrite bn tn ws w) (write_key w)
  = Ok (Some {| blockNum := bn; txNum := tn |}).
Proof. unfold applyWrite. destruct (write_value w); apply getVersion_setVersion. Qed.

Lemma applyWrite_getVersion_ne bn tn ws w key :
  write_key w <> key -> getVersion (applyWrite bn tn ws w) key = getVersion ws key.
Proof.
  intros Hne. unfold applyWrite.
  destruct (write_value w); rewrite getVersion_setVersion_ne by done.
  - apply getVersion_setState.
  - apply getVersion_deleteState.
Qed.

Lemma applyWrite_getState_ne bn tn ws w key :
  write_key w <> key -> getState (applyWrite bn tn ws w) key = getState ws key.
Proof.
  intros Hne. unfold applyWrite.
  destruct (write_value w); rewrite getState_setVersion.
  - by apply getState_setState_ne.
  - by apply getState_deleteState_ne.
Qed.

Lemma applyWrite_keeps_stamp bn tn ws w key :
  getVersion ws key = Ok (Some {| blockNum := bn; txNum := tn |}) ->
  getVersion (applyWrite bn tn ws w) key = Ok (Some {| blockNum := bn; txNum := tn |}).
Proof.
  intros Hv. destruct (decide (write_key w = key)) as [<-|Hne].
  - apply applyWrite_getVersion.
  - by rewrite applyWrite_getVersion_ne.
Qed.

Lemma fold_applyWrite_keeps_stamp bn tn ws (ws' : list WriteEntry) key :
  getVersion ws key = Ok (Some {| blockNum := bn; txNum := tn |}) ->
  getVersion (fold_left (applyWrite bn tn) ws' ws) key
  = Ok (Some {| blockNum := bn; txNum := tn |}).
Proof.
  revert ws. induction ws' as [|w ws' IH]; intros ws Hv; [done|].
  cbn [fold_left]. apply IH. by apply applyWrite_keeps_stamp.
Qed.

Lemma applyRWSet_getVersion_written ws rwSet bn tn w :
  w ∈ writes rwSet ->
  getVersion (applyRWSet ws rwSet bn tn) (write_key w)
  = Ok (Some {| blockNum := bn; txNum := tn |}).
Proof.
  unfold applyRWSet. intros Hin.
  apply list_elem_of_split in Hin as (before & after & ->).
  rewrite fold_left_app. cbn [fold_left].
  apply fold_applyWrite_keeps_stamp, applyWrite_getVersion.
Qed.

Lemma applyRWSet_getState_frame ws rwSet bn tn key :
  (forall w, w ∈ writes rwSet -> write_key w <> key) ->
  getState (applyRWSet ws rwSet bn tn) key = getState ws key.
Proof.
  unfold applyRWSet. intros Hframe.
  revert ws. induction (writes rwSet) as [|w ws' IH]; intros ws; [done|].
  cbn [fold_left]. rewrite IH.
  - apply applyWrite_getState_ne, Hframe. left.
  - intros w' Hin. apply Hframe. by right.
Qed.

Lemma applyRWSet_getVersion_frame ws rwSet bn tn key :
  (forall w, w ∈ writes rwSet -> write_key w <> key) ->
  getVersion (applyRWSet ws rwSet bn tn) key = getVersion ws key.
Proof.
  unfold applyRWSet. intros Hframe.
  revert ws. induction (writes rwSet) as [|w ws' IH]; intros ws; [done|].
  cbn [fold_left]. rewrite IH.
  - apply applyWrite_getVersion_ne, Hframe. left.
  - intros w' Hin. apply Hframe. by right.
Qed.

(** C8. After [applyRWSet(rwSet, blockNum, txNum)] the version of the key of
    every write entry of [rwSet] is [{blockNum, txNum}], for a put as for a
    delete. *)
Theorem applyRWSet_stamps_every_write ws rwSet bn tn w :
  w ∈ writes rwSet ->
  getVersion (applyRWSet ws rwSet bn tn) (write_key w)
  = Ok (Some {| blockNum := bn; txNum := tn |}).
Proof. apply applyRWSet_getVersion_written. Qed.

(** C10. [applyRWSet] touches the keys of [rwSet.writes] only: the value and
    the version of every other key are as before, and the result does not
    depend on [rwSet.reads]. *)
Theorem applyRWSet_frame ws rwSet bn tn key :
  (forall w, w ∈ writes rwSet -> write_key w <> key) ->
  getState (applyRWSet ws rwSet bn tn) key = getState ws key
  /\ getVersion (applyRWSet ws rwSet bn tn) key = getVersion ws key
  /\ forall reads',
       applyRWSet ws {| reads := reads'; writes := writes rwSet |} bn tn
       = applyRWSet ws rwSet bn tn.
Proof.
  intros Hframe. split_and!.
  - by apply applyRWSet_getState_frame.
  - by apply applyRWSet_getVersion_frame.
  - done.
Qed.

Lemma validateReadSet_cons ws r rest :
  validateReadSet ws (r :: rest)
  = bindE (getVersion ws (read_key r)) (fun current =>
      if bool_decide (current = read_version r)
      then validateReadSet ws rest else Ok false).
Proof.
  cbn [validateReadSet].
  destruct (getVersion ws (read_key r)) as [current|e]; [|done]. cbn [bindE].
  destruct (read_version r) as [[rb rt]|], current as [[cb ct]|]; cbn; try done.
  case_bool_decide as Heq.
  - injection Heq as -> ->. by rewrite !Z.eqb_refl.
  - destruct (Z.eqb_spec rb cb) as [->|]; [|done].
    destruct (Z.eqb_spec rt ct) as [->|]; [|done]. done.
Qed.

Lemma validateReadSet_true ws (reads : list ReadVersion) :
  validateReadSet ws reads = Ok true
  <-> Forall (fun r => getVersion ws (read_key r) = Ok (read_version r)) reads.
Proof.
  induction reads as [|r rest IH]; [by split|].
  rewrite validateReadSet_cons, Forall_cons.
  destruct (getVersion ws (read_key r)) as [current|e]; cbn [bindE].
  - case_bool_decide as Heq.
    + rewrite IH, Heq. by split; [split|intros [_ ?]].
    + split; [done|]. intros [Hr _]. congruence.
  - split; [done|]. intros [Hr _]. congruence.
Qed.

(** C2. [validateReadSet] answers [true] exactly when every read entry
    recorded the version the store has now, an absent version matching an
    absent version only; a first entry that differs makes the answer
    [false]. *)
Theorem validateReadSet_strict ws (reads : list ReadVersion) :
  (validateReadSet ws reads = Ok true
   <-> Forall (fun r => getVersion ws (read_key r) = Ok (read_version r)) reads)
  /\ forall before r after current,
       reads = (before ++ r :: after)%list ->
       Forall (fun r => getVersion ws (read_key r) = Ok (read_version r)) before ->
       getVersion ws (read_key r) = Ok current ->
       current <> read_version r ->
       validateReadSet ws reads = Ok false.
Proof.
  split; [apply validateReadSet_true|].
  intros before r after current -> Hbefore Hcur Hne.
  induction before as [|b before IH]; cbn [app].
  - rewrite validateReadSet_cons, Hcur. cbn [bindE]. by rewrite bool_decide_eq_false_2.
  - apply Forall_cons in Hbefore as [Hb Hbefore].
    rewrite validateReadSet_cons, Hb. cbn [bindE]. rewrite bool_decide_eq_true_2 by done.
    by apply IH.
Qed.

(** ** Canonical serialization *)

Lemma elem_of_sortInsert (x y : string) (l : list string) :
  y ∈ JSON.sortInsert x l <-> y = x \/ y ∈ l.
Proof.
  induction l as [|z l IH]; cbn.
  - rewrite list_elem_of_singleton, elem_of_nil. tauto.
  - destruct (String.leb x z); rewrite !elem_of_cons; [done|]. rewrite IH. tauto.
Qed.

Lemma elem_of_Array_sort (y : string) (l : list string) :
  y ∈ JSON.Array_sort l <-> y ∈ l.
Proof.
  induction l as [|x l IH]; cbn; [done|].
  by rewrite elem_of_sortInsert, IH, elem_of_cons.
Qed.

Lemma elem_of_PropertyList (y : string) (seen l : list string) :
  y ∈ JSON.PropertyList seen l -> y ∈ l.
Proof.
  revert seen. induction l as [|x l IH]; intros seen; cbn; [done|].
  case_bool_decide; rewrite ?elem_of_cons; [right; eauto|].
  intros [->|Hin]; [by left|right; eauto].
Qed.

(** With a property list, an object none of whose keys is on the list has
    the text [{}], whatever it holds. *)
Lemma serializeGet_foreign f (props : list (string * JSON.value)) (P : string) :
  P ∉ map fst props -> JSON.serializeGet f props P = None.
Proof.
  induction props as [|[k x] props IH]; [done|].
  cbn [map fst]. intros [Hne Hk]%not_elem_of_cons. cbn.
  destruct (String.eqb_spec k P) as [->|_]; [done|]. by apply IH.
Qed.

Lemma serializeMembers_foreign f (props : list (string * JSON.value)) (ks : list string) :
  (forall P, P ∈ ks -> P ∉ map fst props) -> JSON.serializeMembers f props ks = [].
Proof.
  intros Hforeign. induction ks as [|P ks IH]; [done|]. cbn [JSON.serializeMembers].
  rewrite serializeGet_foreign by (apply Hforeign; left).
  apply IH. intros Q HQ. apply Hforeign. by right.
Qed.

Lemma SerializeJSONProperty_foreign (K : list string) (props : list (string * JSON.value)) :
  (forall P, P ∈ K -> P ∉ map fst props) ->
  JSON.SerializeJSONProperty (Some K) (JSON.Object props) = Some "{}".
Proof.
  intros Hforeign. cbn [JSON.SerializeJSONProperty].
  by rewrite serializeMembers_foreign.
Qed.

Lemma serializeMembers_ext f (props props' : list (string * JSON.value)) (ks : list string) :
  (forall P, JSON.serializeGet f props P = JSON.serializeGet f props' P) ->
  JSON.serializeMembers f props ks = JSON.serializeMembers f props' ks.
Proof.
  intros Hget. induction ks as [|P ks IH]; [done|].
  cbn [JSON.serializeMembers]. by rewrite Hget, IH.
Qed.

Lemma serializeGet_app f (before after : list (string * JSON.value)) (P : string) :
  JSON.serializeGet f (before ++ after) P
  = match JSON.serializeGet f before P with
    | Some s => Some s
    | None =>
        if bool_decide (P ∈ map fst before) then None
        else JSON.serializeGet f after P
    end.
Proof.
  induction before as [|[k x] before IH]; [done|]. cbn.
  destruct (String.eqb_spec k P) as [->|Hne].
  - destruct (f x); [done|]. rewrite bool_decide_eq_true_2; [done|left].
  - rewrite IH. destruct (JSON.serializeGet f before P); [done|].
    rewrite (bool_decide_ext (P ∈ k :: map fst before) (P ∈ map fst before)); [done|].
    rewrite elem_of_cons. split; [intros [?|?]; congruence || done|by right].
Qed.

(** The canonical text of an object does not depend on what a nested object
    holds under keys that are not keys of the outer object. *)
Lemma canonicalStringify_blind_to_nested
      (before after inner inner' : list (string * JSON.value)) (k : string) :
  (forall P, P ∈ (map fst before ++ (k :: map fst after))%list ->
             (P ∉ map fst inner) /\ (P ∉ map fst inner')) ->
  canonicalStringify (JSON.Object (before ++ (k, JSON.Object inner) :: after))
  = canonicalStringify (JSON.Object (before ++ (k, JSON.Object inner') :: after)).
Proof.
  intros Hforeign. unfold canonicalStringify. cbn [JSON.Object_keys bindE].
  rewrite !map_app. cbn [map fst].
  set (keys := (map fst before ++ (k :: map fst after))%list) in *.
  unfold JSON.stringify. cbn [fmap option_fmap option_map].
  set (K := JSON.PropertyList [] (JSON.Array_sort keys)).
  assert (forall P, P ∈ K -> P ∈ keys) as HK.
  { intros P HP. subst K. apply elem_of_PropertyList in HP.
    exact (proj1 (elem_of_Array_sort P keys) HP). }
  cbn [JSON.SerializeJSONProperty].
  rewrite (serializeMembers_ext _ _ (before ++ (k, JSON.Object inner') :: after)); [done|].
  intros P. rewrite !serializeGet_app.
  destruct (JSON.serializeGet _ before P); [done|].
  case_bool_decide; [done|]. cbn [JSON.serializeGet].
  destruct (String.eqb k P); [|done].
  rewrite !SerializeJSONProperty_foreign; [done| |]; intros Q HQ; by apply Hforeign, HK.
Qed.

(** C1 (what the code does at the failing input). Two proposals that differ
    in [payload.args] have the same canonical text: the property list made of
    the top-level keys empties the nested [payload] object. *)
Theorem canonicalStringify_collision :
  canonicalStringify (Scenario.proposalOf "100")
  = canonicalStringify (Scenario.proposalOf "9999")
  /\ canonicalStringify (Scenario.proposalOf "100")
     = Ok ("{" ++ JSON.join ","
             [JSON.QuoteJSONString "creatorId" ++ ":" ++ JSON.QuoteJSONString "Org1Client";
              JSON.QuoteJSONString "creatorOrgId" ++ ":" ++ JSON.QuoteJSONString "Org1";
              JSON.QuoteJSONString "creatorPubKey" ++ ":" ++ JSON.QuoteJSONString "K-Org1Client";
              JSON.QuoteJSONString "payload" ++ ":{}";
              JSON.QuoteJSONString "txId" ++ ":" ++ JSON.QuoteJSONString "tx1"] ++ "}")
  /\ JSON.Get (match Scenario.proposalOf "100" with
               | JSON.Object props => props | _ => [] end) "payload"
     <> JSON.Get (match Scenario.proposalOf "9999" with
                  | JSON.Object props => props | _ => [] end) "payload".
Proof. split_and!; [by vm_compute|by vm_compute|]. vm_compute. congruence. Qed.

(** ** Endorsement policies *)

Lemma includes_spec (l : list string) (x : string) : includes l x = true <-> x ∈ l.
Proof. unfold includes. apply bool_decide_eq_true. Qed.

(** C4. [checkEndorsementPolicy] on the set of endorsing organizations: ANY
    holds when some organization of the policy is in the set, ALL when every
    one is, MAJORITY when the entries of [policy.orgs] that are in the set
    number at least floor(|policy.orgs| / 2) + 1; a policy of one of these
    kinds that does not hold gives [ENDORSEMENT_POLICY_FAILURE]. *)
Theorem checkEndorsementPolicy_semantics (orgs endorsingOrgs : list string) :
  (v_code (checkEndorsementPolicy (policyOf "ANY" orgs) endorsingOrgs) = VALID
   <-> exists org, org ∈ orgs /\ org ∈ endorsingOrgs)
  /\ (v_code (checkEndorsementPolicy (policyOf "ALL" orgs) endorsingOrgs) = VALID
      <-> forall org, org ∈ orgs -> org ∈ endorsingOrgs)
  /\ (v_code (checkEndorsementPolicy (policyOf "MAJORITY" orgs) endorsingOrgs) = VALID
      <-> (List.length orgs / 2 + 1
           <= List.length (List.filter (fun org => bool_decide (org ∈ endorsingOrgs)) orgs))%nat)
  /\ Forall (fun type =>
               v_code (checkEndorsementPolicy (policyOf type orgs) endorsingOrgs) = VALID
               \/ v_code (checkEndorsementPolicy (policyOf type orgs) endorsingOrgs)
                  = ENDORSEMENT_POLICY_FAILURE)
            ["ANY"; "ALL"; "MAJORITY"].
Proof.
  rewrite !Forall_cons, Forall_nil. cbn beta.
  unfold checkEndorsementPolicy, policyOf. cbn [policy_type policy_orgs].
  change (String.eqb "ANY" "ANY") with true.
  change (String.eqb "ALL" "ANY") with false.
  change (String.eqb "ALL" "ALL") with true.
  change (String.eqb "MAJORITY" "ANY") with false.
  change (String.eqb "MAJORITY" "ALL") with false.
  change (String.eqb "MAJORITY" "MAJORITY") with true. cbv iota.
  split_and!.
  - destruct (existsb _ orgs) eqn:Hany; cbn [v_code].
    + split; [intros _|done]. apply existsb_exists in Hany as (org & Hin & Hinc).
      exists org. split; [by apply list_elem_of_In|by apply includes_spec].
    + split; [done|]. intros (org & Hin & Hinc).
      assert (existsb (fun org => includes endorsingOrgs org) orgs = true); [|congruence].
      apply existsb_exists. exists org. split; [by apply list_elem_of_In|by apply includes_spec].
  - destruct (forallb _ orgs) eqn:Hall; cbn [v_code].
    + split; [intros _|done]. intros org Hin.
      apply includes_spec. apply (proj1 (forallb_forall _ _) Hall). by apply list_elem_of_In.
    + split; [done|]. intros Hevery.
      assert (forallb (fun org => includes endorsingOrgs org) orgs = true); [|congruence].
      apply forallb_forall. intros org Hin. apply includes_spec, Hevery. by apply list_elem_of_In.
  - unfold includes. destruct (_ <=? _)%nat eqn:Hle; cbn [v_code].
    + apply Nat.leb_le in Hle. by split.
    + apply Nat.leb_gt in Hle. split; [done|lia].
  - destruct (existsb _ orgs); [by left|by right].
  - destruct (forallb _ orgs); [by left|by right].
  - destruct (_ <=? _)%nat; [by left|by right].
  - done.
Qed.

(** ** The execution context *)

(** C6 as stated fails: after [putState("balance:Alice", "300")] the context
    still answers [getState("balance:Alice")] with the committed value 400. *)
Lemma getState_after_putState_counterexample :
  Context.getState Scenario.world
    (Context.putState Scenario.context "balance:Alice" "300") "balance:Alice"
  = Ok (pushRead (Context.putState Scenario.context "balance:Alice" "300")
                 {| read_key := "balance:Alice";
                    read_version := Some {| blockNum := 2; txNum := 0 |} |},
        Some "400").
Proof. by vm_compute. Qed.

(** C6, amended. [getState(k)] after [putState(k, v)] in the same context
    returns the value of [k] in the world state: the pending write is not
    visible to the read. The read-write set records the world-state version
    of [k] in its reads and the write [{k, v}] in its writes. *)
Theorem getState_after_putState ws ctx key value version :
  getVersion ws key = Ok version ->
  exists ctx',
    Context.getState ws (Context.putState ctx key value) key = Ok (ctx', getState ws key)
    /\ Context.getRWSet ctx'
       = {| reads := readSet ctx ++ [{| read_key := key; read_version := version |}];
            writes := writeSet ctx ++ [{| write_key := key; write_value := Some value |}] |}.
Proof.
  intros Hversion. eexists. unfold Context.getState. rewrite Hversion. cbn [bindE].
  split; reflexivity.
Qed.

Lemma getState_after_putState_witness :
  exists ctx',
    Context.getState Scenario.world
      (Context.putState Scenario.context "balance:Alice" "300") "balance:Alice"
    = Ok (ctx', getState Scenario.world "balance:Alice")
    /\ Context.getRWSet ctx'
       = {| reads := readSet Scenario.context
                     ++ [{| read_key := "balance:Alice";
                            read_version := Some {| blockNum := 2; txNum := 0 |} |}];
            writes := writeSet Scenario.context
                      ++ [{| write_key := "balance:Alice"; write_value := Some "300" |}] |}.
Proof.
  apply (getState_after_putState Scenario.world Scenario.context "balance:Alice" "300").
  vm_compute. reflexivity.
Defined.

(** ** Witnesses on the scenario *)

Lemma applyRWSet_stamps_every_write_witness :
  getVersion (applyRWSet Scenario.world Scenario.mixedSet 3 1) "balance:Bob"
  = Ok (Some {| blockNum := 3; txNum := 1 |})
  /\ getVersion (applyRWSet Scenario.world Scenario.mixedSet 3 1) "balance:Alice"
     = Ok (Some {| blockNum := 3; txNum := 1 |}).
Proof.
  split.
  - apply (applyRWSet_stamps_every_write Scenario.world Scenario.mixedSet 3 1
             {| write_key := "balance:Bob"; write_value := Some "100" |}).
    simpl. left.
  - apply (applyRWSet_stamps_every_write Scenario.world Scenario.mixedSet 3 1
             {| write_key := "balance:Alice"; write_value := None |}).
    simpl. right. left.
Defined.

Lemma applyRWSet_frame_witness :
  getState (applyRWSet Scenario.world Scenario.mixedSet 3 1) "CHAINCODE:basic"
  = getState Scenario.world "CHAINCODE:basic"
  /\ getVersion (applyRWSet Scenario.world Scenario.mixedSet 3 1) "CHAINCODE:basic"
     = getVersion Scenario.world "CHAINCODE:basic"
  /\ forall reads',
       applyRWSet Scenario.world
                  {| reads := reads'; writes := writes Scenario.mixedSet |} 3 1
       = applyRWSet Scenario.world Scenario.mixedSet 3 1.
Proof.
  apply (applyRWSet_frame Scenario.world Scenario.mixedSet 3 1 "CHAINCODE:basic").
  intros w Hin. simpl in Hin.
  apply elem_of_cons in Hin as [->|Hin]; [simpl; discriminate|].
  apply elem_of_cons in Hin as [->|Hin]; [simpl; discriminate|].
  by apply elem_of_nil in Hin.
Defined.

Lemma validateReadSet_strict_witness :
  validateReadSet Scenario.world (reads (rwSet Scenario.tx0)) = Ok true
  /\ validateReadSet (applyRWSet Scenario.world (rwSet Scenario.tx0) 3 0)
                     (reads (rwSet Scenario.tx1)) = Ok false.
Proof.
  split.
  - apply (proj1 (validateReadSet_strict Scenario.world (reads (rwSet Scenario.tx0)))).
    simpl. repeat constructor; vm_compute; reflexivity.
  - apply (proj2 (validateReadSet_strict
                    (applyRWSet Scenario.world (rwSet Scenario.tx0) 3 0)
                    (reads (rwSet Scenario.tx1)))
                 [] {| read_key := "balance:Alice";
                       read_version := Some {| blockNum := 2; txNum := 0 |} |}
                 [{| read_key := "balance:Bob"; read_version := None |}]
                 (Some {| blockNum := 3; txNum := 0 |})).
    + reflexivity.
    + constructor.
    + vm_compute. reflexivity.
    + simpl. discriminate.
Defined.

(** ** Endorsement validation *)

Lemma canonicalStringify_Object (props : list (string * JSON.value)) :
  exists s, canonicalStringify (JSON.Object props) = Ok s.
Proof. by eexists. Qed.

Section EndorsementValidation.
Context `{Crypto}.
Variable msp : MSP.

Lemma endorsementVerifies_data tx :
  exists data,
    canonicalStringify (endorsementData tx) = Ok data
    /\ forall e, endorsementVerifies msp tx e
                 = valid (verifySignature msp data (signature e) (endorserId e) (Some PEER)).
Proof.
  destruct (canonicalStringify_Object
              [("proposal", JSON.Object [("txId", JSON.Str (txId tx));
                                         ("payload", ToJSON.txPayload (payload tx))]);
               ("rwSet", ToJSON.rwset (rwSet tx));
               ("result", ToJSON.nullable (result tx))]) as [data Hdata].
  fold (endorsementData tx) in Hdata. exists data. split; [done|].
  intros e. unfold endorsementVerifies. by rewrite Hdata.
Qed.

Lemma verifyEndorsements_all tx es acc :
  forallb (endorsementVerifies msp tx) es = true ->
  verifyEndorsements msp tx es acc
  = Ok (inr (fold_left Set_add (map endorserOrgId es) acc)).
Proof.
  destruct (endorsementVerifies_data tx) as (data & Hdata & Hverifies).
  revert acc. induction es as [|e es IH]; intros acc Hall; [done|].
  cbn [forallb] in Hall. apply andb_prop in Hall as [He Hall].
  cbn [verifyEndorsements map fold_left]. rewrite Hdata. cbn [bindE].
  rewrite <- Hverifies, He. cbn [negb]. by apply IH.
Qed.


Lemma filter_all {A} (f : A -> bool) (l : list A) :
  forallb f l = true -> List.filter f l = l.
Proof.
  induction l as [|x l IH]; [done|]. cbn. intros [Hx Hl]%andb_prop.
  by rewrite Hx, IH.
Qed.

Lemma verifyEndorsements_first_invalid tx before e after acc data :
  canonicalStringify (endorsementData tx) = Ok data ->
  forallb (endorsementVerifies msp tx) before = true ->
  endorsementVerifies msp tx e = false ->
  verifyEndorsements msp tx (before ++ e :: after) acc
  = Ok (inl {| v_code := ENDORSEMENT_POLICY_FAILURE;
               v_message := error (verifySignature msp data (signature e)
                                                   (endorserId e) (Some PEER)) |}).
Proof.
  intros Hdata. revert acc. induction before as [|x before IH]; intros acc Hall He.
  - cbn [app verifyEndorsements]. rewrite Hdata. cbn [bindE].
    unfold endorsementVerifies in He. rewrite Hdata in He. by rewrite He.
  - cbn [forallb] in Hall. apply andb_prop in Hall as [Hx Hall].
    cbn [app verifyEndorsements]. rewrite Hdata. cbn [bindE].
    unfold endorsementVerifies in Hx. rewrite Hdata in Hx. rewrite Hx. cbn [negb].
    by apply IH.
Qed.

(** C7, amended. Once the policy is resolved (a deploy, or an invocation
    whose chaincode metadata is found), the endorsements are verified in
    order with role PEER over the canonical endorsement data [data]. The
    first endorsement whose signature does not verify fails the transaction
    with [ENDORSEMENT_POLICY_FAILURE], the message being the error of that
    verification, whatever the endorsements after it and the policy are.
    When every endorsement verifies, the policy is evaluated over the
    distinct [endorserOrgId] values of the endorsements. *)
Theorem validateEndorsements_all_or_failure ws tx resolved :
  resolvePolicy ws tx = Ok (inr resolved) ->
  exists data,
    canonicalStringify (endorsementData tx) = Ok data
    /\ (forall e,
          endorsementVerifies msp tx e
          = valid (verifySignature msp data (signature e) (endorserId e) (Some PEER)))
    /\ (forall before e after,
          endorsements tx = (before ++ e :: after)%list ->
          forallb (endorsementVerifies msp tx) before = true ->
          endorsementVerifies msp tx e = false ->
          validateEndorsements msp ws tx
          = Ok {| v_code := ENDORSEMENT_POLICY_FAILURE;
                  v_message := error (verifySignature msp data (signature e)
                                                      (endorserId e) (Some PEER)) |})
    /\ (forall policy,
          resolved = Ok policy ->
          forallb (endorsementVerifies msp tx) (endorsements tx) = true ->
          verifiedOrgs msp tx = fold_left Set_add (map endorserOrgId (endorsements tx)) []
          /\ validateEndorsements msp ws tx
             = Ok (checkEndorsementPolicy policy (verifiedOrgs msp tx))).
Proof.
  intros Hpolicy. destruct (endorsementVerifies_data tx) as (data & Hdata & Hverifies).
  exists data. split_and!; [done|done| |].
  - intros before e after Hes Hbefore He.
    unfold validateEndorsements. rewrite Hpolicy. cbn [bindE]. rewrite Hes.
    by rewrite (verifyEndorsements_first_invalid tx before e after [] data).
  - intros policy -> Hall.
    assert (Horgs : verifiedOrgs msp tx
                    = fold_left Set_add (map endorserOrgId (endorsements tx)) []).
    { unfold verifiedOrgs. by rewrite filter_all. }
    split; [done|].
    unfold validateEndorsements. rewrite Hpolicy. cbn [bindE].
    rewrite verifyEndorsements_all by done. cbn [bindE]. by rewrite Horgs.
Qed.

End EndorsementValidation.

(** C7 as stated fails: the endorsement of [Org1Peer] verifies and satisfies
    the policy ANY [Org1] of the chaincode, and the envelope is failed
    because of the second endorsement, by an identity the MSP does not
    know. *)
Lemma validateEndorsements_counterexample :
  resolvePolicy Scenario.world Scenario.txGhost = Ok (inr (Ok (policyOf "ANY" ["Org1"])))
  /\ verifiedOrgs (H := Scenario.crypto) Scenario.msp Scenario.txGhost = ["Org1"]
  /\ checkEndorsementPolicy (policyOf "ANY" ["Org1"])
       (verifiedOrgs (H := Scenario.crypto) Scenario.msp Scenario.txGhost)
     = {| v_code := VALID; v_message := None |}
  /\ validateEndorsements (H := Scenario.crypto) Scenario.msp Scenario.world Scenario.txGhost
     = Ok {| v_code := ENDORSEMENT_POLICY_FAILURE;
             v_message := Some "Identity Ghost not found" |}.
Proof. split_and!; by vm_compute. Qed.

Lemma validateEndorsements_all_or_failure_witness :
  (exists data first ghost,
     endorsements Scenario.txGhost = [first; ghost]
     /\ canonicalStringify (endorsementData Scenario.txGhost) = Ok data
     /\ validateEndorsements (H := Scenario.crypto) Scenario.msp Scenario.world
                             Scenario.txGhost
        = Ok {| v_code := ENDORSEMENT_POLICY_FAILURE;
                v_message :=
                  error (verifySignature (H := Scenario.crypto) Scenario.msp data
                           (signature ghost) (endorserId ghost) (Some PEER)) |})
  /\ validateEndorsements (H := Scenario.crypto) Scenario.msp Scenario.world Scenario.tx0
     = Ok (checkEndorsementPolicy (policyOf "ANY" ["Org1"])
             (verifiedOrgs (H := Scenario.crypto) Scenario.msp Scenario.tx0)).
Proof.
  split.
  - destruct (validateEndorsements_all_or_failure
                (H := Scenario.crypto) Scenario.msp Scenario.world Scenario.txGhost
                (Ok (policyOf "ANY" ["Org1"])))
      as (data & Hdata & _ & Hfails & _); [vm_compute; reflexivity|].
    eexists data, _, _. split; [vm_compute; reflexivity|]. split; [exact Hdata|].
    eapply (Hfails [_] _ []); vm_compute; reflexivity.
  - destruct (validateEndorsements_all_or_failure
                (H := Scenario.crypto) Scenario.msp Scenario.world Scenario.tx0
                (Ok (policyOf "ANY" ["Org1"])))
      as (data & _ & _ & _ & Hall); [vm_compute; reflexivity|].
    apply (Hall (policyOf "ANY" ["Org1"])); vm_compute; reflexivity.
Defined.

(** ** Solo block cutting *)

(** Every block cut by [createBlock] carries the previous hash ["0"], and the
    block numbers count up from the consensus module's counter. *)
Lemma createBlock_header (c : SoloConsensus) (now : string) :
  match createBlock c now with
  | (c', Some block) =>
      previousHash (header block) = "0"
      /\ number (header block) = blockNumber c
      /\ blockNumber c' = blockNumber c + 1
      /\ transactions block = pendingTxs c
  | (c', None) => pendingTxs c = [] /\ blockNumber c' = blockNumber c
  end.
Proof.
  unfold createBlock. cbn [pendingTxs blockNumber].
  destruct (pendingTxs c) as [|tx txs]; cbn; by repeat split.
Qed.

(** The ledger's hash of a block is a digest of its canonical texts. *)
Lemma calculateBlockHash_digest `{Crypto} (block : Block) :
  exists data, calculateBlockHash block = Ok (hash data).
Proof.
  unfold calculateBlockHash.
  destruct (canonicalStringify_Object
              [("number", JSON.Number (number (header block)));
               ("previousHash", JSON.Str (previousHash (header block)));
               ("dataHash", JSON.Str (dataHash (header block)))]) as [h Hh].
  fold (ToJSON.blockHeader (header block)) in Hh. rewrite Hh. cbn [bindE].
  assert (exists l,
             (fix each (txs : list TransactionEnvelope) : Exc (list string) :=
                match txs with
                | [] => Ok []
                | tx :: rest =>
                    x <- canonicalStringify (ToJSON.transactionEnvelope tx) ;;;
                    xs <- each rest ;;; Ok (x :: xs)
                end) (transactions block) = Ok l) as [l ->].
  { induction (transactions block) as [|tx txs [l IH]]; [by eexists|].
    rewrite IH. by eexists. }
  cbn [bindE].
  destruct (canonicalStringify_Object
              ([("timestamp", JSON.Str (timestamp (metadata block)));
                ("ordererId", JSON.Str (ordererId (metadata block)));
                ("ordererSignature", JSON.Str (ordererSignature (metadata block)))]
               ++ ToJSON.optional "validationInfo"
                    (fun l => JSON.Array (map ToJSON.txValidationInfo l))
                    (validationInfo (metadata block)))) as [m Hm].
  fold (ToJSON.blockMetadata (metadata block)) in Hm. rewrite Hm. cbn [bindE].
  by eexists.
Qed.

(** C9 (what the code does at the failing input). Solo cuts block 0 and then
    block 1; block 1 has [previousHash = "0"], which is not the hash the
    ledger stored for block 0: the hash index of the orderer's ledger leads
    from the hash of block 0 to the number 0 and has no entry for the
    previous hash of block 1. *)
Theorem solo_second_block_previousHash :
  number (header Scenario.block0) = 0
  /\ number (header Scenario.block1) = 1
  /\ previousHash (header Scenario.block1) = "0"
  /\ (ledger <- Scenario.ordererLedger ;;;
      h0 <- calculateBlockHash (H := Scenario.crypto) Scenario.block0 ;;;
      Ok (ledger !! hashKey h0,
          ledger !! hashKey (previousHash (header Scenario.block1)),
          bool_decide (previousHash (header Scenario.block1) = h0)))
     = Ok (Some "0", None, false).
Proof. split_and!; by vm_compute. Qed.

(** ** The commit loop *)

Section CommitLoop.
Context `{Crypto}.
Variable msp : MSP.
Variable now : nat -> string.

Lemma commitLoop_commitFrom (block : Block) (n i : nat) infos ws :
  (i + n)%nat = List.length (transactions block) ->
  commitLoop msp now block n i infos ws
  = commitFrom msp now (number (header block)) (drop i (transactions block)) i infos ws.
Proof.
  revert i infos ws. induction n as [|n IH]; intros i infos ws Hlen.
  - rewrite drop_ge by lia. reflexivity.
  - cbn [commitLoop].
    destruct (transactions block !! i) as [tx|] eqn:Htx.
    + rewrite (drop_S _ _ _ Htx). cbn [commitFrom].
      destruct (validateTransaction msp ws tx (number (header block)) i) as [v|e];
        [|done].
      cbn [bindE]. apply IH. lia.
    + apply lookup_ge_None in Htx. lia.
Qed.

Lemma commitFrom_Commits bn txs i infos ws infos' ws' :
  commitFrom msp now bn txs i infos ws = Ok (infos', ws')
  <-> exists vs,
        Commits msp now bn i txs ws vs ws'
        /\ infos' = (infos ++ zip_with infoOf txs vs)%list.
Proof.
  revert i infos ws. induction txs as [|tx txs IH]; intros i infos ws.
  - cbn [commitFrom]. split.
    + intros [= <- <-]. exists []. split; [constructor|by rewrite app_nil_r].
    + intros (vs & Hrun & ->). inversion Hrun; subst. by rewrite app_nil_r.
  - cbn [commitFrom]. split.
    + destruct (validateTransaction msp ws tx bn i) as [v|e] eqn:Hv; [|done].
      cbn [bindE]. intros (vs & Hrun & ->)%IH.
      exists (v :: vs). split; [|by rewrite <- app_assoc].
      unfold applyValidated in Hrun. case_bool_decide.
      * by apply Commits_apply.
      * by apply Commits_skip.
    + intros (vs & Hrun & ->). inversion Hrun as [|? ? ? ? v vs' ? Hv Hcode Hrest
                                                   |? ? ? ? v vs' ? Hv Hcode Hrest]; subst.
      * rewrite Hv. cbn [bindE]. apply IH. exists vs'.
        unfold applyValidated. rewrite bool_decide_eq_false_2 by done.
        split; [done|]. by rewrite <- app_assoc.
      * rewrite Hv. cbn [bindE]. apply IH. exists vs'.
        unfold applyValidated. rewrite bool_decide_eq_true_2 by done.
        split; [done|]. by rewrite <- app_assoc.
Qed.

Lemma Commits_length bn i txs ws vs ws' :
  Commits msp now bn i txs ws vs ws' -> List.length vs = List.length txs.
Proof. induction 1; cbn; congruence. Qed.

Lemma storeBlock_total (ledger : gmap string string) (block : Block) :
  exists ledger',
    storeBlock ledger block = Ok ledger'
    /\ ledger' !! blockKey (number (header block)) = Some (stringified (ToJSON.block block)).
Proof.
  unfold storeBlock. destruct (calculateBlockHash_digest block) as [data ->].
  cbn [bindE]. eexists. split; [reflexivity|].
  rewrite lookup_insert_ne by (unfold blockKey; simpl; congruence).
  rewrite lookup_insert_ne by (unfold hashKey, blockKey; simpl; congruence).
  apply lookup_insert_eq.
Qed.

(** [commitBlock] returns exactly when every validation of the loop returns
    a code; the block it stores carries one entry per transaction. *)
Lemma commitBlock_Commits (st : Stores) (block : Block) (vs : list Validation) ws' :
  Commits msp now (number (header block)) 0 (transactions block)
          (worldStateStore st) vs ws' ->
  exists ledger',
    commitBlock msp now st block
    = Ok ({| ledgerStore := ledger'; worldStateStore := ws' |},
          setValidationInfo block (zip_with infoOf (transactions block) vs))
    /\ ledger' !! blockKey (number (header block))
       = Some (stringified
                 (ToJSON.block
                    (setValidationInfo block (zip_with infoOf (transactions block) vs)))).
Proof.
  intros Hrun. unfold commitBlock.
  rewrite commitLoop_commitFrom by lia. rewrite drop_0.
  rewrite (proj2 (commitFrom_Commits _ _ 0%nat [] _ _ _)
                 (ex_intro _ vs (conj Hrun eq_refl))).
  cbn [bindE app].
  destruct (storeBlock_total (ledgerStore st)
              (setValidationInfo block (zip_with infoOf (transactions block) vs)))
    as (ledger' & -> & Hblock).
  cbn [bindE]. by exists ledger'.
Qed.

Lemma commitBlock_inv (st st' : Stores) (block block' : Block) :
  commitBlock msp now st block = Ok (st', block') ->
  exists vs,
    Commits msp now (number (header block)) 0 (transactions block)
            (worldStateStore st) vs (worldStateStore st')
    /\ block' = setValidationInfo block (zip_with infoOf (transactions block) vs).
Proof.
  unfold commitBlock. rewrite commitLoop_commitFrom by lia. rewrite drop_0.
  destruct (commitFrom _ _ _ _ _ _ _) as [[infos ws']|e] eqn:Hloop; [|done].
  cbn [bindE]. apply commitFrom_Commits in Hloop as (vs & Hrun & ->).
  destruct (storeBlock _ _) as [ledger'|e]; [|done]. cbn [bindE app].
  intros [= <- <-]. by exists vs.
Qed.

End CommitLoop.

(** ** Well-formed world states *)

Lemma strings_toJSON (l : list string) : FromJSON.strings (map JSON.Str l) = Ok l.
Proof. induction l as [|x l IH]; [done|]. cbn. by rewrite IH. Qed.

Lemma policy_toJSON_fromJSON (p : EndorsementPolicy) :
  FromJSON.policy (ToJSON.policy p) = Ok p.
Proof. destruct p as [t orgs]. cbn. by rewrite strings_toJSON. Qed.

Lemma strings_printable (l : list string) : forallb JSON.printable (map JSON.Str l) = true.
Proof. by induction l. Qed.

Lemma chaincodeMetadata_printable id version policy deployedAt :
  JSON.printable (chaincodeMetadata id version policy deployedAt) = true.
Proof.
  cbn [chaincodeMetadata JSON.printable ToJSON.policy map fst snd forallb].
  rewrite strings_printable. reflexivity.
Qed.


Lemma getVersion_total ws key : wellFormed ws -> exists v, getVersion ws key = Ok v.
Proof.
  intros [Hversions _]. unfold getVersion.
  destruct (db ws !! versionKey ws key) as [s|] eqn:Hs; [|by eexists].
  destruct (Hversions key s Hs) as [v ->].
  rewrite (parse_stringified _ (version_printable v)). cbn [bindE].
  rewrite version_toJSON_fromJSON. destruct v. by eexists.
Qed.



Section Totality.
Context `{Crypto}.
Variable msp : MSP.
Variable now : nat -> string.





End Totality.

Lemma wellFormed_put_version ws key v :
  wellFormed ws -> wellFormed (setVersion ws key v).
Proof.
  intros [Hversions Hmetadata]. split.
  - intros key' s. unfold setVersion, db_put, versionKey. cbn [db channelId].
    fold (versionKey ws key) (versionKey ws key').
    destruct (decide (versionKey ws key = versionKey ws key')) as [->|Hne].
    + rewrite lookup_insert_eq. intros [= <-]. by exists v.
    + rewrite lookup_insert_ne by done. apply Hversions.
  - intros key' s Hres. unfold setVersion, db_put, versionKey, stateKey. cbn [db channelId].
    fold (versionKey ws key) (stateKey ws key').
    rewrite lookup_insert_ne; [by apply Hmetadata|].
    intros Heq. symmetry in Heq. by apply stateKey_versionKey in Heq.
Qed.

Lemma wellFormed_setState ws key value :
  reserved key = false -> wellFormed ws -> wellFormed (setState ws key value).
Proof.
  intros Hkey [Hversions Hmetadata]. split.
  - intros key' s. unfold setState, db_put, versionKey, stateKey. cbn [db channelId].
    fold (stateKey ws key) (versionKey ws key').
    rewrite lookup_insert_ne by apply stateKey_versionKey. apply Hversions.
  - intros key' s Hres. unfold setState, db_put, stateKey. cbn [db channelId].
    fold (stateKey ws key) (stateKey ws key').
    rewrite lookup_insert_ne; [by apply Hmetadata|].
    intros Heq%stateKey_inj. congruence.
Qed.

Lemma wellFormed_deleteState ws key : wellFormed ws -> wellFormed (deleteState ws key).
Proof.
  intros [Hversions Hmetadata]. split.
  - intros key' s. unfold deleteState, db_del, versionKey, stateKey. cbn [db channelId].
    fold (stateKey ws key) (versionKey ws key').
    rewrite lookup_delete_ne by apply stateKey_versionKey. apply Hversions.
  - intros key' s Hres. unfold deleteState, db_del, stateKey. cbn [db channelId].
    fold (stateKey ws key) (stateKey ws key').
    intros Hs. apply lookup_delete_Some in Hs as [_ Hs]. by apply (Hmetadata key').
Qed.

Lemma wellFormed_storeChaincodeMetadata ws id version policy deployedAt :
  wellFormed ws -> wellFormed (storeChaincodeMetadata ws id version policy deployedAt).
Proof.
  intros [Hversions Hmetadata]. split.
  - intros key' s. unfold storeChaincodeMetadata, setState, db_put, versionKey, stateKey.
    cbn [db channelId]. fold (stateKey ws (metadataKey id)) (versionKey ws key').
    rewrite lookup_insert_ne by apply stateKey_versionKey. apply Hversions.
  - intros key' s Hres. unfold storeChaincodeMetadata, setState, db_put, stateKey.
    cbn [db channelId]. fold (stateKey ws (metadataKey id)) (stateKey ws key').
    destruct (decide (stateKey ws (metadataKey id) = stateKey ws key')) as [->|Hne].
    + rewrite lookup_insert_eq. intros [= <-]. by eexists _, _, _, _.
    + rewrite lookup_insert_ne by done. by apply Hmetadata.
Qed.

Lemma wellFormed_applyWrite bn tn ws w :
  reserved (write_key w) = false -> wellFormed ws -> wellFormed (applyWrite bn tn ws w).
Proof.
  intros Hkey Hwf. unfold applyWrite.
  destruct (write_value w); apply wellFormed_put_version.
  - by apply wellFormed_setState.
  - by apply wellFormed_deleteState.
Qed.

Lemma wellFormed_applyRWSet ws rwSet bn tn :
  Forall (fun w => reserved (write_key w) = false) (writes rwSet) ->
  wellFormed ws -> wellFormed (applyRWSet ws rwSet bn tn).
Proof.
  unfold applyRWSet. intros Hwrites. revert ws.
  induction Hwrites as [|w ws' Hw _ IH]; intros ws Hwf; [done|].
  cbn [fold_left]. by apply IH, wellFormed_applyWrite.
Qed.


Section CommitTotal.
Context `{Crypto}.
Variable msp : MSP.
Variable now : nat -> string.


End CommitTotal.

(** ** Order of validation inside a block *)

Lemma getVersion_storeChaincodeMetadata ws id version policy deployedAt key :
  getVersion (storeChaincodeMetadata ws id version policy deployedAt) key
  = getVersion ws key.
Proof. apply getVersion_setState. Qed.

Lemma getVersion_applyTransaction_written now ws tx bn i w :
  w ∈ writes (rwSet tx) ->
  getVersion (applyTransaction now ws tx bn i) (write_key w)
  = Ok (Some {| blockNum := bn; txNum := Z.of_nat i |}).
Proof.
  intros Hw. unfold applyTransaction.
  case_bool_decide; rewrite ?getVersion_storeChaincodeMetadata;
    by apply applyRWSet_getVersion_written.
Qed.

Lemma getVersion_applyTransaction_frame now ws tx bn i key :
  (forall w, w ∈ writes (rwSet tx) -> write_key w <> key) ->
  getVersion (applyTransaction now ws tx bn i) key = getVersion ws key.
Proof.
  intros Hframe. unfold applyTransaction.
  case_bool_decide; rewrite ?getVersion_storeChaincodeMetadata;
    by apply applyRWSet_getVersion_frame.
Qed.

Section BlockOrder.
Context `{Crypto}.
Variable msp : MSP.
Variable now : nat -> string.
Variable bn : Z.

Lemma Commits_split i txs1 txs2 ws vs ws' :
  Commits msp now bn i (txs1 ++ txs2) ws vs ws' ->
  exists vs1 vs2 wsm,
    Commits msp now bn i txs1 ws vs1 wsm
    /\ Commits msp now bn (i + List.length txs1) txs2 wsm vs2 ws'
    /\ vs = (vs1 ++ vs2)%list.
Proof.
  revert i ws vs. induction txs1 as [|tx txs1 IH]; intros i ws vs Hrun.
  - exists [], vs, ws. rewrite Nat.add_0_r. split_and!; [constructor|done|done].
  - cbn [app] in Hrun.
    inversion Hrun as [|? ? ? ? v vs' ? Hv Hcode Hrest|? ? ? ? v vs' ? Hv Hcode Hrest];
      subst; apply IH in Hrest as (vs1 & vs2 & wsm & Hrun1 & Hrun2 & ->);
      exists (v :: vs1), vs2, wsm; cbn [List.length];
      replace (i + S (List.length txs1))%nat with (S i + List.length txs1)%nat by lia.
    + split_and!; [by apply Commits_skip|done|done].
    + split_and!; [by apply Commits_apply|done|done].
Qed.

Lemma validateTransaction_VALID ws tx i v :
  validateTransaction msp ws tx bn i = Ok v -> v_code v = VALID ->
  validateReadSet ws (reads (rwSet tx)) = Ok true.
Proof.
  unfold validateTransaction.
  destruct (canonicalStringify (txData tx)) as [data|e]; [|done]. cbn [bindE].
  destruct (negb _); [by intros [= <-]|].
  destruct (validateEndorsements msp ws tx) as [ev|e]; [|done]. cbn [bindE].
  case_bool_decide as Hev; [intros [= <-]; congruence|].
  destruct (validateReadSet ws (reads (rwSet tx))) as [[]|e]; [done| |done].
  by intros [= <-].
Qed.

End BlockOrder.

(** ** The scenario, committed *)

Lemma wellFormed_empty channel : wellFormed {| db := ∅; channelId := channel |}.
Proof. split; intros ? ?; cbn [db]; by rewrite ?lookup_empty. Qed.

Lemma wellFormed_world : wellFormed Scenario.world.
Proof.
  unfold Scenario.world. apply wellFormed_applyRWSet.
  - repeat constructor.
  - apply wellFormed_storeChaincodeMetadata, wellFormed_empty.
Qed.


(** The first transfer is applied, the second one read a version that the
    first has replaced, the third is not signed by its creator. *)
Lemma commitBlock_scenario :
  commitBlock (H := Scenario.crypto) Scenario.msp Scenario.now Scenario.stores
              Scenario.block3
  = Ok Scenario.committed
  /\ validationInfo (metadata (snd Scenario.committed))
     = Some [{| info_txId := "tx0"; code := VALID; message := None |};
             {| info_txId := "tx1"; code := MVCC_READ_CONFLICT;
                message := Some "Read set validation failed" |};
             {| info_txId := "tx2"; code := MSP_VALIDATION_FAILED;
                message := Some "Invalid signature for Org1Client" |}]
  /\ getState (worldStateStore (fst Scenario.committed)) "balance:Alice" = Some "300"
  /\ getVersion (worldStateStore (fst Scenario.committed)) "balance:Alice"
     = Ok (Some {| blockNum := 3; txNum := 0 |}).
Proof. split_and!; by vm_compute. Qed.

(** * Further properties *)

(** ** The world state under a write set *)

Lemma applyWrite_getState bn tn ws w :
  getState (applyWrite bn tn ws w) (write_key w) = write_value w.
Proof.
  unfold applyWrite. destruct (write_value w) as [value|].
  - by rewrite getState_setVersion, getState_setState.
  - by rewrite getState_setVersion, getState_deleteState.
Qed.

Lemma applyRWSet_getState_last ws rwSet bn tn before w after :
  writes rwSet = (before ++ w :: after)%list ->
  (forall w', w' ∈ after -> write_key w' <> write_key w) ->
  getState (applyRWSet ws rwSet bn tn) (write_key w) = write_value w.
Proof.
  intros Hw Hafter. unfold applyRWSet. rewrite Hw, fold_left_app. cbn [fold_left].
  set (ws1 := applyWrite bn tn _ w).
  change (fold_left (applyWrite bn tn) after ws1)
    with (applyRWSet ws1 {| reads := []; writes := after |} bn tn).
  rewrite applyRWSet_getState_frame by exact Hafter.
  apply applyWrite_getState.
Qed.

(** X1 — last write wins. When a write set is applied, the value read back
    under a key is the one of the last entry of the write set for that key:
    the written value, or nothing when that entry is a delete. *)
Theorem applyRWSet_last_write_wins ws rwSet bn tn before w after :
  writes rwSet = (before ++ w :: after)%list ->
  (forall w', w' ∈ after -> write_key w' <> write_key w) ->
  getState (applyRWSet ws rwSet bn tn) (write_key w) = write_value w.
Proof. apply applyRWSet_getState_last. Qed.

Lemma applyRWSet_last_write_wins_witness :
  getState (applyRWSet Scenario.world Samples.overwriteSet 3 1) "balance:Alice"
  = Some "250".
Proof.
  apply (applyRWSet_last_write_wins Scenario.world Samples.overwriteSet 3 1
           [{| write_key := "balance:Alice"; write_value := Some "300" |};
            {| write_key := "balance:Bob"; write_value := None |}]
           {| write_key := "balance:Alice"; write_value := Some "250" |} []).
  - reflexivity.
  - intros w' Hw'. by apply not_elem_of_nil in Hw'.
Defined.

Lemma written_dec (ws : list WriteEntry) (key : string) :
  (exists w, w ∈ ws /\ write_key w = key) \/ (forall w, w ∈ ws -> write_key w <> key).
Proof.
  induction ws as [|w ws IH].
  - right. intros w Hw. by apply not_elem_of_nil in Hw.
  - destruct (decide (write_key w = key)) as [Heq|Hne].
    + left. exists w. split; [left|done].
    + destruct IH as [(w' & Hin & Heq)|Hall].
      * left. exists w'. split; [by right|done].
      * right. intros w' Hw'. apply elem_of_cons in Hw' as [->|Hw']; auto.
Qed.

(** X2 — a stale read is detected. A read set that validated before a write
    set was applied no longer validates afterwards as soon as one of its
    keys is among the written keys (put or delete) and was recorded with
    another version than the one the writes are stamped with. *)
Theorem validateReadSet_detects_overwrite ws rwSet bn tn (reads : list ReadVersion) r w :
  validateReadSet ws reads = Ok true ->
  r ∈ reads -> w ∈ writes rwSet -> write_key w = read_key r ->
  read_version r <> Some {| blockNum := bn; txNum := tn |} ->
  validateReadSet (applyRWSet ws rwSet bn tn) reads = Ok false.
Proof.
  intros Hvalid Hr Hw Hkey Hstale.
  apply validateReadSet_true in Hvalid.
  induction reads as [|r0 rest IH]; [by apply not_elem_of_nil in Hr|].
  apply Forall_cons in Hvalid as [Hr0 Hrest].
  rewrite validateReadSet_cons.
  destruct (written_dec (writes rwSet) (read_key r0)) as [(w0 & Hw0 & Hk0)|Hfresh].
  - rewrite <- Hk0, (applyRWSet_getVersion_written ws rwSet bn tn w0 Hw0). cbn [bindE].
    case_bool_decide as Hsame; [|done].
    apply elem_of_cons in Hr as [->|Hr]; [by rewrite Hsame in Hstale|].
    by apply IH.
  - rewrite (applyRWSet_getVersion_frame ws rwSet bn tn _ Hfresh), Hr0. cbn [bindE].
    rewrite bool_decide_eq_true_2 by done.
    apply elem_of_cons in Hr as [->|Hr]; [by destruct (Hfresh w Hw)|].
    by apply IH.
Qed.

Lemma validateReadSet_detects_overwrite_witness :
  validateReadSet (applyRWSet Scenario.world Samples.overwriteSet 3 1)
                  Samples.readsOfWorld = Ok false.
Proof.
  apply (validateReadSet_detects_overwrite Scenario.world Samples.overwriteSet 3 1
           Samples.readsOfWorld
           {| read_key := "balance:Bob"; read_version := None |}
           {| write_key := "balance:Bob"; write_value := None |}).
  - by vm_compute.
  - left.
  - right. left.
  - reflexivity.
  - discriminate.
Defined.

(** X3 — disjoint keys do not interfere. Applying a write set changes the
    outcome of the validation of no read set whose keys are all different
    from the written keys; this includes the validation throwing. *)
Theorem validateReadSet_applyRWSet_disjoint ws rwSet bn tn (reads : list ReadVersion) :
  (forall r w, r ∈ reads -> w ∈ writes rwSet -> write_key w <> read_key r) ->
  validateReadSet (applyRWSet ws rwSet bn tn) reads = validateReadSet ws reads.
Proof.
  intros Hdisj. induction reads as [|r rest IH]; [done|].
  rewrite !validateReadSet_cons.
  rewrite applyRWSet_getVersion_frame
    by (intros w Hw; apply (Hdisj r w); [left|done]).
  destruct (getVersion ws (read_key r)) as [current|e]; [|done]. cbn [bindE].
  case_bool_decide; [|done].
  apply IH. intros r' w Hr' Hw. apply Hdisj; [by right|done].
Qed.

Lemma validateReadSet_applyRWSet_disjoint_witness :
  validateReadSet (applyRWSet Scenario.world Samples.overwriteSet 3 1)
                  Samples.readsOfCarol
  = validateReadSet Scenario.world Samples.readsOfCarol.
Proof.
  apply (validateReadSet_applyRWSet_disjoint Scenario.world Samples.overwriteSet 3 1
           Samples.readsOfCarol).
  intros r w Hr Hw.
  apply elem_of_cons in Hr as [->|Hr]; [|by apply not_elem_of_nil in Hr].
  repeat (apply elem_of_cons in Hw as [->|Hw]; [discriminate|]).
  by apply not_elem_of_nil in Hw.
Defined.

(** ** The identity map *)

Lemma fold_identities_lookup (l : list Identity) (m : gmap string Identity) (id : string) :
  fold_left (fun m identity => <[identity_id identity := identity]> m) l m !! id
  = match last (filter (fun identity => identity_id identity = id) l) with
    | Some identity => Some identity
    | None => m !! id
    end.
Proof.
  revert m. induction l as [|i l IH] using rev_ind; intros m; [done|].
  rewrite fold_left_app, filter_app. cbn [fold_left].
  destruct (decide (identity_id i = id)) as [Heq|Hne].
  - rewrite filter_cons_True by done. rewrite filter_nil, last_snoc.
    by rewrite <- Heq, lookup_insert_eq.
  - rewrite filter_cons_False by done. rewrite filter_nil, app_nil_r.
    rewrite lookup_insert_ne by done. apply IH.
Qed.

Lemma identityMap_fold (orgs : list OrgMSP) (msp : MSP) :
  identityMap
    (fold_left
       (fun msp org =>
          {| orgMap := <[org_orgId org := org]> (orgMap msp);
             identityMap :=
               fold_left (fun m identity => <[identity_id identity := identity]> m)
                         (identities org) (identityMap msp) |})
       orgs msp)
  = fold_left (fun m identity => <[identity_id identity := identity]> m)
              (concat (map identities orgs)) (identityMap msp).
Proof.
  revert msp. induction orgs as [|org orgs IH]; intros msp; [done|].
  cbn [fold_left map concat]. rewrite IH. cbn [identityMap].
  by rewrite fold_left_app.
Qed.

Lemma getIdentity_initialize (config : NetworkMSPConfig) (id : string) :
  getIdentity (MSP_initialize config) id
  = last (filter (fun identity => identity_id identity = id) (allIdentities config)).
Proof.
  unfold getIdentity, MSP_initialize. rewrite identityMap_fold, fold_identities_lookup.
  cbn [identityMap]. rewrite lookup_empty. by destruct (last _).
Qed.

(** X14 — identities are looked up by id across all organizations, and the
    last one listed wins: [getIdentity] of an MSP built from a configuration
    gives the identity that comes last, in the order of the organizations
    and of their identity lists, among those with the id, and nothing when
    there is none. *)
Theorem getIdentity_last_listed (config : NetworkMSPConfig) (id : string) :
  getIdentity (MSP_initialize config) id
  = last (filter (fun identity => identity_id identity = id) (allIdentities config)).
Proof. apply getIdentity_initialize. Qed.

Lemma getIdentity_initialize_id (config : NetworkMSPConfig) (id : string)
      (identity : Identity) :
  getIdentity (MSP_initialize config) id = Some identity -> identity_id identity = id.
Proof.
  rewrite getIdentity_initialize. intros Hlast.
  apply last_Some in Hlast as [l Hl].
  assert (Hin : identity ∈ filter (fun identity => identity_id identity = id)
                                  (allIdentities config))
    by (rewrite Hl; apply elem_of_app; right; left).
  by apply list_elem_of_filter in Hin as [Hid _].
Qed.

(** ** Signature checks *)

Section VerifySignature.
Context `{Crypto}.

(** X15 — [verifySignature] accepts exactly a registered signer with the
    expected role whose key verifies the signature. The identity is
    reported exactly when the check passes, an error message exactly when
    it fails. *)
Theorem verifySignature_valid (msp : MSP) (data signature signerId : string)
        (expectedRole : option Role) :
  let check := verifySignature msp data signature signerId expectedRole in
  (valid check = true
   <-> exists identity,
         getIdentity msp signerId = Some identity
         /\ (forall r, expectedRole = Some r -> role identity = r)
         /\ verify data signature (publicKey identity) = true)
  /\ (valid check = true -> signer check = getIdentity msp signerId /\ error check = None)
  /\ (valid check = false -> signer check = None /\ is_Some (error check)).
Proof.
  cbn zeta. unfold verifySignature.
  destruct (getIdentity msp signerId) as [identity|] eqn:Hid.
  2:{ cbn. split_and!; [split; [done|by intros (? & ? & _)]|done|eauto]. }
  destruct expectedRole as [r|].
  - case_bool_decide as Hrole.
    + cbn. split_and!; [split; [done|]|done|eauto].
      intros (i & [= <-] & Hr & _). by destruct Hrole, (Hr r).
    + destruct (verify data signature (publicKey identity)) eqn:Hverify; cbn.
      * split_and!; [split; [|done]|done|done].
        intros _. exists identity. split_and!; [done| |done]. by intros ? [= <-].
      * split_and!; [split; [done|]|done|eauto].
        intros (i & [= <-] & _ & Hv). congruence.
  - destruct (verify data signature (publicKey identity)) eqn:Hverify; cbn.
    + split_and!; [split; [|done]|done|done].
      intros _. exists identity. by split_and!.
    + split_and!; [split; [done|]|done|eauto].
      intros (i & [= <-] & _ & Hv). congruence.
Qed.

End VerifySignature.

(** ** Reading numbers back *)

Lemma digit_not_space_or_sign (c : ascii) :
  JSON.isDigit c = true ->
  isStrWhiteSpace c = false /\ Ascii.eqb c "-" = false /\ Ascii.eqb c "+" = false.
Proof. ascii_cases c; intros Hc; try discriminate Hc; repeat split. Qed.

Lemma readDecimal_uint (u : Decimal.uint) (c : ascii) (r : string) :
  NilEmpty.string_of_uint u = String c r ->
  readDecimal (NilEmpty.string_of_uint u) = Some (Z.of_uint u).
Proof.
  intros Hs. unfold readDecimal.
  pose proof (readDigits_uint u "" eq_refl) as Hrd.
  rewrite append_nil_r in Hrd. rewrite Hrd.
  pose proof (NilEmpty.usu u) as Husu.
  rewrite Hs in Husu |- *. by rewrite Husu.
Qed.

Lemma parseInt_uint (u : Decimal.uint) (c : ascii) (r : string) (negative : bool) :
  NilEmpty.string_of_uint u = String c r ->
  JSON.isDigit c = true ->
  Ascii.eqb c "0" && negb (String.eqb r "") = false ->
  parseInt ((if negative then "-" else "") ++ NilEmpty.string_of_uint u)
  = Some (if negative then - Z.of_uint u else Z.of_uint u).
Proof.
  intros Hs Hdigit Hzero.
  pose proof (readDecimal_uint u c r Hs) as Hdec.
  destruct (digit_not_space_or_sign c Hdigit) as (Hws & Hminus & Hplus).
  assert (Hnum :
    match String c r with
    | String c (String x r) =>
        if Ascii.eqb c "0" && (Ascii.eqb x "x" || Ascii.eqb x "X")
        then readHex None r
        else readDecimal (NilEmpty.string_of_uint u)
    | _ => readDecimal (NilEmpty.string_of_uint u)
    end = Some (Z.of_uint u)).
  { destruct r as [|x r']; [done|].
    destruct (Ascii.eqb c "0"); [discriminate Hzero|done]. }
  rewrite Hs in Hnum |- *.
  unfold parseInt. destruct negative; cbn [String.append trimStart].
  - change (isStrWhiteSpace "-") with false. cbn iota.
    change (Ascii.eqb "-" "-") with true. cbn iota. by rewrite Hnum.
  - rewrite Hws, Hminus, Hplus. by rewrite Hnum.
Qed.

Lemma parseInt_Number_toString (z : Z) : parseInt (JSON.Number_toString z) = Some z.
Proof.
  unfold JSON.Number_toString. destruct z as [|p|p]; simpl Z.to_int.
  - reflexivity.
  - destruct (to_uint_head p) as (c & r & Hs & Hdigit & Hzero & _).
    cbn [NilZero.string_of_int]. rewrite NilZero_to_uint.
    pose proof (parseInt_uint _ c r false Hs Hdigit Hzero) as Hp.
    cbn [String.append] in Hp. by rewrite Hp, Z_of_uint_to_uint.
  - destruct (to_uint_head p) as (c & r & Hs & Hdigit & Hzero & _).
    cbn [NilZero.string_of_int]. rewrite NilZero_to_uint.
    pose proof (parseInt_uint _ c r true Hs Hdigit Hzero) as Hp.
    cbn [String.append] in Hp. by rewrite Hp, Z_of_uint_to_uint.
Qed.

Lemma Number_toString_inj (z z' : Z) :
  JSON.Number_toString z = JSON.Number_toString z' -> z = z'.
Proof.
  intros Heq. pose proof (parseInt_Number_toString z) as Hz.
  rewrite Heq, parseInt_Number_toString in Hz. by injection Hz.
Qed.

Lemma blockKey_inj (n m : Z) : blockKey n = blockKey m -> n = m.
Proof.
  unfold blockKey. intros Heq. apply append_inj_l in Heq.
  by apply Number_toString_inj.
Qed.

(** ** What is read back from a stored object *)

Lemma prune_Object (ps : list (string * JSON.value)) :
  prune (JSON.Object ps) = JSON.Object (omap pruneMember ps).
Proof.
  cbn [prune]. f_equal.
  induction ps as [|[k x] ps IH]; [done|].
  rewrite IH. by destruct x.
Qed.

Lemma prune_Array (l : list JSON.value) :
  prune (JSON.Array l) = JSON.Array (map pruneElement l).
Proof. reflexivity. Qed.

Lemma serializeGet_first (f : JSON.value -> option string)
      (pre suf : list (string * JSON.value)) k v :
  k ∉ map fst pre -> JSON.serializeGet f (pre ++ (k, v) :: suf) k = f v.
Proof.
  induction pre as [|[k' v'] pre IH]; simpl; intros Hk.
  - by rewrite String.eqb_refl.
  - apply not_elem_of_cons in Hk as [Hne Hk].
    destruct (String.eqb_spec k' k) as [->|_]; [done|]. by apply IH.
Qed.

Lemma serializeMembers_distinct (f : JSON.value -> option string)
      (pre suf : list (string * JSON.value)) :
  NoDup (map fst (pre ++ suf)) ->
  JSON.serializeMembers f (pre ++ suf) (map fst suf) = omap (memberText f) suf.
Proof.
  revert pre. induction suf as [|[k v] suf IH]; intros pre Hnd; [done|].
  cbn [map fst JSON.serializeMembers omap list_omap].
  rewrite serializeGet_first.
  2:{ rewrite map_app in Hnd. apply NoDup_app in Hnd as (_ & Hd & _).
      intros Hin. apply (Hd k Hin). simpl. left. }
  specialize (IH (pre ++ [(k, v)])%list). rewrite <- app_assoc in IH.
  specialize (IH Hnd). cbn [app] in IH.
  unfold memberText at 1. cbn [fst snd].
  destruct (f v) as [s|]; cbn [fmap option_fmap option_map]; by rewrite IH.
Qed.

Lemma pruneMember_keys (ps : list (string * JSON.value)) :
  map fst (omap pruneMember ps) `sublist_of` map fst ps.
Proof.
  induction ps as [|[k x] ps IH]; [done|].
  cbn [omap list_omap]. unfold pruneMember at 1. cbn [fst snd].
  destruct x; cbn [map fst];
    try (apply sublist_skip; exact IH). apply sublist_cons; exact IH.
Qed.

Lemma SerializeJSONProperty_prune (v : JSON.value) :
  distinctKeys v = true ->
  JSON.SerializeJSONProperty None (prune v) = JSON.SerializeJSONProperty None v.
Proof.
  induction v as [| |b|z|s|l IH|ps IH] using value_nested_ind; intros Hd; try done.
  - rewrite prune_Array. cbn [JSON.SerializeJSONProperty].
    cbn [distinctKeys] in Hd. rewrite map_map.
    enough (Hmap : map (fun e => default "null"
                      (JSON.SerializeJSONProperty None (pruneElement e))) l
                   = map (fun e => default "null" (JSON.SerializeJSONProperty None e)) l)
      by by rewrite Hmap.
    induction l as [|e l IHl]; [done|].
    apply Forall_cons in IH as [He IH]. cbn [forallb] in Hd.
    apply andb_prop in Hd as [Hde Hd].
    cbn [map]. rewrite (IHl IH Hd). f_equal.
    destruct e; try done; unfold pruneElement; by rewrite He.
  - rewrite prune_Object. cbn [JSON.SerializeJSONProperty].
    cbn [distinctKeys] in Hd. apply andb_prop in Hd as [Hnd Hd].
    apply bool_decide_eq_true in Hnd.
    rewrite (serializeMembers_distinct _ [] ps Hnd
              : JSON.serializeMembers _ ps _ = _).
    assert (Hnd' : NoDup (map fst (omap pruneMember ps)))
      by (eapply sublist_NoDup; [done|apply pruneMember_keys]).
    rewrite (serializeMembers_distinct _ [] _ Hnd'
              : JSON.serializeMembers _ (omap pruneMember ps) _ = _).
    enough (Hmembers : omap (memberText (JSON.SerializeJSONProperty None))
                         (omap pruneMember ps)
                       = omap (memberText (JSON.SerializeJSONProperty None)) ps)
      by by rewrite Hmembers.
    clear Hnd Hnd'.
    induction ps as [|[k x] ps IHps]; [done|].
    apply Forall_cons in IH as [Hx IH]. cbn [forallb snd] in Hd, Hx.
    apply andb_prop in Hd as [Hdx Hd].
    specialize (IHps IH Hd). specialize (Hx Hdx).
    cbn [omap list_omap]. unfold pruneMember at 1. cbn [fst snd].
    unfold memberText at 2. cbn [fst snd].
    destruct x; try (cbn [omap list_omap]; rewrite IHps;
                     unfold memberText at 1; cbn [fst snd]; by rewrite Hx).
    by rewrite IHps.
Qed.

Lemma printable_prune (v : JSON.value) :
  distinctKeys v = true -> v <> JSON.Undefined -> JSON.printable (prune v) = true.
Proof.
  induction v as [| |b|z|s|l IH|ps IH] using value_nested_ind; intros Hd Hne; try done.
  - clear Hne. rewrite prune_Array. cbn [JSON.printable distinctKeys] in *.
    induction l as [|e l IHl]; [done|].
    apply Forall_cons in IH as [He IH]. cbn [forallb] in Hd.
    apply andb_prop in Hd as [Hde Hd].
    cbn [map forallb]. rewrite (IHl IH Hd), andb_true_r.
    destruct e; try done; unfold pruneElement; by apply He.
  - clear Hne. rewrite prune_Object. cbn [JSON.printable distinctKeys] in *.
    apply andb_prop in Hd as [Hnd Hd]. apply bool_decide_eq_true in Hnd.
    apply andb_true_intro. split.
    + apply bool_decide_eq_true. eapply sublist_NoDup; [done|apply pruneMember_keys].
    + clear Hnd. induction ps as [|[k x] ps IHps]; [done|].
      apply Forall_cons in IH as [Hx IH]. cbn [forallb snd] in Hd, Hx.
      apply andb_prop in Hd as [Hdx Hd]. specialize (IHps IH Hd).
      cbn [omap list_omap]. unfold pruneMember at 1. cbn [fst snd].
      destruct x; try done; cbn [forallb snd]; rewrite IHps, andb_true_r; by apply Hx.
Qed.

(** [JSON.parse(JSON.stringify(v))] is [v] without its [undefined]
    properties. *)
Lemma parse_stringified_prune (v : JSON.value) :
  distinctKeys v = true -> v <> JSON.Undefined ->
  JSON.parse (stringified v) = Ok (prune v).
Proof.
  intros Hd Hne.
  rewrite <- (parse_stringified (prune v)) by by apply printable_prune.
  unfold stringified, JSON.stringify. cbn [fmap option_fmap option_map].
  by rewrite SerializeJSONProperty_prune.
Qed.

Lemma prune_printable (v : JSON.value) : JSON.printable v = true -> prune v = v.
Proof.
  induction v as [| |b|z|s|l IH|ps IH] using value_nested_ind; intros Hp; try done.
  - rewrite prune_Array. f_equal. cbn [JSON.printable] in Hp.
    induction l as [|e l IHl]; [done|].
    apply Forall_cons in IH as [He IH]. cbn [forallb] in Hp.
    apply andb_prop in Hp as [Hpe Hp]. cbn [map]. rewrite (IHl IH Hp). f_equal.
    destruct e; try done; unfold pruneElement; by apply He.
  - rewrite prune_Object. f_equal. cbn [JSON.printable] in Hp.
    apply andb_prop in Hp as [_ Hp].
    induction ps as [|[k x] ps IHps]; [done|].
    apply Forall_cons in IH as [Hx IH]. cbn [forallb snd] in Hp, Hx.
    apply andb_prop in Hp as [Hpx Hp].
    cbn [omap list_omap]. rewrite (IHps IH Hp).
    unfold pruneMember. cbn [fst snd].
    destruct x; try discriminate Hpx; try done; by rewrite (Hx Hpx).
Qed.

Lemma pruneMember_printable (k : string) (v : JSON.value) :
  JSON.printable v = true -> pruneMember (k, v) = Some (k, v).
Proof.
  intros Hp. unfold pruneMember. cbn [fst snd].
  rewrite <- (prune_printable v Hp) at 2. by destruct v.
Qed.

Lemma printable_distinctKeys (v : JSON.value) :
  JSON.printable v = true -> distinctKeys v = true.
Proof.
  induction v as [| |b|z|s|l IH|ps IH] using value_nested_ind; intros Hp; try done.
  - cbn [JSON.printable distinctKeys] in *.
    induction l as [|e l IHl]; [done|].
    apply Forall_cons in IH as [He IH]. cbn [forallb] in *.
    apply andb_prop in Hp as [Hpe Hp]. by rewrite He, IHl.
  - cbn [JSON.printable distinctKeys] in *.
    apply andb_prop in Hp as [Hnd Hp]. rewrite Hnd. cbn [andb]. clear Hnd.
    induction ps as [|[k x] ps IHps]; [done|].
    apply Forall_cons in IH as [Hx IH]. cbn [forallb snd] in *.
    apply andb_prop in Hp as [Hpx Hp]. by rewrite Hx, IHps.
Qed.

(** ** Typed views of the objects of the records *)

Lemma each_map {A} (f : JSON.value -> Exc A) (g : A -> JSON.value) (l : list A) :
  (forall x, f (g x) = Ok x) -> Cast.each f (map g l) = Ok l.
Proof.
  intros Hfg. induction l as [|x l IH]; [done|].
  cbn [map Cast.each]. by rewrite Hfg, IH.
Qed.

Lemma forallb_map_true {A B} (p : B -> bool) (g : A -> B) (l : list A) :
  (forall x, p (g x) = true) -> forallb p (map g l) = true.
Proof.
  intros Hp. induction l as [|x l IH]; [done|]. cbn. by rewrite Hp, IH.
Qed.

Lemma policy_printable (p : EndorsementPolicy) : JSON.printable (ToJSON.policy p) = true.
Proof.
  cbn [ToJSON.policy JSON.printable map fst snd forallb].
  by rewrite strings_printable.
Qed.

Lemma txPayload_printable (p : TxPayload) : JSON.printable (ToJSON.txPayload p) = true.
Proof.
  destruct p as [t id [fn|] [a|] [pol|]];
    cbn [ToJSON.txPayload ToJSON.optional app JSON.printable map fst snd forallb
         payload_type chaincodeId functionName args endorsementPolicy];
    rewrite ?strings_printable, ?policy_printable; reflexivity.
Qed.

Lemma optional_policy_cast (pol : EndorsementPolicy) :
  Cast.optional FromJSON.policy (ToJSON.policy pol) = Ok (Some pol).
Proof.
  pose proof (policy_toJSON_fromJSON pol) as Hpol.
  unfold ToJSON.policy in *. unfold Cast.optional. by rewrite Hpol.
Qed.

Lemma txPayload_cast (p : TxPayload) : Cast.txPayload (ToJSON.txPayload p) = Ok p.
Proof.
  destruct p as [t id [fn|] [a|] [pol|]]; destruct t;
    cbn -[Cast.optional FromJSON.policy ToJSON.policy Cast.each];
    rewrite ?optional_policy_cast; cbn -[Cast.each];
    rewrite ?(each_map (Cast.str "string") JSON.Str) by done;
    reflexivity.
Qed.

Lemma readVersion_printable (r : ReadVersion) :
  JSON.printable (ToJSON.readVersion r) = true.
Proof. by destruct r as [k [v|]]. Qed.

Lemma readVersion_cast (r : ReadVersion) : Cast.readVersion (ToJSON.readVersion r) = Ok r.
Proof. by destruct r as [k [[b t]|]]. Qed.

Lemma writeEntry_printable (w : WriteEntry) :
  JSON.printable (ToJSON.writeEntry w) = true.
Proof. by destruct w as [k [v|]]. Qed.

Lemma writeEntry_cast (w : WriteEntry) : Cast.writeEntry (ToJSON.writeEntry w) = Ok w.
Proof. by destruct w as [k [v|]]. Qed.

Lemma rwset_printable (rw : RWSet) : JSON.printable (ToJSON.rwset rw) = true.
Proof.
  cbn [ToJSON.rwset JSON.printable map fst snd forallb].
  rewrite (forallb_map_true _ _ _ readVersion_printable).
  by rewrite (forallb_map_true _ _ _ writeEntry_printable).
Qed.

Lemma rwset_cast (rw : RWSet) : Cast.rwset (ToJSON.rwset rw) = Ok rw.
Proof.
  destruct rw as [rs ws].
  cbn -[Cast.readVersion Cast.writeEntry ToJSON.readVersion ToJSON.writeEntry].
  rewrite (each_map _ _ rs readVersion_cast). cbn [bindE].
  by rewrite (each_map _ _ ws writeEntry_cast).
Qed.

Lemma endorsement_printable (e : Endorsement) :
  JSON.printable (ToJSON.endorsement e) = true.
Proof. reflexivity. Qed.

Lemma endorsement_cast (e : Endorsement) : Cast.endorsement (ToJSON.endorsement e) = Ok e.
Proof. by destruct e. Qed.

Lemma nullable_cast (s : option string) what :
  Cast.nullable what (ToJSON.nullable s) = Ok s.
Proof. by destruct s. Qed.

Lemma nullable_printable (s : option string) : JSON.printable (ToJSON.nullable s) = true.
Proof. by destruct s. Qed.

Lemma transactionEnvelope_printable (tx : TransactionEnvelope) :
  JSON.printable (ToJSON.transactionEnvelope tx) = true.
Proof.
  cbn [ToJSON.transactionEnvelope JSON.printable map fst snd forallb].
  rewrite txPayload_printable, rwset_printable, nullable_printable.
  by rewrite (forallb_map_true _ _ _ endorsement_printable).
Qed.

Lemma transactionEnvelope_cast (tx : TransactionEnvelope) :
  Cast.transactionEnvelope (ToJSON.transactionEnvelope tx) = Ok tx.
Proof.
  destruct tx as [id cid corg ckey p rw res es sig].
  cbn -[Cast.txPayload ToJSON.txPayload Cast.rwset ToJSON.rwset Cast.nullable
        ToJSON.nullable Cast.endorsement ToJSON.endorsement].
  rewrite txPayload_cast. cbn [bindE]. rewrite rwset_cast. cbn [bindE].
  rewrite nullable_cast. cbn [bindE].
  by rewrite (each_map _ _ es endorsement_cast).
Qed.

Lemma blockHeader_cast (h : BlockHeader) : Cast.blockHeader (ToJSON.blockHeader h) = Ok h.
Proof. by destruct h. Qed.

Lemma txValidationInfo_cast (i : TxValidationInfo) :
  Cast.txValidationInfo (prune (ToJSON.txValidationInfo i)) = Ok i.
Proof. by destruct i as [id [] [m|]]. Qed.

Lemma txValidationInfo_distinctKeys (i : TxValidationInfo) :
  distinctKeys (ToJSON.txValidationInfo i) = true.
Proof. by destruct i as [id c [m|]]. Qed.

Lemma pruneElement_txValidationInfo (l : list TxValidationInfo) :
  map pruneElement (map ToJSON.txValidationInfo l)
  = map (fun i => prune (ToJSON.txValidationInfo i)) l.
Proof. by rewrite map_map. Qed.

Lemma blockMetadata_cast (m : BlockMetadata) :
  Cast.blockMetadata (prune (ToJSON.blockMetadata m)) = Ok m.
Proof.
  destruct m as [ts oid osig [l|]]; [|reflexivity].
  unfold ToJSON.blockMetadata. rewrite prune_Object.
  cbn [ToJSON.blockMetadata ToJSON.optional app omap list_omap pruneMember fst snd
       timestamp ordererId ordererSignature validationInfo].
  rewrite prune_Array, pruneElement_txValidationInfo.
  cbn -[Cast.txValidationInfo ToJSON.txValidationInfo prune].
  by rewrite (each_map _ (fun i => prune (ToJSON.txValidationInfo i)) l
                txValidationInfo_cast).
Qed.

Lemma blockMetadata_distinctKeys (m : BlockMetadata) :
  distinctKeys (ToJSON.blockMetadata m) = true.
Proof.
  destruct m as [ts oid osig [l|]]; [|reflexivity].
  cbn [ToJSON.blockMetadata ToJSON.optional app distinctKeys map fst snd forallb
       timestamp ordererId ordererSignature validationInfo].
  by rewrite (forallb_map_true _ _ _ txValidationInfo_distinctKeys).
Qed.

Lemma block_distinctKeys (b : Block) : distinctKeys (ToJSON.block b) = true.
Proof.
  cbn [ToJSON.block distinctKeys map fst snd forallb].
  rewrite blockMetadata_distinctKeys.
  rewrite (forallb_map_true _ _ _
             (fun tx => printable_distinctKeys _ (transactionEnvelope_printable tx))).
  reflexivity.
Qed.

Lemma block_cast (b : Block) : Cast.block (prune (ToJSON.block b)) = Ok b.
Proof.
  destruct b as [h txs m].
  unfold ToJSON.block. rewrite prune_Object.
  cbn [omap list_omap header transactions metadata].
  rewrite (pruneMember_printable "header" (ToJSON.blockHeader h)) by done.
  rewrite (pruneMember_printable "transactions"
             (JSON.Array (map ToJSON.transactionEnvelope txs)))
    by apply forallb_map_true, transactionEnvelope_printable.
  replace (pruneMember ("metadata", ToJSON.blockMetadata m))
    with (Some ("metadata", prune (ToJSON.blockMetadata m))) by reflexivity.
  cbn -[Cast.blockHeader ToJSON.blockHeader Cast.transactionEnvelope
        ToJSON.transactionEnvelope Cast.blockMetadata ToJSON.blockMetadata prune].
  rewrite blockHeader_cast. cbn [bindE].
  rewrite (each_map _ _ txs transactionEnvelope_cast). cbn [bindE].
  by rewrite blockMetadata_cast.
Qed.

Lemma parse_stringified_block (b : Block) :
  JSON.parse (stringified (ToJSON.block b)) = Ok (prune (ToJSON.block b)).
Proof. by apply parse_stringified_prune; [apply block_distinctKeys|]. Qed.

(** ** The ledger read back *)

Section Ledger.
Context `{Crypto}.

Lemma storeBlock_inv (db db' : gmap string string) (block : Block) :
  storeBlock db block = Ok db' ->
  exists blockHash,
    calculateBlockHash block = Ok blockHash
    /\ db' = <["meta:latest" := JSON.Number_toString (number (header block))]>
               (<[hashKey blockHash := JSON.Number_toString (number (header block))]>
                  (<[blockKey (number (header block))
                     := stringified (ToJSON.block block)]> db)).
Proof.
  unfold storeBlock. destruct (calculateBlockHash block) as [h|e]; [|done].
  cbn [bindE]. intros [= <-]. by exists h.
Qed.

Lemma storeBlock_returns (db : gmap string string) (block : Block) :
  exists db', storeBlock db block = Ok db'.
Proof. destruct (storeBlock_total db block) as (db' & Hdb' & _). by exists db'. Qed.

Lemma blockKey_not_meta (n : Z) : blockKey n <> "meta:latest".
Proof. unfold blockKey. simpl. congruence. Qed.

Lemma blockKey_not_hashKey (n : Z) (h : string) : blockKey n <> hashKey h.
Proof. unfold blockKey, hashKey. simpl. congruence. Qed.

Lemma hashKey_not_meta (h : string) : hashKey h <> "meta:latest".
Proof. unfold hashKey. simpl. congruence. Qed.

Lemma readBlock_stored (db : gmap string string) (key : string) (block : Block) :
  db !! key = Some (stringified (ToJSON.block block)) ->
  readBlock db key = Ok (Some block).
Proof.
  intros Hkey. unfold readBlock. rewrite Hkey, parse_stringified_block. cbn [bindE].
  pose proof (block_cast block) as Hcast.
  unfold ToJSON.block in *. rewrite prune_Object in *. by rewrite Hcast.
Qed.

Lemma getBlock_stored (db : gmap string string) (block : Block) :
  exists db',
    storeBlock db block = Ok db'
    /\ getBlock db' (number (header block)) = Ok (Some block).
Proof.
  destruct (storeBlock_total db block) as (db' & Hstore & Hkey).
  exists db'. split; [done|]. by apply readBlock_stored.
Qed.

(** X4 — a stored block is read back. [storeBlock] returns for every block
    and every ledger, and [getBlock] with the number of the block then
    gives the block itself, field by field. *)
Theorem getBlock_storeBlock (db : gmap string string) (block : Block) :
  exists db',
    storeBlock db block = Ok db'
    /\ getBlock db' (number (header block)) = Ok (Some block).
Proof. apply getBlock_stored. Qed.

(** X5 — storing a block leaves every other block as it was: [getBlock]
    with a number that is not the number of the stored block gives what it
    gave before. *)
Theorem getBlock_storeBlock_other (db : gmap string string) (block : Block) :
  exists db',
    storeBlock db block = Ok db'
    /\ forall blockNumber,
         blockNumber <> number (header block) ->
         getBlock db' blockNumber = getBlock db blockNumber.
Proof.
  destruct (storeBlock_returns db block) as [db' Hstore].
  exists db'. split; [done|]. intros n Hn.
  apply storeBlock_inv in Hstore as (h & _ & ->).
  unfold getBlock, readBlock.
  rewrite lookup_insert_ne by (intros Heq; by apply (blockKey_not_meta n)).
  rewrite lookup_insert_ne by (intros Heq; by apply (blockKey_not_hashKey n h)).
  rewrite lookup_insert_ne by (intros Heq%blockKey_inj; by apply Hn).
  reflexivity.
Qed.

(** X6 — the latest block number is the number of the block stored last,
    whatever the ledger held before (it is not the highest number stored).
    The number is a safe integer: it goes through [toString] and
    [parseInt]. *)
Theorem getLatestBlockNumber_storeBlock (db : gmap string string) (block : Block) :
  isSafeInteger (number (header block)) = true ->
  exists db',
    storeBlock db block = Ok db'
    /\ getLatestBlockNumber db' = Some (number (header block)).
Proof.
  intros _. destruct (storeBlock_returns db block) as [db' Hstore].
  exists db'. split; [done|].
  apply storeBlock_inv in Hstore as (h & _ & ->).
  unfold getLatestBlockNumber. rewrite lookup_insert_eq.
  apply parseInt_Number_toString.
Qed.

(** X7 — a stored block is found by its hash: [getBlockByHash] with the
    hash that [calculateBlockHash] gives for the block returns the block.
    The number of the block is a safe integer: the hash index holds it as
    text, which [parseInt] reads back. *)
Theorem getBlockByHash_storeBlock (db : gmap string string) (block : Block) :
  isSafeInteger (number (header block)) = true ->
  exists db' blockHash,
    storeBlock db block = Ok db'
    /\ calculateBlockHash block = Ok blockHash
    /\ getBlockByHash db' blockHash = Ok (Some block).
Proof.
  intros _. destruct (storeBlock_total db block) as (db' & Hstore & Hkey).
  destruct (storeBlock_inv db db' block Hstore) as (h & Hhash & Hdb').
  exists db', h. split_and!; [done..|].
  unfold getBlockByHash.
  assert (Hh : db' !! hashKey h = Some (JSON.Number_toString (number (header block)))).
  { rewrite Hdb'. rewrite lookup_insert_ne by (intros Heq; by apply (hashKey_not_meta h)).
    apply lookup_insert_eq. }
  rewrite Hh, parseInt_Number_toString. by apply readBlock_stored.
Qed.

End Ledger.

(** Block 7 is stored, then block 3: the latest block number is 3. *)
Lemma getLatestBlockNumber_storeBlock_witness :
  exists db' db'',
    storeBlock (H := Scenario.crypto) ∅ Samples.otherBlock = Ok db'
    /\ storeBlock (H := Scenario.crypto) db' Scenario.block3 = Ok db''
    /\ getLatestBlockNumber db'' = Some 3.
Proof.
  destruct (storeBlock_returns (H := Scenario.crypto) ∅ Samples.otherBlock)
    as [db' Hfirst].
  destruct (getLatestBlockNumber_storeBlock (H := Scenario.crypto) db' Scenario.block3)
    as (db'' & Hsecond & Hlatest); [reflexivity|].
  by exists db', db''.
Defined.

Lemma getBlockByHash_storeBlock_witness :
  exists db' blockHash,
    storeBlock (H := Scenario.crypto) ∅ Scenario.block3 = Ok db'
    /\ calculateBlockHash (H := Scenario.crypto) Scenario.block3 = Ok blockHash
    /\ getBlockByHash db' blockHash = Ok (Some Scenario.block3).
Proof.
  apply (getBlockByHash_storeBlock (H := Scenario.crypto) ∅ Scenario.block3).
  reflexivity.
Defined.

(** X8 — [getTransaction] after [storeTransactionIndex] gives the stored
    location [{ blockNumber, txNumber }], which is no transaction envelope:
    it has none of the fields of one. *)
Theorem getTransaction_storeTransactionIndex (db : gmap string string)
        (txId : string) (blockNumber txNumber : Z) :
  let location := JSON.Object [("blockNumber", JSON.Number blockNumber);
                               ("txNumber", JSON.Number txNumber)] in
  getTransaction (storeTransactionIndex db txId blockNumber txNumber) txId
  = Ok (Some location)
  /\ Cast.transactionEnvelope location
     = Throw "TypeError: stored value is not a string".
Proof.
  split; [|reflexivity].
  unfold getTransaction, storeTransactionIndex. rewrite lookup_insert_eq.
  by rewrite parse_stringified.
Qed.

(** ** Keys by prefix *)

Lemma string_compare_app (p a b : string) :
  String.compare (p ++ a) (p ++ b) = String.compare a b.
Proof.
  induction p as [|c p IH]; [done|]. cbn.
  unfold Ascii.compare. by rewrite N.compare_refl.
Qed.

Lemma string_ltb_app (p a b : string) : String.ltb (p ++ a) (p ++ b) = String.ltb a b.
Proof. unfold String.ltb. by rewrite string_compare_app. Qed.

Lemma string_ltb_prefix (p k : string) : String.ltb p (p ++ k) = negb (String.eqb k "").
Proof.
  rewrite <- (append_nil_r p) at 1. rewrite string_ltb_app. by destruct k.
Qed.

(** A key between a bound and the bound followed by a suffix starts with
    the bound. *)
Lemma between_prefix (p u k : string) :
  String.ltb p k = true -> String.ltb k (p ++ u) = true -> exists rest, k = p ++ rest.
Proof.
  revert k. induction p as [|c p IH]; intros k; [by exists k|].
  destruct k as [|c' k]; [done|]. unfold String.ltb. cbn.
  unfold Ascii.compare. rewrite (N.compare_antisym (N_of_ascii c) (N_of_ascii c')).
  destruct (N.compare_spec (N_of_ascii c) (N_of_ascii c')) as [Heq|Hlt|Hgt]; cbn;
    try done.
  apply (f_equal ascii_of_N) in Heq. rewrite !ascii_N_embedding in Heq. subst c'.
  intros H1 H2. destruct (IH k H1 H2) as [rest ->]. by exists rest.
Qed.

Lemma substringFrom_app (p s : string) : substringFrom (String.length p) (p ++ s) = s.
Proof. by induction p. Qed.

Lemma elem_of_iterator (db : gmap string string) (gt lt key : string) :
  key ∈ iterator db gt lt
  <-> is_Some (db !! key) /\ String.ltb gt key = true /\ String.ltb key lt = true.
Proof.
  unfold iterator. rewrite elem_of_Array_sort, list_elem_of_In, filter_In.
  rewrite <- list_elem_of_In, andb_true_iff.
  enough (key ∈ map fst (map_to_list db) <-> is_Some (db !! key)) by tauto.
  rewrite list_elem_of_fmap. split.
  - intros ([k v] & -> & Hin). apply elem_of_map_to_list in Hin. by eexists.
  - intros [v Hv]. exists (key, v). split; [done|]. by apply elem_of_map_to_list.
Qed.

Lemma getKeysByPrefix_elem (ws : WorldStateStore) (prefix key : string) :
  key ∈ getKeysByPrefix ws prefix
  <-> exists rest,
        key = prefix ++ rest /\ rest <> "" /\ String.ltb rest upperBound = true
        /\ is_Some (getState ws key).
Proof.
  unfold getKeysByPrefix. rewrite list_elem_of_fmap.
  set (base := "state:" ++ channelId ws ++ ":").
  assert (Hbase : forall k, "state:" ++ channelId ws ++ ":" ++ k = base ++ k).
  { intros k. unfold base. by rewrite !append_assoc. }
  assert (Hkey : forall k, stateKey ws k = base ++ k) by (intros k; apply Hbase).
  rewrite !Hbase. split.
  - intros (k & -> & Hin). apply elem_of_iterator in Hin as (Hsome & Hgt & Hlt).
    destruct (between_prefix _ _ _ Hgt Hlt) as [rest ->].
    rewrite string_ltb_app in Hlt. rewrite string_ltb_prefix in Hgt.
    rewrite append_assoc in Hsome |- *. rewrite substringFrom_app.
    exists rest. split_and!; [done| |done|].
    + intros ->. done.
    + unfold getState. by rewrite Hkey.
  - intros (rest & -> & Hrest & Hlt & Hsome).
    exists (base ++ prefix ++ rest). split; [by rewrite substringFrom_app|].
    unfold getState in Hsome. rewrite Hkey in Hsome.
    apply elem_of_iterator. split_and!; [done| |].
    + rewrite <- append_assoc, string_ltb_prefix. by destruct rest.
    + by rewrite <- append_assoc, string_ltb_app.
Qed.

(** X26 — what a prefix query lists. [getKeysByPrefix] returns exactly the
    keys of the state that extend the prefix by at least one character, the
    extension being below the code unit U+FFFF in byte order: the key equal to the
    prefix is not listed, and every listed key has a state entry; the keys
    are returned with the prefix they were asked by. *)
Theorem getKeysByPrefix_lists (ws : WorldStateStore) (prefix key : string) :
  key ∈ getKeysByPrefix ws prefix
  <-> exists rest,
        key = prefix ++ rest /\ rest <> "" /\ String.ltb rest upperBound = true
        /\ is_Some (getState ws key).
Proof. apply getKeysByPrefix_elem. Qed.

(** X27 — the list of chaincodes holds state keys, not chaincode ids.
    Every entry of [getAllChaincodes] is [CHAINCODE:] followed by a
    non-empty name, and after a chaincode with a name below the code unit U+FFFF is
    deployed its entry is there, in that form. *)
Theorem getAllChaincodes_lists_keys (ws : WorldStateStore) :
  (forall entry, entry ∈ getAllChaincodes ws ->
                 exists id, entry = metadataKey id /\ id <> "")
  /\ (forall id version policy deployedAt,
        id <> "" -> String.ltb id upperBound = true ->
        metadataKey id
          ∈ getAllChaincodes (storeChaincodeMetadata ws id version policy deployedAt)).
Proof.
  split.
  - intros entry (id & -> & Hid & _)%getKeysByPrefix_elem. by exists id.
  - intros id version policy deployedAt Hid Hlt. apply getKeysByPrefix_elem.
    exists id. split_and!; [done..|].
    unfold storeChaincodeMetadata. fold (metadataKey id).
    rewrite getState_setState. by eexists.
Qed.

(** ** The committed block in the ledger *)

Section CommittedBlock.
Context `{Crypto}.
Variable msp : MSP.
Variable now : nat -> string.



End CommittedBlock.


(** ** Chaincode metadata *)

Lemma stringified_Object_not_empty (props : list (string * JSON.value)) :
  String.eqb (stringified (JSON.Object props)) "" = false.
Proof. reflexivity. Qed.

Lemma getChaincodeMetadata_stored ws id version policy deployedAt :
  getChaincodeMetadata (storeChaincodeMetadata ws id version policy deployedAt) id
  = Ok (chaincodeMetadata id version policy deployedAt).
Proof.
  unfold getChaincodeMetadata, storeChaincodeMetadata. rewrite getState_setState.
  unfold chaincodeMetadata at 1. rewrite stringified_Object_not_empty.
  apply parse_stringified, chaincodeMetadata_printable.
Qed.

Lemma metadataPolicy_chaincodeMetadata id version policy deployedAt :
  FromJSON.metadataPolicy (chaincodeMetadata id version policy deployedAt) = Ok policy.
Proof.
  unfold FromJSON.metadataPolicy, chaincodeMetadata.
  cbn -[FromJSON.policy ToJSON.policy]. apply policy_toJSON_fromJSON.
Qed.

(** X10 — a deployed policy is the policy of later invocations. Once the
    committer has applied a deploy transaction, the endorsement policy it
    resolves for an invocation of that chaincode is the policy of the deploy
    payload, or [ANY] of the deployer's organization when the payload has
    none, whatever the deploy transaction wrote. *)
Theorem resolvePolicy_after_deploy (now : nat -> string) (ws : WorldStateStore)
        (deploy invoke : TransactionEnvelope) (blockNumber : Z) (i : nat) :
  payload_type (payload deploy) = DEPLOY_CHAINCODE ->
  payload_type (payload invoke) = INVOKE_CHAINCODE ->
  chaincodeId (payload invoke) = chaincodeId (payload deploy) ->
  resolvePolicy (applyTransaction now ws deploy blockNumber i) invoke
  = Ok (inr (Ok (default (defaultPolicy deploy) (endorsementPolicy (payload deploy))))).
Proof.
  intros Hdeploy Hinvoke Hid. unfold resolvePolicy, applyTransaction.
  rewrite Hinvoke, Hid, bool_decide_eq_true_2 by done.
  rewrite getChaincodeMetadata_stored. cbn [bindE].
  unfold chaincodeMetadata at 1. cbn [JSON.falsy].
  by rewrite metadataPolicy_chaincodeMetadata.
Qed.

Lemma resolvePolicy_after_deploy_witness :
  resolvePolicy (applyTransaction Scenario.now Scenario.world Samples.deployBasic 5 0)
                Scenario.tx0
  = Ok (inr (Ok {| policy_type := "ALL"; policy_orgs := ["Org1"; "Org2"] |})).
Proof.
  exact (resolvePolicy_after_deploy Scenario.now Scenario.world Samples.deployBasic
           Scenario.tx0 5 0 eq_refl eq_refl eq_refl).
Defined.

(** ** What the signatures cover *)

(** Keys of a property list are not keys of an object: by cases. *)
Ltac foreign_keys :=
  let P := fresh "P" in
  let HP := fresh "HP" in
  let Hin := fresh "Hin" in
  intros P HP;
  repeat (apply elem_of_cons in HP as [->|HP];
          [intros Hin;
           repeat (apply elem_of_cons in Hin as [Hin|Hin]; [discriminate Hin|]);
           by apply not_elem_of_nil in Hin|]);
  by apply not_elem_of_nil in HP.

Section SignedData.
Context `{Crypto}.
Variable msp : MSP.

Lemma endorsementData_text (tx : TransactionEnvelope) :
  canonicalStringify (endorsementData tx)
  = Ok ("{" ++ JSON.join ","
          [JSON.QuoteJSONString "proposal" ++ ":{}";
           JSON.QuoteJSONString "result" ++ ":" ++ JSON.text (ToJSON.nullable (result tx));
           JSON.QuoteJSONString "rwSet" ++ ":{}"] ++ "}").
Proof. destruct tx as [? ? ? ? ? ? [r|] ? ?]; by vm_compute. Qed.

Lemma verifyEndorsements_result
      (tx tx' : TransactionEnvelope) (es : list Endorsement) (orgs : list string) :
  result tx = result tx' ->
  verifyEndorsements msp tx es orgs = verifyEndorsements msp tx' es orgs.
Proof.
  intros Hresult. revert orgs. induction es as [|e es IH]; intros orgs; [done|].
  cbn [verifyEndorsements]. rewrite !endorsementData_text, Hresult. cbn [bindE].
  destruct (negb _); [done|]. apply IH.
Qed.

(** X11 — an endorsement is bound to the result only. The text an endorser
    signs, and the committer verifies, is made of the [result] of the
    transaction alone: nested under the top-level property list, the
    proposal and the read-write set serialize as empty objects. The
    endorsements of a transaction are therefore accepted, with the same
    outcome, for every transaction with the same result. *)
Theorem verifyEndorsements_bound_to_result_only
        (tx tx' : TransactionEnvelope) (es : list Endorsement) (orgs : list string) :
  result tx = result tx' ->
  verifyEndorsements msp tx es orgs = verifyEndorsements msp tx' es orgs.
Proof. apply verifyEndorsements_result. Qed.

Lemma serializeMembers_txData (f : JSON.value -> option string)
      (v1 v2 v3 v4 v5 v6 v7 v8 : JSON.value) (s1 s2 s3 s4 s5 s6 s7 s8 : string) :
  f v1 = Some s1 -> f v2 = Some s2 -> f v3 = Some s3 -> f v4 = Some s4 ->
  f v5 = Some s5 -> f v6 = Some s6 -> f v7 = Some s7 -> f v8 = Some s8 ->
  JSON.serializeMembers f
    [("txId", v1); ("creatorId", v2); ("creatorOrgId", v3); ("creatorPubKey", v4);
     ("payload", v5); ("rwSet", v6); ("result", v7); ("endorsements", v8)]
    txDataKeys
  = [JSON.QuoteJSONString "creatorId" ++ ":" ++ s2;
     JSON.QuoteJSONString "creatorOrgId" ++ ":" ++ s3;
     JSON.QuoteJSONString "creatorPubKey" ++ ":" ++ s4;
     JSON.QuoteJSONString "endorsements" ++ ":" ++ s8;
     JSON.QuoteJSONString "payload" ++ ":" ++ s5;
     JSON.QuoteJSONString "result" ++ ":" ++ s7;
     JSON.QuoteJSONString "rwSet" ++ ":" ++ s6;
     JSON.QuoteJSONString "txId" ++ ":" ++ s1].
Proof.
  intros H1 H2 H3 H4 H5 H6 H7 H8. unfold txDataKeys.
  cbn [JSON.serializeMembers JSON.serializeGet String.eqb Ascii.eqb Bool.eqb].
  by rewrite H1, H2, H3, H4, H5, H6, H7, H8.
Qed.

Lemma txPayload_under_txDataKeys (p : TxPayload) :
  JSON.SerializeJSONProperty (Some txDataKeys) (ToJSON.txPayload p) = Some "{}".
Proof.
  destruct p as [t id [fn|] [a|] [pol|]];
    apply SerializeJSONProperty_foreign; foreign_keys.
Qed.

Lemma rwset_under_txDataKeys (rw : RWSet) :
  JSON.SerializeJSONProperty (Some txDataKeys) (ToJSON.rwset rw) = Some "{}".
Proof. apply SerializeJSONProperty_foreign; foreign_keys. Qed.

Lemma endorsements_under_txDataKeys (es : list Endorsement) :
  JSON.SerializeJSONProperty (Some txDataKeys) (JSON.Array (map ToJSON.endorsement es))
  = Some ("[" ++ JSON.join "," (map (fun _ => "{}") es) ++ "]").
Proof.
  cbn [JSON.SerializeJSONProperty]. rewrite map_map.
  enough (Hmap : map (fun e => default "null"
                    (JSON.SerializeJSONProperty (Some txDataKeys) (ToJSON.endorsement e))) es
                 = map (fun _ => "{}") es) by by rewrite Hmap.
  apply map_ext. intros e. unfold ToJSON.endorsement.
  by rewrite (SerializeJSONProperty_foreign txDataKeys) by foreign_keys.
Qed.

Lemma txData_text (tx : TransactionEnvelope) :
  canonicalStringify (txData tx)
  = Ok ("{" ++ JSON.join ","
          [JSON.QuoteJSONString "creatorId" ++ ":" ++ JSON.QuoteJSONString (creatorId tx);
           JSON.QuoteJSONString "creatorOrgId" ++ ":"
             ++ JSON.QuoteJSONString (creatorOrgId tx);
           JSON.QuoteJSONString "creatorPubKey" ++ ":"
             ++ JSON.QuoteJSONString (creatorPubKey tx);
           JSON.QuoteJSONString "endorsements" ++ ":"
             ++ ("[" ++ JSON.join "," (map (fun _ => "{}") (endorsements tx)) ++ "]");
           JSON.QuoteJSONString "payload" ++ ":" ++ "{}";
           JSON.QuoteJSONString "result" ++ ":" ++ JSON.text (ToJSON.nullable (result tx));
           JSON.QuoteJSONString "rwSet" ++ ":" ++ "{}";
           JSON.QuoteJSONString "txId" ++ ":" ++ JSON.QuoteJSONString (txId tx)] ++ "}").
Proof.
  unfold canonicalStringify, txData. cbn [JSON.Object_keys bindE map fst].
  unfold JSON.stringify. cbn [fmap option_fmap option_map].
  change (JSON.PropertyList [] (JSON.Array_sort _)) with txDataKeys.
  cbn [JSON.SerializeJSONProperty].
  rewrite (serializeMembers_txData (JSON.SerializeJSONProperty (Some txDataKeys))
             _ _ _ _ _ _ _ _
             (JSON.QuoteJSONString (txId tx)) (JSON.QuoteJSONString (creatorId tx))
             (JSON.QuoteJSONString (creatorOrgId tx))
             (JSON.QuoteJSONString (creatorPubKey tx))
             "{}" "{}" (JSON.text (ToJSON.nullable (result tx)))
             ("[" ++ JSON.join "," (map (fun _ => "{}") (endorsements tx)) ++ "]"));
    first [ reflexivity
          | apply txPayload_under_txDataKeys
          | apply rwset_under_txDataKeys
          | apply endorsements_under_txDataKeys
          | by destruct (result tx) ].
Qed.

Lemma txData_scalars (tx tx' : TransactionEnvelope) :
  txId tx = txId tx' -> creatorId tx = creatorId tx' ->
  creatorOrgId tx = creatorOrgId tx' -> creatorPubKey tx = creatorPubKey tx' ->
  result tx = result tx' ->
  List.length (endorsements tx) = List.length (endorsements tx') ->
  canonicalStringify (txData tx) = canonicalStringify (txData tx').
Proof.
  intros Hid Hcid Horg Hkey Hres Hlen.
  rewrite !txData_text, Hid, Hcid, Horg, Hkey, Hres.
  enough (Hes : map (fun _ : Endorsement => "{}") (endorsements tx)
                = map (fun _ : Endorsement => "{}") (endorsements tx'))
    by by rewrite Hes.
  revert Hlen. generalize (endorsements tx'). generalize (endorsements tx).
  induction l as [|e l IH]; intros [|e' l'] Hlen; try done.
  cbn in *. f_equal. apply IH. lia.
Qed.

(** X12 — validation does not look at the writes or at the arguments. The
    text the client signs holds the identifiers of the transaction and of
    its creator, the result and the number of endorsements, and the text
    an endorser signs holds the result; so two envelopes that agree on the
    identifiers, the result, the endorsements, the client signature, the
    read set and the chaincode, type and policy of the payload get the same
    validation outcome in every world state, whatever their write sets,
    function names and arguments are. *)
Theorem validateTransaction_blind_to_writes
        (ws : WorldStateStore) (tx tx' : TransactionEnvelope) (blockNumber : Z) (i : nat) :
  txId tx = txId tx' -> creatorId tx = creatorId tx' ->
  creatorOrgId tx = creatorOrgId tx' -> creatorPubKey tx = creatorPubKey tx' ->
  result tx = result tx' -> endorsements tx = endorsements tx' ->
  clientSignature tx = clientSignature tx' ->
  payload_type (payload tx) = payload_type (payload tx') ->
  chaincodeId (payload tx) = chaincodeId (payload tx') ->
  endorsementPolicy (payload tx) = endorsementPolicy (payload tx') ->
  reads (rwSet tx) = reads (rwSet tx') ->
  validateTransaction msp ws tx blockNumber i = validateTransaction msp ws tx' blockNumber i.
Proof.
  intros Hid Hcid Horg Hkey Hres Hes Hsig Htype Hcc Hpol Hreads.
  unfold validateTransaction.
  rewrite (txData_scalars tx tx') by (done || by rewrite Hes).
  rewrite Hsig, Hcid, Hreads.
  assert (Hval : validateEndorsements msp ws tx = validateEndorsements msp ws tx').
  { unfold validateEndorsements, resolvePolicy, defaultPolicy.
    rewrite Htype, Hcc, Hpol, Horg, Hes.
    by rewrite (verifyEndorsements_result tx tx'). }
  by rewrite Hval.
Qed.

End SignedData.

Lemma verifyEndorsements_bound_to_result_only_witness :
  verifyEndorsements (H := Scenario.crypto) Scenario.msp Scenario.tx0
                     (endorsements Scenario.tx0) []
  = verifyEndorsements (H := Scenario.crypto) Scenario.msp Samples.rewritten
                       (endorsements Scenario.tx0) [].
Proof.
  apply (verifyEndorsements_bound_to_result_only (H := Scenario.crypto) Scenario.msp
           Scenario.tx0 Samples.rewritten (endorsements Scenario.tx0) []).
  reflexivity.
Defined.

Lemma validateTransaction_blind_to_writes_witness :
  validateTransaction (H := Scenario.crypto) Scenario.msp Scenario.world
                      Scenario.tx0 3 0
  = validateTransaction (H := Scenario.crypto) Scenario.msp Scenario.world
                        Samples.rewritten 3 0
  /\ validateTransaction (H := Scenario.crypto) Scenario.msp Scenario.world
                         Samples.rewritten 3 0
     = Ok {| v_code := VALID; v_message := None |}.
Proof.
  split.
  - apply (validateTransaction_blind_to_writes (H := Scenario.crypto) Scenario.msp
             Scenario.world Scenario.tx0 Samples.rewritten 3 0); reflexivity.
  - by vm_compute.
Defined.

(** ** Metadata in the state namespace *)

(** X29 — chaincode metadata is ordinary state. A write set whose last
    entry for the key [CHAINCODE:<id>] is a delete leaves the chaincode not
    found for later invocations, and one whose last entry for it holds the
    text of a metadata object makes the policy of that object the policy
    the committer resolves: nothing sets the metadata keys apart from the
    keys a transaction may write. *)
Theorem resolvePolicy_after_state_write
        (ws : WorldStateStore) (rwSet : RWSet) (blockNumber txNumber : Z)
        (before after : list WriteEntry) (w : WriteEntry) (invoke : TransactionEnvelope) :
  writes rwSet = (before ++ w :: after)%list ->
  write_key w = metadataKey (chaincodeId (payload invoke)) ->
  (forall w', w' ∈ after -> write_key w' <> write_key w) ->
  payload_type (payload invoke) = INVOKE_CHAINCODE ->
  (write_value w = None ->
   resolvePolicy (applyRWSet ws rwSet blockNumber txNumber) invoke
   = Ok (inl {| v_code := BAD_PAYLOAD; v_message := Some "Chaincode not found" |}))
  /\ (forall id version policy deployedAt,
        write_value w
        = Some (stringified (chaincodeMetadata id version policy deployedAt)) ->
        resolvePolicy (applyRWSet ws rwSet blockNumber txNumber) invoke
        = Ok (inr (Ok policy))).
Proof.
  intros Hwrites Hkey Hafter Hinvoke.
  pose proof (applyRWSet_getState_last ws rwSet blockNumber txNumber before w after
                Hwrites Hafter) as Hstate.
  rewrite Hkey in Hstate.
  unfold resolvePolicy, getChaincodeMetadata. rewrite Hinvoke, Hstate. split.
  - by intros ->.
  - intros id version policy deployedAt ->.
    unfold chaincodeMetadata at 1. rewrite stringified_Object_not_empty.
    rewrite (parse_stringified _ (chaincodeMetadata_printable _ _ _ _)). cbn [bindE].
    unfold chaincodeMetadata at 1. cbn [JSON.falsy].
    by rewrite metadataPolicy_chaincodeMetadata.
Qed.

Lemma resolvePolicy_after_state_write_witness :
  resolvePolicy Scenario.world Scenario.tx0
  = Ok (inr (Ok {| policy_type := "ANY"; policy_orgs := ["Org1"] |}))
  /\ resolvePolicy (applyRWSet Scenario.world Samples.policyWrite 3 0) Scenario.tx0
     = Ok (inr (Ok {| policy_type := "ANY"; policy_orgs := ["Org9"] |})).
Proof.
  split; [by vm_compute|].
  apply (proj2 (resolvePolicy_after_state_write Scenario.world Samples.policyWrite 3 0 [] []
           {| write_key := "CHAINCODE:basic";
              write_value :=
                Some (stringified
                        (chaincodeMetadata "basic" "6.6"
                           {| policy_type := "ANY"; policy_orgs := ["Org9"] |}
                           "2030-01-01T00:00:00.000Z")) |}
           Scenario.tx0 eq_refl eq_refl
           (fun w' Hw' => match proj1 (elem_of_nil w') Hw' with end) eq_refl)
           "basic" "6.6" {| policy_type := "ANY"; policy_orgs := ["Org9"] |}
           "2030-01-01T00:00:00.000Z").
  reflexivity.
Defined.

(** ** What a commit leaves in the world state *)

Lemma lastWrite_elem tx w : lastWrite tx w -> w ∈ writes (rwSet tx).
Proof.
  intros (before & after & Hw & _). rewrite Hw.
  apply elem_of_app. right. apply elem_of_cons. by left.
Qed.

Lemma not_writesKey tx key :
  ~ writesKey tx key -> forall w, w ∈ writes (rwSet tx) -> write_key w <> key.
Proof. intros Hno w Hw Heq. apply Hno. by exists w. Qed.

Lemma getState_storeChaincodeMetadata_ne ws id version policy deployedAt key :
  metadataKey id <> key ->
  getState (storeChaincodeMetadata ws id version policy deployedAt) key = getState ws key.
Proof. intros Hne. by apply getState_setState_ne. Qed.

Lemma getState_applyTransaction_frame now ws tx bn i key :
  ~ writesKey tx key -> ~ deploysKey tx key ->
  getState (applyTransaction now ws tx bn i) key = getState ws key.
Proof.
  intros Hw Hd. unfold applyTransaction. case_bool_decide as Hdeploy.
  - rewrite getState_storeChaincodeMetadata_ne.
    + by apply applyRWSet_getState_frame, not_writesKey.
    + intros Heq. apply Hd. by split.
  - by apply applyRWSet_getState_frame, not_writesKey.
Qed.

Lemma getState_applyTransaction_last now ws tx bn i w :
  lastWrite tx w -> ~ deploysKey tx (write_key w) ->
  getState (applyTransaction now ws tx bn i) (write_key w) = write_value w.
Proof.
  intros (before & after & Hw & Hafter) Hd. unfold applyTransaction.
  case_bool_decide as Hdeploy.
  - rewrite getState_storeChaincodeMetadata_ne; [by eapply applyRWSet_getState_last|].
    intros Heq. apply Hd. by split.
  - by eapply applyRWSet_getState_last.
Qed.

Section CommitEffects.
Context `{Crypto}.
Variable msp : MSP.
Variable now : nat -> string.
Variable bn : Z.

(** A key that no [VALID] transaction of the run writes keeps its version,
    and its value unless a [VALID] deploy of the run stores metadata there. *)
Lemma Commits_frame i txs ws vs ws' key :
  Commits msp now bn i txs ws vs ws' ->
  (forall j tx v, txs !! j = Some tx -> vs !! j = Some v -> v_code v = VALID ->
                  ~ writesKey tx key) ->
  getVersion ws' key = getVersion ws key
  /\ ((forall j tx v, txs !! j = Some tx -> vs !! j = Some v -> v_code v = VALID ->
                      ~ deploysKey tx key) ->
      getState ws' key = getState ws key).
Proof.
  induction 1 as [i ws|i tx txs ws v vs ws' Hv Hcode Hrun IH
                  |i tx txs ws v vs ws' Hv Hcode Hrun IH]; intros Hw.
  - done.
  - destruct IH as [IHv IHs]; [intros j tx' v'; apply (Hw (S j))|].
    split; [done|]. intros Hd. apply IHs. intros j tx' v'. apply (Hd (S j)).
  - destruct IH as [IHv IHs]; [intros j tx' v'; apply (Hw (S j))|].
    assert (Htx : ~ writesKey tx key) by (by apply (Hw 0%nat tx v)).
    split.
    + rewrite IHv. by apply getVersion_applyTransaction_frame, not_writesKey.
    + intros Hd. rewrite IHs by (intros j tx' v'; apply (Hd (S j))).
      apply getState_applyTransaction_frame; [done|]. by apply (Hd 0%nat tx v).
Qed.

(** The last [VALID] transaction of the run that writes a key leaves its
    stamp, with [txNum] its index, and the value of its last write. *)
Lemma Commits_last i txs ws vs ws' j tx v w :
  Commits msp now bn i txs ws vs ws' ->
  txs !! j = Some tx -> vs !! j = Some v -> v_code v = VALID -> lastWrite tx w ->
  (forall j' tx' v', (j < j')%nat -> txs !! j' = Some tx' -> vs !! j' = Some v' ->
                     v_code v' = VALID -> ~ writesKey tx' (write_key w)) ->
  getVersion ws' (write_key w)
  = Ok (Some {| blockNum := bn; txNum := Z.of_nat (i + j) |})
  /\ ((forall j' tx' v', (j <= j')%nat -> txs !! j' = Some tx' -> vs !! j' = Some v' ->
                         v_code v' = VALID -> ~ deploysKey tx' (write_key w)) ->
      getState ws' (write_key w) = write_value w).
Proof.
  intros Hrun. revert j.
  induction Hrun as [i ws|i tx0 txs ws v0 vs ws' Hv Hcode Hrun IH
                     |i tx0 txs ws v0 vs ws' Hv Hcode Hrun IH];
    intros j Htx Hvj Hvalid Hlast Hlater.
  - done.
  - destruct j as [|j]; cbn in Htx, Hvj; [congruence|].
    destruct (IH j Htx Hvj Hvalid Hlast) as [IHv IHs].
    { intros j' tx' v' Hj'. apply (Hlater (S j')). lia. }
    replace (i + S j)%nat with (S i + j)%nat by lia. split; [done|].
    intros Hd. apply IHs. intros j' tx' v' Hj'. apply (Hd (S j')). lia.
  - destruct j as [|j]; cbn in Htx, Hvj.
    + injection Htx as ->. injection Hvj as ->.
      destruct (Commits_frame _ _ _ _ _ (write_key w) Hrun) as [Fv Fs].
      { intros j' tx' v'. apply (Hlater (S j')). lia. }
      rewrite Nat.add_0_r. split.
      * rewrite Fv. by apply getVersion_applyTransaction_written, lastWrite_elem.
      * intros Hd. rewrite Fs by (intros j' tx' v'; apply (Hd (S j')); lia).
        apply getState_applyTransaction_last; [done|]. by apply (Hd 0%nat tx v).
    + destruct (IH j Htx Hvj Hvalid Hlast) as [IHv IHs].
      { intros j' tx' v' Hj'. apply (Hlater (S j')). lia. }
      replace (i + S j)%nat with (S i + j)%nat by lia. split; [done|].
      intros Hd. apply IHs. intros j' tx' v' Hj'. apply (Hd (S j')). lia.
Qed.


End CommitEffects.

Section CommitBlockEffects.
Context `{Crypto}.
Variable msp : MSP.
Variable now : nat -> string.

Lemma validAt_zip_with (block : Block) (vs : list Validation) j tx :
  validAt block (zip_with infoOf (transactions block) vs) j tx
  <-> transactions block !! j = Some tx
      /\ exists v, vs !! j = Some v /\ v_code v = VALID.
Proof.
  unfold validAt. split.
  - intros [Htx (info & Hinfo & Hcode)]. split; [done|].
    apply lookup_zip_with_Some in Hinfo as (tx' & v & -> & _ & Hv). by exists v.
  - intros [Htx (v & Hv & Hcode)]. split; [done|].
    exists (infoOf tx v). split; [|done].
    apply lookup_zip_with_Some. by exists tx, v.
Qed.

Lemma Commits_appliedUpTo (block : Block) (vs : list Validation) (k : nat) ws ws_k :
  Commits msp now (number (header block)) 0 (take k (transactions block)) ws
          (take k vs) ws_k ->
  appliedUpTo block (zip_with infoOf (transactions block) vs) k ws ws_k.
Proof.
  intros Hrun.
  assert (Hin : forall j tx v,
            take k (transactions block) !! j = Some tx -> take k vs !! j = Some v ->
            v_code v = VALID ->
            (j < k)%nat
            /\ validAt block (zip_with infoOf (transactions block) vs) j tx).
  { intros j tx v Htx Hv Hvalid.
    assert (j < k)%nat as Hj.
    { apply lookup_lt_Some in Htx. rewrite length_take in Htx. lia. }
    rewrite lookup_take_lt in Htx by done. rewrite lookup_take_lt in Hv by done.
    split; [done|]. apply validAt_zip_with. eauto. }
  split.
  - intros j tx w Hj [Htx (v & Hv & Hvalid)]%validAt_zip_with Hlast Hlater.
    destruct (Commits_last msp now _ _ _ _ _ _ j tx v w Hrun) as [Lv Ls];
      [by rewrite lookup_take_lt|by rewrite lookup_take_lt|done|done| |].
    { intros j' tx' v' Hj' Htx' Hv' Hvalid'.
      destruct (Hin j' tx' v' Htx' Hv' Hvalid') as [Hlt Hat].
      apply (Hlater j' tx'); [lia|done]. }
    split; [done|]. intros Hd. apply Ls.
    intros j' tx' v' Hj' Htx' Hv' Hvalid'.
    destruct (Hin j' tx' v' Htx' Hv' Hvalid') as [Hlt Hat].
    apply (Hd j' tx'); [lia|done].
  - intros key Hw.
    destruct (Commits_frame msp now _ _ _ _ _ _ key Hrun) as [Fv Fs].
    { intros j tx v Htx Hv Hvalid.
      destruct (Hin j tx v Htx Hv Hvalid) as [Hlt Hat]. by apply (Hw j tx). }
    split; [done|]. intros Hd. apply Fs.
    intros j tx v Htx Hv Hvalid.
    destruct (Hin j tx v Htx Hv Hvalid) as [Hlt Hat]. by apply (Hd j tx).
Qed.

(** [commitBlock] on the block cut after [k] transactions returns when the
    run over these transactions does, with the state of that run. *)
Lemma commitBlock_truncated (st : Stores) (block : Block) (k : nat) vs ws_k :
  Commits msp now (number (header block)) 0 (take k (transactions block))
          (worldStateStore st) vs ws_k ->
  exists st_k block_k,
    commitBlock msp now st (truncated block k) = Ok (st_k, block_k)
    /\ worldStateStore st_k = ws_k
    /\ validationInfo (metadata block_k)
       = Some (zip_with infoOf (take k (transactions block)) vs).
Proof.
  intros Hrun.
  destruct (commitBlock_Commits msp now st (truncated block k) vs ws_k Hrun)
    as (ledger' & Hret & _).
  by eexists _, _.
Qed.

(** What [commitBlock] has done when it returns, and what it had done when
    it came to the transaction at index [k]. *)
Lemma commitBlock_effects (st st' : Stores) (block block' : Block) :
  commitBlock msp now st block = Ok (st', block') ->
  exists vs,
    List.length vs = List.length (transactions block)
    /\ block' = setValidationInfo block (zip_with infoOf (transactions block) vs)
    /\ appliedUpTo block (zip_with infoOf (transactions block) vs)
                   (List.length (transactions block))
                   (worldStateStore st) (worldStateStore st')
    /\ forall k txk,
         transactions block !! k = Some txk ->
         exists st_k block_k vk,
           commitBlock msp now st (truncated block k) = Ok (st_k, block_k)
           /\ validationInfo (metadata block_k)
              = Some (take k (zip_with infoOf (transactions block) vs))
           /\ appliedUpTo block (zip_with infoOf (transactions block) vs) k
                          (worldStateStore st) (worldStateStore st_k)
           /\ validateTransaction msp (worldStateStore st_k) txk
                                  (number (header block)) k = Ok vk
           /\ vs !! k = Some vk.
Proof.
  intros Hcommit.
  destruct (commitBlock_inv msp now st st' block block' Hcommit) as (vs & Hrun & ->).
  pose proof (Commits_length _ _ _ _ _ _ _ _ Hrun) as Hlen.
  exists vs. split_and!; [done|done| |].
  - apply Commits_appliedUpTo.
    rewrite firstn_all. rewrite <- Hlen, firstn_all. exact Hrun.
  - intros k txk Hk.
    pose proof (lookup_lt_Some _ _ _ Hk) as Hlt.
    pose proof Hrun as Hsplit.
    rewrite <- (take_drop k (transactions block)) in Hsplit.
    apply Commits_split in Hsplit as (vs_k & vs2 & ws_k & Hprefix & Hrest & Hvs).
    pose proof (Commits_length _ _ _ _ _ _ _ _ Hprefix) as Hlen_k.
    rewrite length_take in Hlen_k.
    assert (List.length vs_k = k) as Hk_len by lia.
    assert (take k vs = vs_k) as Htake by (rewrite Hvs; by apply take_app_length').
    rewrite length_take in Hrest.
    replace (0 + k `min` List.length (transactions block))%nat with k in Hrest by lia.
    rewrite (drop_S _ _ _ Hk) in Hrest.
    assert (exists vk vs2', vs2 = vk :: vs2'
              /\ validateTransaction msp ws_k txk (number (header block)) k = Ok vk)
      as (vk & vs2' & -> & Hvk).
    { inversion Hrest; subst; by eexists _, _. }
    destruct (commitBlock_truncated st block k vs_k ws_k Hprefix)
      as (st_k & block_k & Hret & Hws & Hinfos).
    exists st_k, block_k, vk. rewrite Hws. split_and!; [done| | |done|].
    + rewrite Hinfos, zip_with_take, Htake. done.
    + apply Commits_appliedUpTo. by rewrite Htake.
    + rewrite Hvs, lookup_app_r by lia. by rewrite Hk_len, Nat.sub_diag.
Qed.

(** C3. [commitBlock] validates and applies the transactions in block order
    with [txNum] the index in the block. When it returns, the world state
    it leaves holds the writes of the transactions recorded [VALID], the
    last one for a key stamping it with its index. For the transaction at
    index [k]: the commit of the block cut after [k] transactions returns
    and leaves a world state [st_k] that holds the writes of the [VALID]
    transactions of index below [k]; the entry [k] of [validationInfo] is the
    result of validating transaction [k] against [st_k]; and when that
    result is [VALID], every read of transaction [k] carries the version of
    its key in [st_k], which for a key written by a [VALID] transaction
    [j < k] of the block is [{blockNum, txNum := j}] for the last such [j]. *)
Theorem commitBlock_validates_in_block_order (st st' : Stores) (block block' : Block) :
  commitBlock msp now st block = Ok (st', block') ->
  exists infos,
    validationInfo (metadata block') = Some infos
    /\ appliedUpTo block infos (List.length (transactions block))
                   (worldStateStore st) (worldStateStore st')
    /\ forall k txk,
         transactions block !! k = Some txk ->
         exists st_k block_k vk,
           commitBlock msp now st (truncated block k) = Ok (st_k, block_k)
           /\ validationInfo (metadata block_k) = Some (take k infos)
           /\ appliedUpTo block infos k (worldStateStore st) (worldStateStore st_k)
           /\ validateTransaction msp (worldStateStore st_k) txk
                                  (number (header block)) k = Ok vk
           /\ infos !! k = Some (infoOf txk vk)
           /\ (v_code vk = VALID ->
               Forall (fun r => getVersion (worldStateStore st_k) (read_key r)
                                = Ok (read_version r))
                      (reads (rwSet txk))
               /\ forall r j tx w,
                    r ∈ reads (rwSet txk) ->
                    (j < k)%nat -> validAt block infos j tx -> lastWrite tx w ->
                    write_key w = read_key r ->
                    (forall j' tx', (j < j' < k)%nat -> validAt block infos j' tx' ->
                                    ~ writesKey tx' (write_key w)) ->
                    read_version r
                    = Some {| blockNum := number (header block);
                              txNum := Z.of_nat j |}).
Proof.
  intros Hcommit.
  destruct (commitBlock_effects st st' block block' Hcommit)
    as (vs & Hlen & -> & Hfinal & Hsteps).
  exists (zip_with infoOf (transactions block) vs). split_and!; [done|done|].
  intros k txk Hk.
  destruct (Hsteps k txk Hk) as (st_k & block_k & vk & Hret & Hinfos & Happlied & Hvk & Hvs).
  exists st_k, block_k, vk. split_and!; [done|done|done|done| |].
  - apply lookup_zip_with_Some. by exists txk, vk.
  - intros Hvalid.
    assert (Hreads : Forall (fun r => getVersion (worldStateStore st_k) (read_key r)
                                      = Ok (read_version r))
                            (reads (rwSet txk))).
    { apply validateReadSet_true. by eapply validateTransaction_VALID. }
    split; [done|].
    intros r j tx w Hr Hj Hat Hlast Hkey Hlater.
    destruct (proj1 Happlied j tx w Hj Hat Hlast Hlater) as [Hstamp _].
    rewrite Forall_forall in Hreads. specialize (Hreads r Hr).
    rewrite Hkey in Hstamp. congruence.
Qed.


End CommitBlockEffects.

(** The second transaction of the scenario is validated on the state that
    the first one, found [VALID], has left: the balance it wrote, under the
    stamp of block 3 and index 0. *)
Lemma commitBlock_validates_in_block_order_witness :
  exists st_1 block_1 v1,
    commitBlock (H := Scenario.crypto) Scenario.msp Scenario.now Scenario.stores
                (truncated Scenario.block3 1)
    = Ok (st_1, block_1)
    /\ validateTransaction (H := Scenario.crypto) Scenario.msp (worldStateStore st_1)
                           Scenario.tx1 (number (header Scenario.block3)) 1
       = Ok v1
    /\ validationInfo (metadata (snd Scenario.committed))
       = Some [infoOf Scenario.tx0 {| v_code := VALID; v_message := None |};
               infoOf Scenario.tx1 v1;
               {| info_txId := "tx2"; code := MSP_VALIDATION_FAILED;
                  message := Some "Invalid signature for Org1Client" |}]
    /\ v_code v1 = MVCC_READ_CONFLICT
    /\ getVersion (worldStateStore st_1) "balance:Alice"
       = Ok (Some {| blockNum := 3; txNum := 0 |})
    /\ getState (worldStateStore st_1) "balance:Alice" = Some "300".
Proof.
  destruct (commitBlock_validates_in_block_order
              (H := Scenario.crypto) Scenario.msp Scenario.now Scenario.stores
              (fst Scenario.committed) Scenario.block3 (snd Scenario.committed))
    as (infos & Hinfos & _ & Hsteps).
  { rewrite <- surjective_pairing. exact (proj1 commitBlock_scenario). }
  rewrite (proj1 (proj2 commitBlock_scenario)) in Hinfos. injection Hinfos as <-.
  destruct (Hsteps 1%nat Scenario.tx1 eq_refl)
    as (st_1 & block_1 & v1 & Hret & _ & [Hlast _] & Hv1 & Hinfo1 & _).
  injection Hinfo1 as Hcode Hmessage.
  exists st_1, block_1, v1.
  destruct (Hlast 0%nat Scenario.tx0
                  {| write_key := "balance:Alice"; write_value := Some "300" |})
    as [Hstamp Hvalue].
  - lia.
  - split; [reflexivity|]. eexists. split; reflexivity.
  - exists [], [{| write_key := "balance:Bob"; write_value := Some "100" |}].
    split; [reflexivity|]. intros w' Hw'.
    apply elem_of_cons in Hw' as [->|Hw']; [discriminate|].
    by apply not_elem_of_nil in Hw'.
  - intros j' tx' Hj'. lia.
  - split_and!; [exact Hret|exact Hv1| |by symmetry|exact Hstamp|].
    + unfold infoOf. rewrite <- Hcode, <- Hmessage. reflexivity.
    + apply Hvalue. intros j' tx' Hj' [Htx _] [Hdeploy _].
      assert (j' = 0%nat) as -> by lia. injection Htx as <-. discriminate.
Defined.


(** ** Simulation *)

Lemma run_readsCurrent (ws : WorldStateStore) (p : Program)
      (ctx ctx' : ChaincodeExecutionContext) (result : option string) :
  run ws p ctx = Ok (ctx', result) ->
  readsCurrent ws (readSet ctx) -> readsCurrent ws (readSet ctx').
Proof.
  revert ctx. induction p as [r|e|key next IH|key value next IH|key next IH];
    intros ctx Hrun Hctx; cbn [run] in Hrun.
  - by injection Hrun as <- _.
  - done.
  - unfold Context.getState in Hrun.
    destruct (getVersion ws key) as [version|e] eqn:Hversion; [|done].
    cbn [bindE] in Hrun. eapply IH; [exact Hrun|].
    cbn [pushRead readSet]. apply Forall_app. split; [done|].
    by repeat constructor.
  - eapply IH; [exact Hrun|done].
  - eapply IH; [exact Hrun|done].
Qed.

Lemma executeTransaction_inv (host : ChaincodeHost) (chaincodeId : string)
      (payload : TxPayload) (creatorId creatorOrgId txId : string)
      (rwSet : RWSet) (result : option string) :
  executeTransaction host chaincodeId payload creatorId creatorOrgId txId
  = Ok (rwSet, result) ->
  exists chaincode p ctx r,
    chaincodes host !! chaincodeId = Some chaincode
    /\ run (host_worldState host) p (newContext txId creatorId creatorOrgId) = Ok (ctx, r)
    /\ rwSet = Context.getRWSet ctx
    /\ result = orNull r.
Proof.
  unfold executeTransaction.
  destruct (chaincodes host !! chaincodeId) as [chaincode|]; [|done].
  set (context := newContext txId creatorId creatorOrgId).
  destruct (payload_type payload).
  - destruct (init chaincode) as [init|].
    + destruct (run _ _ _) as [[ctx r]|e] eqn:Hrun; [|done]. cbn [bindE].
      intros [= <- <-]. by exists chaincode, (init context (default [] (args payload))), ctx, r.
    + intros [= <- <-]. by exists chaincode, (Return None), context, None.
  - destruct (functionName payload) as [[|c fn]|]; [done| |done].
    destruct (run _ _ _) as [[ctx r]|e] eqn:Hrun; [|done]. cbn [bindE].
    intros [= <- <-].
    by exists chaincode,
              (invoke chaincode context (String c fn) (default [] (args payload))), ctx, r.
Qed.

Lemma executeTransaction_readsCurrent (host : ChaincodeHost) (chaincodeId : string)
      (payload : TxPayload) (creatorId creatorOrgId txId : string)
      (rwSet : RWSet) (result : option string) :
  executeTransaction host chaincodeId payload creatorId creatorOrgId txId
  = Ok (rwSet, result) ->
  validateReadSet (host_worldState host) (reads rwSet) = Ok true.
Proof.
  intros (chaincode & p & ctx & r & _ & Hrun & -> & _)%executeTransaction_inv.
  apply validateReadSet_true. cbn [Context.getRWSet reads].
  eapply run_readsCurrent; [exact Hrun|]. constructor.
Qed.

(** X13 — a simulation is valid where it ran. Whatever the chaincode does,
    when [executeTransaction] returns, the read set it recorded passes
    [validateReadSet] on the world state of the host: every read holds the
    version the key has there. *)
Theorem executeTransaction_reads_validate (host : ChaincodeHost) (chaincodeId : string)
        (payload : TxPayload) (creatorId creatorOrgId txId : string)
        (rwSet : RWSet) (result : option string) :
  executeTransaction host chaincodeId payload creatorId creatorOrgId txId
  = Ok (rwSet, result) ->
  validateReadSet (host_worldState host) (reads rwSet) = Ok true.
Proof. apply executeTransaction_readsCurrent. Qed.

Lemma executeTransaction_reads_validate_witness :
  executeTransaction Samples.host "basic" (Scenario.transfer "100")
                     "Org1Client" "Org1" "sim0"
  = Ok (Scenario.transferSet "300" "100",
        Some "Transferred 100 tokens from Alice to Bob")
  /\ validateReadSet Scenario.world (reads (Scenario.transferSet "300" "100")) = Ok true.
Proof.
  assert (Hrun : executeTransaction Samples.host "basic" (Scenario.transfer "100")
                                    "Org1Client" "Org1" "sim0"
                 = Ok (Scenario.transferSet "300" "100",
                       Some "Transferred 100 tokens from Alice to Bob"))
    by by vm_compute.
  split; [exact Hrun|].
  exact (executeTransaction_reads_validate Samples.host "basic" (Scenario.transfer "100")
           "Org1Client" "Org1" "sim0" _ _ Hrun).
Defined.

(** ** From endorsement to validation *)

Lemma checkEndorsementPolicy_VALID (policy : EndorsementPolicy) (orgs : list string) :
  v_code (checkEndorsementPolicy policy orgs) = VALID ->
  checkEndorsementPolicy policy orgs = {| v_code := VALID; v_message := None |}.
Proof.
  unfold checkEndorsementPolicy.
  repeat (match goal with |- context [if ?b then _ else _] => destruct b end); done.
Qed.

Lemma Set_add_nil (x : string) : Set_add [] x = [x].
Proof.
  unfold Set_add, includes. by rewrite bool_decide_eq_false_2 by apply not_elem_of_nil.
Qed.

Section EndorseThenValidate.
Context `{Crypto} `{Signer}.
Variable config : NetworkMSPConfig.
Variable ws : WorldStateStore.
Variable endorser : Endorser.
Variable client : LitefabClient.

Let msp := MSP_initialize config.

Hypothesis endorser_msp_eq : endorser_msp endorser = msp.
Hypothesis endorser_host : host_worldState (chaincodeHost endorser) = ws.

Variable clientIdentity peerIdentity : Identity.
Hypothesis client_registered :
  getIdentity msp (client_clientId client) = Some clientIdentity.
Hypothesis client_role : role clientIdentity = CLIENT.
Hypothesis client_keys :
  forall data, verify data (sign data (client_clientPrivateKey client))
                      (publicKey clientIdentity) = true.
Hypothesis peer_registered : getIdentity msp (peerId endorser) = Some peerIdentity.
Hypothesis peer_role : role peerIdentity = PEER.
Hypothesis peer_keys :
  forall data, verify data (sign data (peerPrivateKey endorser))
                      (publicKey peerIdentity) = true.

Lemma verifySignature_signed (data privateKey signerId : string) (identity : Identity)
      (r : Role) :
  getIdentity msp signerId = Some identity -> role identity = r ->
  verify data (sign data privateKey) (publicKey identity) = true ->
  verifySignature msp data (sign data privateKey) signerId (Some r)
  = {| valid := true; signer := Some identity; error := None |}.
Proof.
  intros Hid Hrole Hverify. unfold verifySignature.
  rewrite Hid, bool_decide_eq_false_2 by (by intros []).
  by rewrite Hverify.
Qed.

Lemma processProposal_inv (proposal : Proposal) (generatedTxId : string)
      (response : ProposalResponse) :
  processProposal endorser proposal generatedTxId = Ok response ->
  exists data,
    executeTransaction (chaincodeHost endorser) (chaincodeId (proposal_payload proposal))
                       (proposal_payload proposal) (proposal_creatorId proposal)
                       (proposal_creatorOrgId proposal) generatedTxId
    = Ok (response_rwSet response, response_result response)
    /\ canonicalStringify
         (JSON.Object [("proposal",
                        JSON.Object [("txId", JSON.Str (proposal_txId proposal));
                                     ("payload",
                                      ToJSON.txPayload (proposal_payload proposal))]);
                       ("rwSet", ToJSON.rwset (response_rwSet response));
                       ("result", ToJSON.nullable (response_result response))])
       = Ok data
    /\ response_endorsement response
       = {| endorserId := identity_id peerIdentity;
            endorserOrgId := orgId peerIdentity;
            signature := sign data (peerPrivateKey endorser) |}.
Proof.
  unfold processProposal.
  destruct (match payload_type (proposal_payload proposal) with
            | DEPLOY_CHAINCODE => _ | INVOKE_CHAINCODE => _ end) as [[]|e]; [|done].
  cbn [bindE].
  destruct (executeTransaction _ _ _ _ _ _) as [[rwSet result]|e]; [|done].
  cbn [bindE].
  destruct (canonicalStringify _) as [data|e] eqn:Hdata; [|done]. cbn [bindE].
  rewrite endorser_msp_eq, peer_registered. intros [= <-]. by exists data.
Qed.

(** X16 — a transaction endorsed on the state it is committed on is
    validated by its policy alone. A client builds a proposal, a peer
    accepts and endorses it, and the client wraps the response into an
    envelope; the keys of the client and of the peer are those registered
    for them, with roles [CLIENT] and [PEER]. Then the peer's submit handler
    accepts the envelope, and on the world state of the simulation the
    committer's verdict is what the endorsement policy says about the
    peer's organization: the client signature, the endorsement signature and
    the read set all pass. *)
Theorem endorsed_transaction_validates
        (id generatedTxId : string) (p : TxPayload)
        (proposal : Proposal) (response : ProposalResponse) (tx : TransactionEnvelope) :
  createProposal client id p = Ok proposal ->
  handleProposal endorser proposal generatedTxId = Ok (Accepted response) ->
  createTransactionEnvelope client proposal [response] = Ok tx ->
  handleSubmit msp tx = Ok (Accepted "received")
  /\ forall policy blockNumber i,
       resolvePolicy ws tx = Ok (inr (Ok policy)) ->
       validateTransaction msp ws tx blockNumber i
       = Ok (checkEndorsementPolicy policy [orgId peerIdentity]).
Proof.
  intros Hproposal Hhandle Henvelope.
  (* the proposal *)
  unfold createProposal in Hproposal.
  destruct (canonicalStringify _) as [pdata|e] in Hproposal; [|done].
  cbn [bindE] in Hproposal. injection Hproposal as <-.
  (* the response *)
  unfold handleProposal in Hhandle.
  destruct (canonicalStringify _) as [pdata'|e] in Hhandle; [|done].
  cbn [bindE] in Hhandle. destruct (negb _) in Hhandle; [done|].
  destruct (processProposal _ _ _) as [response'|e] eqn:Hprocess; [|done].
  cbn [bindE] in Hhandle. injection Hhandle as ->.
  apply processProposal_inv in Hprocess as (edata & Hexec & Hedata & Hendorsement).
  cbn [proposal_payload proposal_txId proposal_creatorId proposal_creatorOrgId]
    in Hexec, Hedata.
  (* the envelope *)
  unfold createTransactionEnvelope in Henvelope.
  cbn [proposal_payload proposal_txId proposal_creatorId proposal_creatorOrgId
       proposal_creatorPubKey map] in Henvelope.
  destruct (canonicalStringify _) as [tdata|e] eqn:Htdata in Henvelope; [|done].
  cbn [bindE] in Henvelope. injection Henvelope as <-.
  unfold txData in Htdata.
  cbn [txId creatorId creatorOrgId creatorPubKey payload rwSet result endorsements]
    in Htdata.
  assert (Hclient :
    verifySignature msp tdata (sign tdata (client_clientPrivateKey client))
                    (client_clientId client) (Some CLIENT)
    = {| valid := true; signer := Some clientIdentity; error := None |})
    by by apply verifySignature_signed.
  split.
  - unfold handleSubmit, txData.
    cbn [txId creatorId creatorOrgId creatorPubKey payload rwSet result endorsements
         clientSignature].
    rewrite Htdata. cbn [bindE]. by rewrite Hclient.
  - intros policy blockNumber i Hpolicy. unfold validateTransaction, txData.
    cbn [txId creatorId creatorOrgId creatorPubKey payload rwSet result endorsements
         clientSignature].
    rewrite Htdata. cbn [bindE]. rewrite Hclient. cbn [valid negb].
    unfold validateEndorsements. rewrite Hpolicy. cbn [bindE endorsements].
    rewrite Hendorsement. cbn [verifyEndorsements].
    unfold endorsementData. cbn [txId payload rwSet result].
    rewrite Hedata. cbn [bindE signature endorserId endorserOrgId].
    rewrite (verifySignature_signed edata _ _ peerIdentity PEER); [|
      by rewrite (getIdentity_initialize_id config _ _ peer_registered)|done|done].
    cbn [valid negb bindE]. rewrite Set_add_nil.
    case_bool_decide as Hcode; [done|].
    rewrite <- endorser_host.
    rewrite (executeTransaction_readsCurrent _ _ _ _ _ _ _ _ Hexec). cbn [bindE negb].
    by rewrite (checkEndorsementPolicy_VALID _ _ Hcode).
Qed.

End EndorseThenValidate.

Lemma endorsed_transaction_validates_witness :
  handleSubmit (H := Scenario.crypto) Scenario.msp Samples.endorsedTx
  = Ok (Accepted "received")
  /\ validateTransaction (H := Scenario.crypto) Scenario.msp Scenario.world
                         Samples.endorsedTx 3 0
     = Ok {| v_code := VALID; v_message := None |}.
Proof.
  destruct (endorsed_transaction_validates (H := Scenario.crypto) (H0 := Samples.signer)
              Scenario.config Scenario.world Samples.endorser Samples.client
              eq_refl eq_refl
              (Scenario.identityOf "Org1Client" "Org1" CLIENT)
              (Scenario.identityOf "Org1Peer" "Org1" PEER)
              eq_refl eq_refl (fun data => String.eqb_refl _)
              eq_refl eq_refl (fun data => String.eqb_refl _)
              "tx9" "sim9" (Scenario.transfer "100")
              Samples.proposal Samples.response Samples.endorsedTx)
    as [Hsubmit Hvalidate].
  - by vm_compute.
  - by vm_compute.
  - by vm_compute.
  - split; [exact Hsubmit|].
    refine (eq_trans
              (Hvalidate {| policy_type := "ANY"; policy_orgs := ["Org1"] |} 3 0%nat _)
              _); by vm_compute.
Defined.

(** ** The token chaincode *)

Lemma orZero_Number_toString (z : Z) :
  Token.orZero (Some (JSON.Number_toString z)) = JSON.Number_toString z.
Proof. destruct (Number_toString_head z) as (c & r & -> & _). reflexivity. Qed.

Section TokenTransfer.
Variable host : ChaincodeHost.
Variable installedId : string.
Hypothesis installed : chaincodes host !! installedId = Some Token.chaincode.
Hypothesis versions_readable : wellFormed (host_worldState host).

Lemma parseInt_empty : parseInt "" = None.
Proof. reflexivity. Qed.

Lemma transfer_writes (ctx : ChaincodeExecutionContext) (from to amount : string)
      (a bf bt : Z) :
  from <> "" -> to <> "" -> parseInt amount = Some a -> 0 < a ->
  parseInt (Token.orZero (getState (host_worldState host) (balanceKey from))) = Some bf ->
  a <= bf ->
  parseInt (Token.orZero (getState (host_worldState host) (balanceKey to))) = Some bt ->
  exists ctx',
    run (host_worldState host) (Token.transfer ctx [from; to; amount]) ctx
    = Ok (ctx', Some ("Transferred " ++ JSON.Number_toString a ++ " tokens from "
                      ++ from ++ " to " ++ to))
    /\ writeSet ctx'
       = (writeSet ctx
          ++ [{| write_key := balanceKey from;
                 write_value := Some (JSON.Number_toString (bf - a)) |};
              {| write_key := balanceKey to;
                 write_value := Some (JSON.Number_toString (bt + a)) |}])%list.
Proof.
  intros Hfrom Hto Hamount Hpos Hbf Hle Hbt.
  assert (Hamount' : amount <> "") by (intros ->; by rewrite parseInt_empty in Hamount).
  unfold Token.transfer. cbn [lookup list_lookup default from_option id].
  destruct from as [|cf from]; [done|]. destruct to as [|ct to]; [done|].
  destruct amount as [|ca amount]; [done|]. cbn [Token.missing orb].
  rewrite Hamount. cbn [Token.isNaN Token.le orb].
  rewrite (proj2 (Z.leb_gt a 0) Hpos).
  cbn [run]. unfold Context.getState.
  destruct (getVersion_total _ (balanceKey (String cf from)) versions_readable) as [vf Hvf].
  destruct (getVersion_total _ (balanceKey (String ct to)) versions_readable) as [vt Hvt].
  fold (balanceKey (String cf from)). rewrite Hvf. cbn [bindE].
  rewrite Hbf. cbn [Token.lt]. rewrite (proj2 (Z.ltb_ge bf a) Hle).
  cbn [run]. unfold Context.getState.
  fold (balanceKey (String ct to)). rewrite Hvt. cbn [bindE].
  rewrite Hbt. cbn [run Token.add Token.sub Token.toString].
  eexists. split; [reflexivity|].
  cbn [Context.putState pushWrite pushRead writeSet]. by rewrite <- app_assoc.
Qed.

Lemma executeTransaction_transfer (from to amount creatorId creatorOrgId txId : string)
      (policy : option EndorsementPolicy) (a bf bt : Z) :
  from <> "" -> to <> "" -> parseInt amount = Some a -> 0 < a ->
  parseInt (Token.orZero (getState (host_worldState host) (balanceKey from))) = Some bf ->
  a <= bf ->
  parseInt (Token.orZero (getState (host_worldState host) (balanceKey to))) = Some bt ->
  exists rwSet message,
    executeTransaction host installedId (transferPayload installedId from to amount policy)
                       creatorId creatorOrgId txId
    = Ok (rwSet, Some message)
    /\ writes rwSet
       = [{| write_key := balanceKey from;
             write_value := Some (JSON.Number_toString (bf - a)) |};
          {| write_key := balanceKey to;
             write_value := Some (JSON.Number_toString (bt + a)) |}].
Proof.
  intros Hfrom Hto Hamount Hpos Hbf Hle Hbt.
  destruct (transfer_writes (newContext txId creatorId creatorOrgId)
              from to amount a bf bt Hfrom Hto Hamount Hpos Hbf Hle Hbt)
    as (ctx' & Hrun & Hwrites).
  unfold executeTransaction. rewrite installed.
  cbn [transferPayload payload_type functionName args default from_option id].
  rewrite (eq_refl : invoke Token.chaincode _ "transfer" _ = Token.transfer _ _).
  rewrite Hrun. cbn [bindE orNull]. do 2 eexists. split; [reflexivity|].
  cbn [Context.getRWSet writes]. by rewrite Hwrites.
Qed.

(** X17 — a transfer between two accounts moves the amount. For a positive
    amount that the balance of the sender covers, all balances being safe
    integers before and after, the simulation of [transfer] returns, and
    once its write set is applied the sender holds the amount less and the
    receiver the amount more, so that the sum of the two balances is what it
    was. *)
Theorem token_transfer_conserves
        (from to amount creatorId creatorOrgId txId : string)
        (policy : option EndorsementPolicy) (a bf bt : Z) :
  from <> "" -> to <> "" -> from <> to -> parseInt amount = Some a -> 0 < a ->
  parseInt (Token.orZero (getState (host_worldState host) (balanceKey from))) = Some bf ->
  a <= bf ->
  parseInt (Token.orZero (getState (host_worldState host) (balanceKey to))) = Some bt ->
  isSafeInteger bf = true -> isSafeInteger bt = true -> isSafeInteger (bt + a) = true ->
  exists rwSet message,
    executeTransaction host installedId (transferPayload installedId from to amount policy)
                       creatorId creatorOrgId txId
    = Ok (rwSet, Some message)
    /\ forall blockNumber txNumber,
         let ws' := applyRWSet (host_worldState host) rwSet blockNumber txNumber in
         getState ws' (balanceKey from) = Some (JSON.Number_toString (bf - a))
         /\ getState ws' (balanceKey to) = Some (JSON.Number_toString (bt + a))
         /\ exists bf' bt',
              parseInt (Token.orZero (getState ws' (balanceKey from))) = Some bf'
              /\ parseInt (Token.orZero (getState ws' (balanceKey to))) = Some bt'
              /\ isSafeInteger bf' = true /\ isSafeInteger bt' = true
              /\ bf' + bt' = bf + bt.
Proof.
  intros Hfrom Hto Hne Hamount Hpos Hbf Hle Hbt Hsafe_f Hsafe_t Hsafe_t'.
  destruct (executeTransaction_transfer from to amount creatorId creatorOrgId txId
              policy a bf bt Hfrom Hto Hamount Hpos Hbf Hle Hbt)
    as (rwSet & message & Hexec & Hwrites).
  exists rwSet, message. split; [done|]. intros bn tn ws'.
  assert (Hkeys : balanceKey to <> balanceKey from)
    by (unfold balanceKey; intros Heq%append_inj_l; congruence).
  assert (Hf : getState ws' (balanceKey from) = Some (JSON.Number_toString (bf - a))).
  { apply (applyRWSet_getState_last _ rwSet bn tn []
             {| write_key := balanceKey from;
                write_value := Some (JSON.Number_toString (bf - a)) |}
             [{| write_key := balanceKey to;
                 write_value := Some (JSON.Number_toString (bt + a)) |}]); [done|].
    intros w' Hw'. apply elem_of_cons in Hw' as [->|Hw']; [done|].
    by apply not_elem_of_nil in Hw'. }
  assert (Ht : getState ws' (balanceKey to) = Some (JSON.Number_toString (bt + a))).
  { apply (applyRWSet_getState_last _ rwSet bn tn
             [{| write_key := balanceKey from;
                 write_value := Some (JSON.Number_toString (bf - a)) |}]
             {| write_key := balanceKey to;
                write_value := Some (JSON.Number_toString (bt + a)) |} []); [done|].
    intros w' Hw'. by apply not_elem_of_nil in Hw'. }
  split_and!; [done..|]. exists (bf - a), (bt + a). rewrite Hf, Ht.
  rewrite !orZero_Number_toString, !parseInt_Number_toString.
  split_and!; [done|done| |done|lia].
  unfold isSafeInteger in *. lia.
Qed.

(** X18 — a transfer to oneself creates tokens. The second read of
    [transfer] does not see the first write, so with the sender as receiver
    the write set ends with the balance plus the amount, and that is the
    balance once the write set is applied. The balance plus the amount is a
    safe integer. *)
Theorem token_transfer_to_self_mints
        (account amount creatorId creatorOrgId txId : string)
        (policy : option EndorsementPolicy) (a b : Z) :
  account <> "" -> parseInt amount = Some a -> 0 < a ->
  parseInt (Token.orZero (getState (host_worldState host) (balanceKey account))) = Some b ->
  a <= b -> isSafeInteger (b + a) = true ->
  exists rwSet message,
    executeTransaction host installedId (transferPayload installedId account account amount policy)
                       creatorId creatorOrgId txId
    = Ok (rwSet, Some message)
    /\ forall blockNumber txNumber,
         getState (applyRWSet (host_worldState host) rwSet blockNumber txNumber)
                  (balanceKey account)
         = Some (JSON.Number_toString (b + a)).
Proof.
  intros Haccount Hamount Hpos Hb Hle _.
  destruct (executeTransaction_transfer account account amount creatorId creatorOrgId
              txId policy a b b Haccount Haccount Hamount Hpos Hb Hle Hb)
    as (rwSet & message & Hexec & Hwrites).
  exists rwSet, message. split; [done|]. intros bn tn.
  apply (applyRWSet_getState_last _ rwSet bn tn
           [{| write_key := balanceKey account;
               write_value := Some (JSON.Number_toString (b - a)) |}]
           {| write_key := balanceKey account;
              write_value := Some (JSON.Number_toString (b + a)) |} []); [done|].
  intros w' Hw'. by apply not_elem_of_nil in Hw'.
Qed.

End TokenTransfer.

Lemma token_transfer_conserves_witness :
  exists rwSet message,
    executeTransaction Samples.host "basic"
                       (transferPayload "basic" "Alice" "Bob" "100" None)
                       "Org1Client" "Org1" "sim0"
    = Ok (rwSet, Some message)
    /\ forall blockNumber txNumber,
         let ws' := applyRWSet Scenario.world rwSet blockNumber txNumber in
         getState ws' (balanceKey "Alice") = Some "300"
         /\ getState ws' (balanceKey "Bob") = Some "100"
         /\ exists bf' bt',
              parseInt (Token.orZero (getState ws' (balanceKey "Alice"))) = Some bf'
              /\ parseInt (Token.orZero (getState ws' (balanceKey "Bob"))) = Some bt'
              /\ isSafeInteger bf' = true /\ isSafeInteger bt' = true
              /\ bf' + bt' = 400 + 0.
Proof.
  apply (token_transfer_conserves Samples.host "basic" eq_refl wellFormed_world
           "Alice" "Bob" "100" "Org1Client" "Org1" "sim0" None 100 400 0);
    (discriminate || reflexivity || lia).
Defined.

Lemma token_transfer_to_self_mints_witness :
  exists rwSet message,
    executeTransaction Samples.host "basic"
                       (transferPayload "basic" "Alice" "Alice" "100" None)
                       "Org1Client" "Org1" "sim0"
    = Ok (rwSet, Some message)
    /\ forall blockNumber txNumber,
         getState (applyRWSet Scenario.world rwSet blockNumber txNumber)
                  (balanceKey "Alice")
         = Some "500".
Proof.
  apply (token_transfer_to_self_mints Samples.host "basic" eq_refl wellFormed_world
           "Alice" "100" "Org1Client" "Org1" "sim0" None 100 400);
    (discriminate || reflexivity || lia).
Defined.

Section TokenMint.
Variable host : ChaincodeHost.
Variable installedId : string.
Hypothesis installed : chaincodes host !! installedId = Some Token.chaincode.
Hypothesis versions_readable : wellFormed (host_worldState host).

(** X30 — minting adds the amount to the supply and to the balance, for
    every caller whose organization id contains [Org1]. For a positive
    amount and a recipient, the amount, the supply and the balance being
    safe integers before and after, the simulation of [mint] returns, and
    once its write set is applied the total supply and the balance of the
    recipient are what they were plus the amount. *)
Theorem token_mint_adds
        (amount recipient creatorId creatorOrgId txId : string)
        (policy : option EndorsementPolicy) (a supply balance : Z) :
  recipient <> "" -> parseInt amount = Some a -> 0 < a ->
  Token.includes creatorOrgId "Org1" = true ->
  parseInt (Token.orZero (getState (host_worldState host) "totalSupply")) = Some supply ->
  parseInt (Token.orZero (getState (host_worldState host) (balanceKey recipient)))
  = Some balance ->
  isSafeInteger a = true ->
  isSafeInteger supply = true -> isSafeInteger (supply + a) = true ->
  isSafeInteger balance = true -> isSafeInteger (balance + a) = true ->
  exists rwSet message,
    executeTransaction host installedId (mintPayload installedId amount recipient policy)
                       creatorId creatorOrgId txId
    = Ok (rwSet, Some message)
    /\ forall blockNumber txNumber,
         let ws' := applyRWSet (host_worldState host) rwSet blockNumber txNumber in
         getState ws' "totalSupply" = Some (JSON.Number_toString (supply + a))
         /\ getState ws' (balanceKey recipient)
            = Some (JSON.Number_toString (balance + a)).
Proof.
  intros Hrecipient Hamount Hpos Horg Hsupply Hbalance _ _ _ _ _.
  assert (Hamount' : amount <> "") by (intros ->; by rewrite parseInt_empty in Hamount).
  destruct (getVersion_total _ "totalSupply" versions_readable) as [vs Hvs].
  destruct (getVersion_total _ (balanceKey recipient) versions_readable) as [vb Hvb].
  assert (Hrun :
    exists ctx',
      run (host_worldState host)
          (Token.mint (newContext txId creatorId creatorOrgId) [amount; recipient])
          (newContext txId creatorId creatorOrgId)
      = Ok (ctx', Some ("Minted " ++ JSON.Number_toString a ++ " tokens to " ++ recipient))
      /\ writeSet ctx'
         = [{| write_key := "totalSupply";
               write_value := Some (JSON.Number_toString (supply + a)) |};
            {| write_key := balanceKey recipient;
               write_value := Some (JSON.Number_toString (balance + a)) |}]).
  { unfold Token.mint. cbn [lookup list_lookup default from_option id].
    destruct recipient as [|cr recipient]; [done|].
    destruct amount as [|ca amount]; [done|]. cbn [Token.missing orb].
    cbn [newContext clientOrgId]. rewrite Horg. cbn [negb].
    rewrite Hamount. cbn [Token.isNaN Token.le orb].
    rewrite (proj2 (Z.leb_gt a 0) Hpos).
    cbn [run]. unfold Context.getState. rewrite Hvs. cbn [bindE].
    rewrite Hsupply. cbn [run]. unfold Context.getState.
    fold (balanceKey (String cr recipient)). rewrite Hvb. cbn [bindE].
    rewrite Hbalance. cbn [run Token.add Token.toString].
    eexists. split; reflexivity. }
  destruct Hrun as (ctx' & Hrun & Hwrites).
  exists (Context.getRWSet ctx'). eexists. split.
  - unfold executeTransaction. rewrite installed.
    cbn [mintPayload payload_type functionName args default from_option id].
    rewrite (eq_refl : invoke Token.chaincode _ "mint" _ = Token.mint _ _).
    rewrite Hrun. reflexivity.
  - intros bn tn ws'. split.
    + apply (applyRWSet_getState_last _ (Context.getRWSet ctx') bn tn []
               {| write_key := "totalSupply";
                  write_value := Some (JSON.Number_toString (supply + a)) |}
               [{| write_key := balanceKey recipient;
                   write_value := Some (JSON.Number_toString (balance + a)) |}]);
        [done|].
      intros w' Hw'. apply elem_of_cons in Hw' as [->|Hw']; [done|].
      by apply not_elem_of_nil in Hw'.
    + apply (applyRWSet_getState_last _ (Context.getRWSet ctx') bn tn
               [{| write_key := "totalSupply";
                   write_value := Some (JSON.Number_toString (supply + a)) |}]
               {| write_key := balanceKey recipient;
                  write_value := Some (JSON.Number_toString (balance + a)) |} []);
        [done|].
      intros w' Hw'. by apply not_elem_of_nil in Hw'.
Qed.

End TokenMint.

Lemma token_mint_adds_witness :
  exists rwSet message,
    executeTransaction Samples.host "basic" (mintPayload "basic" "50" "Alice" None)
                       "Mallory" "NotOrg1" "sim0"
    = Ok (rwSet, Some message)
    /\ forall blockNumber txNumber,
         let ws' := applyRWSet Scenario.world rwSet blockNumber txNumber in
         getState ws' "totalSupply" = Some "50"
         /\ getState ws' (balanceKey "Alice") = Some "450".
Proof.
  apply (token_mint_adds Samples.host "basic" eq_refl wellFormed_world
           "50" "Alice" "Mallory" "NotOrg1" "sim0" None 50 0 400);
    (discriminate || reflexivity || lia).
Defined.

(** ** Runs of Solo consensus *)

Lemma soloStep_spec (c : SoloConsensus) (e : OrderingEvent) :
  soloInvariant c ->
  soloInvariant (fst (soloStep c e))
  /\ nodeId (fst (soloStep c e)) = nodeId c
  /\ (concat (map transactions (emitted (snd (soloStep c e))))
      ++ pendingTxs (fst (soloStep c e))
      = pendingTxs c ++ submitted [e])%list
  /\ blockNumber (fst (soloStep c e))
     = blockNumber c + Z.of_nat (List.length (emitted (snd (soloStep c e))))
  /\ Forall (soloBlock c) (emitted (snd (soloStep c e))).
Proof.
  unfold soloInvariant. intros Hinv. destruct e as [tx now|now]; cbn [soloStep].
  - cbn [submitTx emitted pendingTxs blockTimer nodeId blockNumber map concat app
         submitted omap list_omap length fst snd].
    rewrite length_app. cbn [length].
    replace (0 <? _ + 1)%nat with true by (symmetry; apply Nat.ltb_lt; lia).
    replace (_ + 1 =? 0)%nat with false by (symmetry; apply Nat.eqb_neq; lia).
    split_and!; [by destruct (blockTimer c)|done|done|lia|done].
  - destruct (blockTimer c) eqn:Htimer.
    + unfold createBlock. cbn [pendingTxs].
      destruct (pendingTxs c) as [|tx txs] eqn:Hpending; [done|].
      cbn [length Nat.eqb emitted pendingTxs blockTimer nodeId blockNumber map concat
           app submitted omap list_omap fst snd transactions].
      rewrite ?app_nil_r.
      split_and!; [by cbn|by cbn|by cbn|cbn; lia|].
      constructor; [|done]. unfold soloBlock. cbn. by rewrite Hpending.
    + cbn [emitted map concat app submitted omap list_omap length fst snd].
      rewrite ?app_nil_r.
      split_and!; [congruence|done|by cbn; rewrite ?app_nil_r|cbn; lia|constructor].
Qed.

Lemma soloRun_cons (c : SoloConsensus) (e : OrderingEvent) (events : list OrderingEvent) :
  soloRun c (e :: events)
  = (fst (soloRun (fst (soloStep c e)) events),
     (emitted (snd (soloStep c e)) ++ snd (soloRun (fst (soloStep c e)) events))%list).
Proof.
  cbn [soloRun]. destruct (soloStep c e) as [c1 block]. cbn [fst snd].
  destruct (soloRun c1 events) as [c' blocks]. reflexivity.
Qed.

Lemma emitted_length (block : option Block) : (List.length (emitted block) <= 1)%nat.
Proof. destruct block; cbn; lia. Qed.

Lemma map_seq_shift {A} (f g : nat -> A) (k s n : nat) :
  (forall i, f i = g (k + i)%nat) -> map f (seq s n) = map g (seq (s + k) n).
Proof.
  intros Hfg. revert s. induction n as [|n IH]; intros s; [done|].
  cbn [seq map]. rewrite Hfg, (IH (S s)). do 2 f_equal. lia.
Qed.

Lemma soloRun_spec (c : SoloConsensus) (events : list OrderingEvent) :
  soloInvariant c ->
  soloInvariant (fst (soloRun c events))
  /\ nodeId (fst (soloRun c events)) = nodeId c
  /\ (concat (map transactions (snd (soloRun c events)))
      ++ pendingTxs (fst (soloRun c events))
      = pendingTxs c ++ submitted events)%list
  /\ blockNumber (fst (soloRun c events))
     = blockNumber c + Z.of_nat (List.length (snd (soloRun c events)))
  /\ map (fun b => number (header b)) (snd (soloRun c events))
     = map (fun i => blockNumber c + Z.of_nat i)
           (seq 0 (List.length (snd (soloRun c events))))
  /\ Forall (fun b => transactions b <> []
                      /\ previousHash (header b) = "0"
                      /\ dataHash (header b) = JSON.join "|" (map txId (transactions b))
                      /\ ordererId (metadata b) = nodeId c
                      /\ ordererSignature (metadata b) = "")
            (snd (soloRun c events)).
Proof.
  revert c. induction events as [|e events IH]; intros c Hinv.
  - cbn. rewrite app_nil_r. split_and!; [done|done|done|lia|done|constructor].
  - rewrite soloRun_cons. cbn [fst snd].
    destruct (soloStep_spec c e Hinv) as (Hinv1 & Hnode1 & Htxs1 & Hnum1 & Hblocks1).
    destruct (IH _ Hinv1) as (Hinv' & Hnode' & Htxs' & Hnum' & Hnums' & Hblocks').
    set (c1 := fst (soloStep c e)) in *.
    set (block := snd (soloStep c e)) in *.
    set (c' := fst (soloRun c1 events)) in *.
    set (blocks := snd (soloRun c1 events)) in *.
    split_and!.
    + done.
    + congruence.
    + rewrite map_app, concat_app, <- app_assoc, Htxs', app_assoc, Htxs1.
      rewrite <- app_assoc. f_equal.
      change (e :: events) with ([e] ++ events)%list.
      unfold submitted. by rewrite omap_app.
    + rewrite Hnum', Hnum1, length_app. lia.
    + rewrite map_app, Hnums', length_app, seq_app, map_app. f_equal.
      * destruct block as [b|]; [|done].
        apply Forall_cons in Hblocks1 as [(Hb & _) _]. cbn. rewrite Hb. f_equal. lia.
      * apply map_seq_shift. intros i. rewrite Hnum1. lia.
    + apply Forall_app. split.
      * eapply Forall_impl; [exact Hblocks1|]. intros b Hb. unfold soloBlock in Hb.
        destruct Hb as (_ & _ & ? & ? & ? & ? & ? & _). done.
      * eapply Forall_impl; [exact Hblocks'|]. intros b Hb. cbn beta in Hb.
        rewrite Hnode1 in Hb. exact Hb.
Qed.

Lemma soloInvariant_new (id : string) : soloInvariant (newSoloConsensus id).
Proof. reflexivity. Qed.

(** X19 — Solo consensus loses, repeats and reorders nothing. Whatever the
    sequence of submissions and timer firings on a new Solo module, the
    transactions of the blocks it emitted, in the order of emission,
    followed by the transactions still pending, are the submitted
    transactions in the order of submission; the blocks are numbered 0, 1,
    2, ... without gap, none is empty, each names the node as orderer and
    carries no signature; and the timer is armed exactly when a transaction
    is pending. *)
Theorem soloRun_orders_all_submissions (id : string) (events : list OrderingEvent) :
  let c := fst (soloRun (newSoloConsensus id) events) in
  let blocks := snd (soloRun (newSoloConsensus id) events) in
  (concat (map transactions blocks) ++ pendingTxs c)%list = submitted events
  /\ map (fun b => number (header b)) blocks
     = map Z.of_nat (seq 0 (List.length blocks))
  /\ blockNumber c = Z.of_nat (List.length blocks)
  /\ Forall (fun b => transactions b <> []
                      /\ previousHash (header b) = "0"
                      /\ dataHash (header b) = JSON.join "|" (map txId (transactions b))
                      /\ ordererId (metadata b) = id
                      /\ ordererSignature (metadata b) = "")
            blocks
  /\ blockTimer c = negb (List.length (pendingTxs c) =? 0)%nat.
Proof.
  cbn zeta.
  destruct (soloRun_spec (newSoloConsensus id) events (soloInvariant_new id))
    as (Hinv & _ & Htxs & Hnum & Hnums & Hblocks).
  split_and!; [exact Htxs|exact Hnums|exact Hnum|exact Hblocks|exact Hinv].
Qed.

(** ** The orderer's block signature *)

Lemma serializeMembers_blockData (f : JSON.value -> option string)
      (v1 v2 v3 : JSON.value) (s1 s2 s3 : string) :
  f v1 = Some s1 -> f v2 = Some s2 -> f v3 = Some s3 ->
  JSON.serializeMembers f [("header", v1); ("transactions", v2); ("metadata", v3)]
                        blockDataKeys
  = [JSON.QuoteJSONString "header" ++ ":" ++ s1;
     JSON.QuoteJSONString "metadata" ++ ":" ++ s3;
     JSON.QuoteJSONString "transactions" ++ ":" ++ s2].
Proof.
  intros H1 H2 H3. unfold blockDataKeys.
  cbn [JSON.serializeMembers JSON.serializeGet String.eqb Ascii.eqb Bool.eqb].
  by rewrite H1, H2, H3.
Qed.

Lemma blockData_text (block : Block) :
  canonicalStringify (Orderer.blockData block)
  = Ok ("{" ++ JSON.join ","
          [JSON.QuoteJSONString "header" ++ ":" ++ "{}";
           JSON.QuoteJSONString "metadata" ++ ":" ++ "{}";
           JSON.QuoteJSONString "transactions" ++ ":"
             ++ ("[" ++ JSON.join "," (map (fun _ => "{}") (transactions block)) ++ "]")]
          ++ "}").
Proof.
  unfold canonicalStringify, Orderer.blockData. cbn [JSON.Object_keys bindE map fst].
  unfold JSON.stringify. cbn [fmap option_fmap option_map].
  change (JSON.PropertyList [] (JSON.Array_sort _)) with blockDataKeys.
  cbn [JSON.SerializeJSONProperty].
  assert (Hheader : JSON.SerializeJSONProperty (Some blockDataKeys)
                      (ToJSON.blockHeader (header block)) = Some "{}")
    by (apply SerializeJSONProperty_foreign; foreign_keys).
  assert (Hmeta : JSON.SerializeJSONProperty (Some blockDataKeys)
                    (JSON.Object [("timestamp", JSON.Str (timestamp (metadata block)));
                                  ("ordererId", JSON.Str (ordererId (metadata block)))])
                  = Some "{}")
    by (apply SerializeJSONProperty_foreign; foreign_keys).
  assert (Htxs : JSON.SerializeJSONProperty (Some blockDataKeys)
                   (JSON.Array (map ToJSON.transactionEnvelope (transactions block)))
                 = Some ("[" ++ JSON.join "," (map (fun _ => "{}") (transactions block))
                         ++ "]")).
  { cbn [JSON.SerializeJSONProperty]. rewrite map_map.
    enough (Hmap : map (fun tx => default "null"
                      (JSON.SerializeJSONProperty (Some blockDataKeys)
                                                  (ToJSON.transactionEnvelope tx)))
                     (transactions block)
                   = map (fun _ => "{}") (transactions block)) by by rewrite Hmap.
    apply map_ext. intros tx. unfold ToJSON.transactionEnvelope.
    by rewrite (SerializeJSONProperty_foreign blockDataKeys) by foreign_keys. }
  by rewrite (serializeMembers_blockData _ _ _ _ _ _ _ Hheader Htxs Hmeta).
Qed.

Lemma blockData_count (block block' : Block) :
  List.length (transactions block) = List.length (transactions block') ->
  canonicalStringify (Orderer.blockData block)
  = canonicalStringify (Orderer.blockData block').
Proof.
  intros Hlen. rewrite !blockData_text.
  enough (Htxs : map (fun _ : TransactionEnvelope => "{}") (transactions block)
                 = map (fun _ : TransactionEnvelope => "{}") (transactions block'))
    by by rewrite Htxs.
  revert Hlen. generalize (transactions block'). generalize (transactions block).
  induction l as [|e l IH]; intros [|e' l'] Hlen; try done.
  cbn in *. f_equal. apply IH. lia.
Qed.

Section OrdererBlocks.
Context `{Crypto} `{Signer}.

(** X20 — the orderer's signature counts the transactions and nothing
    else. [handleBroadcast] gives the same answer for two blocks that name
    the same orderer, carry the same signature and hold the same number of
    transactions: the header, the timestamp and the transactions themselves
    do not enter the signed text. *)
Theorem handleBroadcast_blind_to_content
        (msp : MSP) (ledger : gmap string string) (block block' : Block) :
  ordererId (metadata block) = ordererId (metadata block') ->
  ordererSignature (metadata block) = ordererSignature (metadata block') ->
  List.length (transactions block) = List.length (transactions block') ->
  fst <$> match Orderer.handleBroadcast msp ledger block with
          | Ok r => Some r | Throw _ => None end
  = fst <$> match Orderer.handleBroadcast msp ledger block' with
            | Ok r => Some r | Throw _ => None end.
Proof.
  intros Hid Hsig Hlen. unfold Orderer.handleBroadcast.
  rewrite (blockData_count block block' Hlen), Hid, Hsig.
  destruct (canonicalStringify _) as [data|e]; [|done]. cbn [bindE].
  destruct (negb _); [done|].
  destruct (storeBlock_returns ledger block) as [l ->].
  by destruct (storeBlock_returns ledger block') as [l' ->].
Qed.


End OrdererBlocks.

Lemma handleBroadcast_blind_to_content_witness :
  fst <$> match Orderer.handleBroadcast (H := Scenario.crypto) Samples.ordererMsp ∅
                                        Scenario.block0 with
          | Ok r => Some r | Throw _ => None end
  = fst <$> match Orderer.handleBroadcast (H := Scenario.crypto) Samples.ordererMsp ∅
                                          Samples.otherBlock with
            | Ok r => Some r | Throw _ => None end.
Proof.
  apply (handleBroadcast_blind_to_content (H := Scenario.crypto) Samples.ordererMsp ∅
           Scenario.block0 Samples.otherBlock); reflexivity.
Defined.


(** ** Runs of the block cutter *)

Section CutterRun.
Context `{Crypto}.

Lemma calculateDataHash_returns (txs : list TransactionEnvelope) :
  exists dataHash, calculateDataHash txs = Ok dataHash.
Proof.
  unfold calculateDataHash.
  enough (Heach : exists l,
             (fix each (txs : list TransactionEnvelope) : Exc (list string) :=
                match txs with
                | [] => Ok []
                | tx :: rest =>
                    x <- canonicalStringify (ToJSON.transactionEnvelope tx) ;;;
                    xs <- each rest ;;; Ok (x :: xs)
                end) txs = Ok l)
    by (destruct Heach as [l ->]; by eexists).
  induction txs as [|tx txs [l IH]]; [by eexists|].
  destruct (canonicalStringify_Object
              [("txId", JSON.Str (txId tx));
               ("creatorId", JSON.Str (creatorId tx));
               ("creatorOrgId", JSON.Str (creatorOrgId tx));
               ("creatorPubKey", JSON.Str (creatorPubKey tx));
               ("payload", ToJSON.txPayload (payload tx));
               ("rwSet", ToJSON.rwset (rwSet tx));
               ("result", ToJSON.nullable (result tx));
               ("endorsements", JSON.Array (map ToJSON.endorsement (endorsements tx)));
               ("clientSignature", JSON.Str (clientSignature tx))]) as [s Hs].
  unfold ToJSON.transactionEnvelope at 1. rewrite Hs. cbn [bindE]. rewrite IH.
  by eexists.
Qed.

Lemma cutBlock_spec (c : BlockCutter) (now : string) :
  (0 < List.length (cutter_pendingTxs c) <= maxBlockSize)%nat ->
  exists b,
    cutBlock c now = Ok ({| cutter_pendingTxs := []; batchTimer := false |}, Some b)
    /\ transactions b = cutter_pendingTxs c
    /\ cutterBlock b.
Proof.
  intros Hlen. unfold cutBlock. cbn [cutter_pendingTxs].
  replace (_ =? 0)%nat with false by (symmetry; apply Nat.eqb_neq; lia).
  unfold cutter_createBlock.
  destruct (calculateDataHash_returns (cutter_pendingTxs c)) as [dataHash ->].
  cbn [bindE]. eexists. split; [reflexivity|]. split; [reflexivity|].
  unfold cutterBlock.
  cbn [transactions header metadata number previousHash ordererId ordererSignature].
  split_and!; (done || lia).
Qed.

Lemma cutterStep_spec (c : BlockCutter) (e : OrderingEvent) :
  cutterInvariant c ->
  exists c' block,
    cutterStep c e = Ok (c', block)
    /\ cutterInvariant c'
    /\ (concat (map transactions (emitted block)) ++ cutter_pendingTxs c'
        = cutter_pendingTxs c ++ submitted [e])%list
    /\ Forall cutterBlock (emitted block).
Proof.
  intros [Hlen Htimer]. destruct e as [tx now|now]; cbn [cutterStep].
  - unfold addTransaction. cbn [cutter_pendingTxs batchTimer].
    destruct (maxBlockSize <=? _)%nat eqn:Hfull.
    + apply Nat.leb_le in Hfull. rewrite length_app in Hfull. cbn [length] in Hfull.
      destruct (cutBlock_spec {| cutter_pendingTxs := cutter_pendingTxs c ++ [tx];
                                 batchTimer := batchTimer c |} now)
        as (b & -> & Htxs & Hb).
      { cbn [cutter_pendingTxs]. rewrite length_app. cbn [length]. lia. }
      do 2 eexists. split; [reflexivity|]. split; [|split].
      * split; [cbn; unfold maxBlockSize; lia|done].
      * cbn. by rewrite Htxs, !app_nil_r.
      * constructor; [done|constructor].
    + apply Nat.leb_gt in Hfull. rewrite length_app in Hfull. cbn [length] in Hfull.
      assert (Hinv' : forall t,
                cutterInvariant {| cutter_pendingTxs := cutter_pendingTxs c ++ [tx];
                                   batchTimer := t |} <-> t = true).
      { intros t. unfold cutterInvariant. cbn [cutter_pendingTxs batchTimer].
        rewrite length_app. cbn [length].
        replace (_ + 1 =? 0)%nat with false by (symmetry; apply Nat.eqb_neq; lia).
        cbn [negb]. split; [by intros [_ ?]|]. intros ->. split; [lia|done]. }
      destruct (batchTimer c) eqn:Hb; cbn [negb]; do 2 eexists;
        (split; [reflexivity|]); (split; [by apply Hinv'|split; [done|constructor]]).
  - destruct (batchTimer c) eqn:Hb.
    + destruct (cutBlock_spec c now) as (b & -> & Htxs & Hblock).
      { split; [|lia]. destruct (cutter_pendingTxs c); [done|cbn; lia]. }
      do 2 eexists. split; [reflexivity|]. split; [|split].
      * split; [cbn; unfold maxBlockSize; lia|done].
      * cbn. by rewrite Htxs, !app_nil_r.
      * constructor; [done|constructor].
    + do 2 eexists. split; [reflexivity|].
      split; [split; [done|congruence]|split; [by cbn; rewrite app_nil_r|constructor]].
Qed.

Lemma cutterRun_spec (c : BlockCutter) (events : list OrderingEvent) :
  cutterInvariant c ->
  exists c' blocks,
    cutterRun c events = Ok (c', blocks)
    /\ cutterInvariant c'
    /\ (concat (map transactions blocks) ++ cutter_pendingTxs c'
        = cutter_pendingTxs c ++ submitted events)%list
    /\ Forall cutterBlock blocks.
Proof.
  revert c. induction events as [|e events IH]; intros c Hinv.
  - exists c, []. cbn [cutterRun submitted omap list_omap map concat app].
    rewrite app_nil_r. split; [done|]. split; [done|]. split; [done|constructor].
  - destruct (cutterStep_spec c e Hinv) as (c1 & block & Hstep & Hinv1 & Htxs1 & Hb1).
    destruct (IH c1 Hinv1) as (c' & blocks & Hrun & Hinv' & Htxs' & Hb').
    exists c', (emitted block ++ blocks)%list. split; [|split; [|split]].
    + cbn [cutterRun]. rewrite Hstep. cbn [bindE]. by rewrite Hrun.
    + done.
    + rewrite map_app, concat_app, <- app_assoc, Htxs', app_assoc, Htxs1.
      rewrite <- app_assoc. f_equal.
      change (e :: events) with ([e] ++ events)%list.
      unfold submitted. by rewrite omap_app.
    + by apply Forall_app.
Qed.

(** X22 — the block cutter batches without loss. Whatever the sequence of
    additions and timer firings on a new block cutter, every step returns;
    the transactions of the blocks it emitted followed by the pending ones
    are the added transactions in their order; a block holds between one
    and ten transactions; fewer than ten are pending, and the timer is armed
    exactly when one is. Every block it makes has number 0, previous hash
    ["0"] and orderer ["orderer1"]. *)
Theorem cutterRun_batches_all_additions (events : list OrderingEvent) :
  exists c blocks,
    cutterRun newBlockCutter events = Ok (c, blocks)
    /\ (concat (map transactions blocks) ++ cutter_pendingTxs c)%list = submitted events
    /\ Forall (fun b => (0 < List.length (transactions b) <= 10)%nat
                        /\ number (header b) = 0
                        /\ previousHash (header b) = "0"
                        /\ ordererId (metadata b) = "orderer1"
                        /\ ordererSignature (metadata b) = "")
              blocks
    /\ (List.length (cutter_pendingTxs c) < 10)%nat
    /\ batchTimer c = negb (List.length (cutter_pendingTxs c) =? 0)%nat.
Proof.
  destruct (cutterRun_spec newBlockCutter events)
    as (c & blocks & Hrun & [Hlen Htimer] & Htxs & Hblocks).
  { split; [cbn; unfold maxBlockSize; lia|done]. }
  exists c, blocks. split_and!; done.
Qed.

End CutterRun.

(** ** Runs of a Raft node *)

Lemma Set_add_length (set : list string) (x : string) :
  (List.length set <= List.length (Set_add set x))%nat.
Proof. unfold Set_add. destruct (includes set x); rewrite ?length_app; cbn; lia. Qed.

Lemma raft_createBlock_spec (c : RaftConsensus) (now : string) :
  (List.length (raft_pendingTxs c) <= blockSize)%nat ->
  let c' := fst (raft_createBlock c now) in
  let block := snd (raft_createBlock c now) in
  raft_pendingTxs c' = []
  /\ raft_blockTimer c' = false
  /\ concat (map transactions (emitted block)) = raft_pendingTxs c
  /\ log c' = log c
  /\ raft_nodeId c' = raft_nodeId c
  /\ raft_blockNumber c' = raft_blockNumber c + Z.of_nat (List.length (emitted block))
  /\ Forall (raftBlock c) (emitted block)
  /\ electionState c' = electionState c.
Proof.
  intros Hlen. unfold raft_createBlock.
  destruct (raft_pendingTxs c) as [|tx txs] eqn:Hpending; cbn [length Nat.eqb fst snd].
  - cbn. split_and!; first [done | lia | constructor].
  - cbn [emitted map concat app transactions raft_pendingTxs raft_blockTimer log
         raft_nodeId raft_blockNumber length].
    rewrite app_nil_r. cbn [length] in Hlen.
    split_and!; try first [done | lia].
    constructor; [|constructor]. unfold raftBlock.
    cbn [header number transactions previousHash metadata ordererId ordererSignature].
    split_and!; first [done | cbn [length]; lia].
Qed.

Lemma addToLog_spec (c : RaftConsensus) (tx : TransactionEnvelope) (now : string) :
  (List.length (raft_pendingTxs c) < blockSize)%nat ->
  raft_blockTimer c = negb (List.length (raft_pendingTxs c) =? 0)%nat ->
  let c' := fst (addToLog c tx now) in
  let block := snd (addToLog c tx now) in
  (List.length (raft_pendingTxs c') < blockSize)%nat
  /\ raft_blockTimer c' = negb (List.length (raft_pendingTxs c') =? 0)%nat
  /\ (concat (map transactions (emitted block)) ++ raft_pendingTxs c'
      = raft_pendingTxs c ++ [tx])%list
  /\ log c' = (log c ++ [tx])%list
  /\ raft_nodeId c' = raft_nodeId c
  /\ raft_blockNumber c' = raft_blockNumber c + Z.of_nat (List.length (emitted block))
  /\ Forall (raftBlock c) (emitted block)
  /\ electionState c' = electionState c.
Proof.
  intros Hlen Htimer. unfold addToLog. cbn [raft_pendingTxs raft_blockTimer].
  set (c1 := {| raft_nodeId := raft_nodeId c; raft_pendingTxs := raft_pendingTxs c ++ [tx];
                clusterNodes := _; isLeader := _; term := _; log := _; commitIndex := _;
                lastApplied := _; raft_blockNumber := _; raft_blockTimer := _;
                votedFor := _; votes := _; electionTimer := _; heartbeatTimer := _ |}).
  assert (Hlen1 : List.length (raft_pendingTxs c1) = S (List.length (raft_pendingTxs c)))
    by (cbn; rewrite length_app; cbn; lia).
  rewrite length_app. cbn [length].
  destruct (blockSize <=? _)%nat eqn:Hfull.
  - destruct (raft_createBlock_spec c1 now)
      as (Hp & Ht & Htxs & Hlog & Hid & Hnum & Hblocks & Helect); [lia|].
    cbn zeta in *. rewrite Hp, Ht, Htxs, Hlog, Hid, Hnum, Helect, app_nil_r.
    split_and!; try first [done | unfold blockSize; cbn; lia].
  - apply Nat.leb_gt in Hfull.
    replace (0 <? _ + 1)%nat with true by (symmetry; apply Nat.ltb_lt; lia).
    rewrite andb_true_r.
    assert (Hnz : (List.length (raft_pendingTxs c ++ [tx]) =? 0)%nat = false)
      by (apply Nat.eqb_neq; rewrite length_app; cbn; lia).
    assert (Hlt : (List.length (raft_pendingTxs c ++ [tx]) < blockSize)%nat)
      by (rewrite length_app; cbn [length]; lia).
    destruct (raft_blockTimer c) eqn:Hb;
      cbn [negb fst snd emitted map concat app raft_pendingTxs raft_blockTimer log
           raft_nodeId raft_blockNumber length c1];
      rewrite Hnz; (split_and!; first [done | lia | constructor]).
Qed.

Lemma checkElectionWon_step (c0 c : RaftConsensus) :
  electionStep c0 c -> electionStep c0 (checkElectionWon c).
Proof.
  intros (Hord & Hnodes & Hterm & Hleader). unfold checkElectionWon.
  destruct (_ && _) eqn:Hwon; [|done].
  apply andb_prop in Hwon as [Hq _]. apply Nat.leb_le in Hq.
  split_and!; [done|done|done|]. intros _ _. exact Hq.
Qed.

Lemma addVote_step (c : RaftConsensus) (node : string) : electionStep c (addVote c node).
Proof.
  split_and!; [done|done|cbn; lia|]. intros Hleader Hl. cbn in *.
  specialize (Hleader Hl). pose proof (Set_add_length (votes c) node). unfold quorum in *.
  cbn [clusterNodes]. lia.
Qed.

Lemma stepDown_withTerm_step (c : RaftConsensus) (t : Z) :
  term c <= t -> electionStep c (stepDown (withTerm c t)).
Proof. intros Ht. by split_and!. Qed.

Lemma electionStep_refl (c : RaftConsensus) : electionStep c c.
Proof. split_and!; [done|done|lia|done]. Qed.

Lemma startElection_step (c : RaftConsensus) : electionStep c (startElection c).
Proof. split_and!; [done|done|cbn; lia|done]. Qed.

Lemma receiveVote_step (c : RaftConsensus) (nodeId : string) (t : Z) :
  electionStep c (receiveVote c nodeId t).
Proof.
  unfold receiveVote. destruct (_ && _).
  - apply checkElectionWon_step, addVote_step.
  - destruct (term c <? t) eqn:Hlt; [|apply electionStep_refl].
    apply stepDown_withTerm_step. apply Z.ltb_lt in Hlt. lia.
Qed.

Lemma receiveAppendEntries_step (c : RaftConsensus) (leaderId : string)
      (t prevLogIndex prevLogTerm : Z) (entries : list TransactionEnvelope)
      (leaderCommit : Z) :
  electionStep c (fst (receiveAppendEntries c leaderId t prevLogIndex prevLogTerm
                                            entries leaderCommit)).
Proof.
  unfold receiveAppendEntries.
  assert (Hfirst : electionStep c (if term c <? t then stepDown (withTerm c t) else c)).
  { destruct (term c <? t) eqn:Hlt; [|apply electionStep_refl].
    apply stepDown_withTerm_step. apply Z.ltb_lt in Hlt. lia. }
  set (c1 := if term c <? t then stepDown (withTerm c t) else c) in *.
  destruct (t <? term c1); cbn [fst]; [exact Hfirst|].
  destruct Hfirst as (Hord & Hnodes & Hterm & Hleader).
  split_and!; [exact Hord|exact Hnodes|exact Hterm|exact Hleader].
Qed.

Lemma raftStep_spec (c : RaftConsensus) (e : RaftEvent) :
  raftInvariant c ->
  let c' := fst (fst (raftStep c e)) in
  let block := snd (fst (raftStep c e)) in
  let taken := snd (raftStep c e) in
  raftInvariant c'
  /\ (concat (map transactions (emitted block)) ++ raft_pendingTxs c'
      = raft_pendingTxs c ++ taken)%list
  /\ log c' = (log c ++ taken)%list
  /\ raft_nodeId c' = raft_nodeId c
  /\ clusterNodes c' = clusterNodes c
  /\ raft_blockNumber c' = raft_blockNumber c + Z.of_nat (List.length (emitted block))
  /\ Forall (raftBlock c) (emitted block)
  /\ term c <= term c'
  /\ (bringsVote e = false -> isLeader c = false -> isLeader c' = false).
Proof.
  intros (Hlen & Htimer & Hleader).
  assert (Helection : forall c',
            electionStep c c' ->
            raftInvariant c'
            /\ (concat (map transactions (emitted None)) ++ raft_pendingTxs c'
                = raft_pendingTxs c ++ [])%list
            /\ log c' = (log c ++ [])%list
            /\ raft_nodeId c' = raft_nodeId c
            /\ clusterNodes c' = clusterNodes c
            /\ raft_blockNumber c' = raft_blockNumber c + Z.of_nat (List.length (emitted None))
            /\ Forall (raftBlock c) (emitted None)
            /\ term c <= term c').
  { intros c' (Hord & Hnodes & Hterm & Hl'). unfold orderingState in Hord.
    injection Hord as Hid Hlog Hpending Hnum Hbt.
    unfold raftInvariant. rewrite Hpending, Hbt, Hlog, Hid, Hnum, !app_nil_r.
    cbn. split_and!; first [done | lia | constructor | by apply Hl']. }
  assert (Hordering : forall r : RaftConsensus * option Block,
            electionState (fst r) = electionState c -> isLeader (fst r) = isLeader c
            /\ ((isLeader (fst r) = true ->
                 (quorum (fst r) <= List.length (votes (fst r)))%nat))
            /\ clusterNodes (fst r) = clusterNodes c /\ term c <= term (fst r)).
  { intros r Hr. unfold electionState in Hr. injection Hr as Hn Hl Hv Ht.
    unfold quorum. rewrite Hn, Hl, Hv, Ht. split_and!; [done|exact Hleader|done|lia]. }
  destruct e as [tx now|now| |node|nodeId t|leaderId t pi pt entries lc];
    cbn [raftStep bringsVote].
  - unfold raft_submitTx. destruct (isLeader c) eqn:Hl; cbn zeta; cbn [fst snd].
    + destruct (addToLog_spec c tx now Hlen Htimer)
        as (Hlen' & Htimer' & Htxs & Hlog & Hid & Hnum & Hblocks & Helect).
      destruct (Hordering _ Helect) as (_ & Hq & Hnodes & Hterm).
      cbn zeta in *. destruct (addToLog c tx now) as [c' block]. cbn [fst snd] in *.
      split_and!; first [done | by split_and!].
    + destruct (Helection _ (electionStep_refl c)) as (?&?&?&?&?&?&?&?).
      by split_and!.
  - destruct (raft_blockTimer c) eqn:Hb; cbn zeta; cbn [fst snd].
    + destruct (raft_createBlock_spec c now)
        as (Hp & Ht & Htxs & Hlog & Hid & Hnum & Hblocks & Helect); [lia|].
      destruct (Hordering _ Helect) as (Hsame & Hq & Hnodes & Hterm).
      cbn zeta in *. destruct (raft_createBlock c now) as [c' block].
      cbn [fst snd] in *. rewrite Hp, Htxs, !app_nil_r.
      split_and!; first [done | congruence | idtac].
      split_and!; [rewrite Hp; unfold blockSize; cbn; lia|by rewrite Hp, Ht|done].
    + destruct (Helection _ (electionStep_refl c)) as (?&?&?&?&?&?&?&?).
      by split_and!.
  - cbn zeta. cbn [fst snd]. destruct (Helection _ (startElection_step c)) as (?&?&?&?&?&?&?&?).
    by split_and!.
  - cbn zeta. cbn [fst snd].
    destruct (Helection _ (checkElectionWon_step c _ (addVote_step c node)))
      as (?&?&?&?&?&?&?&?).
    by split_and!.
  - cbn zeta. cbn [fst snd]. destruct (Helection _ (receiveVote_step c nodeId t))
      as (?&?&?&?&?&?&?&?).
    by split_and!.
  - cbn zeta. cbn [fst snd].
    destruct (Helection _ (receiveAppendEntries_step c leaderId t pi pt entries lc))
      as (?&?&?&?&?&?&?&?).
    split_and!; try done. intros _ Hl. unfold receiveAppendEntries.
    destruct (term c <? t); destruct (t <? _); cbn; done.
Qed.

Lemma raftRun_cons (c : RaftConsensus) (e : RaftEvent) (events : list RaftEvent) :
  raftRun c (e :: events)
  = (fst (fst (raftRun (fst (fst (raftStep c e))) events)),
     (emitted (snd (fst (raftStep c e)))
      ++ snd (fst (raftRun (fst (fst (raftStep c e))) events)))%list,
     (snd (raftStep c e) ++ snd (raftRun (fst (fst (raftStep c e))) events))%list).
Proof.
  cbn [raftRun]. destruct (raftStep c e) as [[c1 block] taken]. cbn [fst snd].
  destruct (raftRun c1 events) as [[c' blocks] takens]. reflexivity.
Qed.

Lemma raftRun_spec (c : RaftConsensus) (events : list RaftEvent) :
  raftInvariant c ->
  let c' := fst (fst (raftRun c events)) in
  let blocks := snd (fst (raftRun c events)) in
  let taken := snd (raftRun c events) in
  raftInvariant c'
  /\ (concat (map transactions blocks) ++ raft_pendingTxs c'
      = raft_pendingTxs c ++ taken)%list
  /\ log c' = (log c ++ taken)%list
  /\ raft_nodeId c' = raft_nodeId c
  /\ clusterNodes c' = clusterNodes c
  /\ raft_blockNumber c' = raft_blockNumber c + Z.of_nat (List.length blocks)
  /\ map (fun b => number (header b)) blocks
     = map (fun i => raft_blockNumber c + Z.of_nat i) (seq 0 (List.length blocks))
  /\ Forall (fun b => (0 < List.length (transactions b) <= blockSize)%nat
                      /\ previousHash (header b) = "0"
                      /\ ordererId (metadata b) = raft_nodeId c
                      /\ ordererSignature (metadata b) = "")
            blocks
  /\ term c <= term c'
  /\ (forallb (fun e => negb (bringsVote e)) events = true -> isLeader c = false ->
      isLeader c' = false /\ taken = []).
Proof.
  cbn zeta. revert c. induction events as [|e events IH]; intros c Hinv.
  - cbn. rewrite !app_nil_r. split_and!; first [done | lia | constructor].
  - rewrite raftRun_cons. cbn [fst snd].
    destruct (raftStep_spec c e Hinv)
      as (Hinv1 & Htxs1 & Hlog1 & Hid1 & Hnodes1 & Hnum1 & Hblocks1 & Hterm1 & Hvote1).
    cbn zeta in *.
    destruct (IH _ Hinv1)
      as (Hinv' & Htxs' & Hlog' & Hid' & Hnodes' & Hnum' & Hnums' & Hblocks' & Hterm'
          & Hvote').
    set (c1 := fst (fst (raftStep c e))) in *.
    set (block := snd (fst (raftStep c e))) in *.
    set (taken1 := snd (raftStep c e)) in *.
    set (c' := fst (fst (raftRun c1 events))) in *.
    set (blocks := snd (fst (raftRun c1 events))) in *.
    set (taken := snd (raftRun c1 events)) in *.
    split_and!.
    + done.
    + rewrite map_app, concat_app, <- app_assoc, Htxs', app_assoc, Htxs1.
      by rewrite <- app_assoc.
    + by rewrite Hlog', Hlog1, <- app_assoc.
    + congruence.
    + congruence.
    + rewrite Hnum', Hnum1, length_app. lia.
    + rewrite map_app, Hnums', length_app, seq_app, map_app. f_equal.
      * destruct block as [b|]; [|done].
        apply Forall_cons in Hblocks1 as [(Hb & _) _]. cbn. rewrite Hb. f_equal. lia.
      * apply map_seq_shift. intros i. rewrite Hnum1. lia.
    + apply Forall_app. split.
      * eapply Forall_impl; [exact Hblocks1|]. intros b (_ & ? & ? & ? & ?). done.
      * eapply Forall_impl; [exact Hblocks'|]. intros b Hb. cbn beta in Hb.
        rewrite Hid1 in Hb. exact Hb.
    + lia.
    + cbn [forallb]. intros [He Hevents]%andb_prop Hl. apply negb_true_iff in He.
      specialize (Hvote1 He Hl). destruct (Hvote' Hevents Hvote1) as (Hl' & ->).
      split; [done|]. rewrite app_nil_r.
      subst taken1. destruct e as [tx now|now| | | |]; try done.
      * cbn [raftStep]. unfold raft_submitTx. by rewrite Hl.
      * cbn [raftStep]. by destruct (raft_blockTimer c).
Qed.

Lemma raftInvariant_new (id : string) (nodes : list string) :
  raftInvariant (newRaftConsensus id nodes).
Proof. split_and!; [cbn; unfold blockSize; lia|done|done]. Qed.

(** X28 — what a Raft node does with submissions, whatever happens to it.
    Along every sequence of submissions, timer firings, votes and
    append-entries calls on a new node: the submissions taken are its log;
    the transactions of the blocks it emitted followed by the pending ones
    are the submissions taken, in order; blocks are numbered 0, 1, 2, ...
    and hold between one and ten transactions; fewer than ten are pending
    and the block timer is armed exactly when one is; a leader holds a
    quorum of votes; the term is never negative. A node that no vote
    reaches takes no submission and emits no block. *)
Theorem raftRun_orders_taken_submissions
        (id : string) (nodes : list string) (events : list RaftEvent) :
  let c := fst (fst (raftRun (newRaftConsensus id nodes) events)) in
  let blocks := snd (fst (raftRun (newRaftConsensus id nodes) events)) in
  let taken := snd (raftRun (newRaftConsensus id nodes) events) in
  log c = taken
  /\ (concat (map transactions blocks) ++ raft_pendingTxs c)%list = taken
  /\ map (fun b => number (header b)) blocks = map Z.of_nat (seq 0 (List.length blocks))
  /\ Forall (fun b => (0 < List.length (transactions b) <= 10)%nat
                      /\ previousHash (header b) = "0"
                      /\ ordererId (metadata b) = id
                      /\ ordererSignature (metadata b) = "")
            blocks
  /\ (List.length (raft_pendingTxs c) < 10)%nat
  /\ raft_blockTimer c = negb (List.length (raft_pendingTxs c) =? 0)%nat
  /\ (isLeader c = true
      -> (List.length nodes / 2 + 1 <= List.length (votes c))%nat)
  /\ 0 <= term c
  /\ (forallb (fun e => negb (bringsVote e)) events = true ->
      isLeader c = false /\ taken = [] /\ blocks = []).
Proof.
  cbn zeta.
  destruct (raftRun_spec (newRaftConsensus id nodes) events (raftInvariant_new id nodes))
    as ((Hlen & Htimer & Hleader) & Htxs & Hlog & Hid & Hnodes & Hnum & Hnums & Hblocks
        & Hterm & Hvote).
  cbn zeta in *.
  set (c := fst (fst (raftRun (newRaftConsensus id nodes) events))) in *.
  set (blocks := snd (fst (raftRun (newRaftConsensus id nodes) events))) in *.
  set (taken := snd (raftRun (newRaftConsensus id nodes) events)) in *.
  cbn [newRaftConsensus log raft_pendingTxs raft_nodeId clusterNodes raft_blockNumber
       term isLeader app] in *.
  split_and!; try done.
  - unfold quorum in Hleader. by rewrite Hnodes in Hleader.
  - intros Hevents. destruct (Hvote Hevents eq_refl) as [Hl Htaken].
    split_and!; [done|done|]. rewrite Htaken in Htxs.
    apply app_eq_nil in Htxs as [Hconcat _].
    destruct blocks as [|b blocks']; [done|].
    apply Forall_cons in Hblocks as [([Hpos _] & _) _].
    cbn in Hconcat. apply app_eq_nil in Hconcat as [Hb _]. rewrite Hb in Hpos.
    cbn in Hpos. lia.
Qed.

(** ** The canonical text and the order of properties *)

Lemma string_compare_refl (a : string) : String.compare a a = Eq.
Proof.
  induction a as [|c a IH]; [done|]. cbn.
  unfold Ascii.compare. by rewrite N.compare_refl.
Qed.

Lemma string_compare_trans (a b c : string) (r : comparison) :
  String.compare a b = r -> String.compare b c = r -> r <> Eq ->
  String.compare a c = r.
Proof.
  revert b c. induction a as [|x a IH]; intros [|y b] [|z c]; cbn; try congruence.
  unfold Ascii.compare.
  destruct (N.compare_spec (N_of_ascii x) (N_of_ascii y)) as [Hxy|Hxy|Hxy];
    destruct (N.compare_spec (N_of_ascii y) (N_of_ascii z)) as [Hyz|Hyz|Hyz];
    intros H1 H2 Hr; subst r; try congruence.
  - rewrite <- Hyz, Hxy, N.compare_refl. by eapply IH.
  - rewrite Hxy. by rewrite (proj2 (N.compare_lt_iff _ _) Hyz).
  - rewrite Hxy. by rewrite (proj2 (N.compare_gt_iff _ _) Hyz).
  - rewrite <- Hyz. by rewrite (proj2 (N.compare_lt_iff _ _) Hxy).
  - by rewrite (proj2 (N.compare_lt_iff _ _) (N.lt_trans _ _ _ Hxy Hyz)).
  - rewrite <- Hyz. by rewrite (proj2 (N.compare_gt_iff _ _) Hxy).
  - by rewrite (proj2 (N.compare_gt_iff _ _) (N.lt_trans _ _ _ Hyz Hxy)).
Qed.

Lemma string_leb_trans (a b c : string) :
  String.leb a b = true -> String.leb b c = true -> String.leb a c = true.
Proof.
  unfold String.leb.
  destruct (String.compare a b) eqn:Hab; [|  |done];
    destruct (String.compare b c) eqn:Hbc; try done; intros _ _.
  - apply String.compare_eq_iff in Hab as ->. apply String.compare_eq_iff in Hbc as ->.
    by rewrite string_compare_refl.
  - apply String.compare_eq_iff in Hab as ->. by rewrite Hbc.
  - apply String.compare_eq_iff in Hbc as <-. by rewrite Hab.
  - by rewrite (string_compare_trans a b c Lt Hab Hbc).
Qed.

#[local] Instance sortsBefore_trans : Transitive sortsBefore.
Proof. intros a b c. apply string_leb_trans. Qed.

#[local] Instance sortsBefore_antisym : AntiSymm eq sortsBefore.
Proof. intros a b. apply String.leb_antisym. Qed.

Lemma sortInsert_Permutation (x : string) (l : list string) :
  JSON.sortInsert x l ≡ₚ x :: l.
Proof.
  induction l as [|y l IH]; [done|]. cbn.
  destruct (String.leb x y); [done|]. rewrite IH. apply Permutation_swap.
Qed.

Lemma Array_sort_Permutation (l : list string) : JSON.Array_sort l ≡ₚ l.
Proof.
  induction l as [|x l IH]; [done|]. cbn. by rewrite sortInsert_Permutation, IH.
Qed.

Lemma sortInsert_Sorted (x : string) (l : list string) :
  Sorted sortsBefore l -> Sorted sortsBefore (JSON.sortInsert x l).
Proof.
  induction l as [|y l IH]; intros Hl.
  - cbn. by repeat constructor.
  - cbn. destruct (String.leb x y) eqn:Hxy.
    + constructor; [done|]. by constructor.
    + assert (Hyx : sortsBefore y x)
        by (destruct (String.leb_total x y) as [?|?]; [congruence|done]).
      apply Sorted_inv in Hl as [Hl Hhd]. constructor; [by apply IH|].
      destruct l as [|z l]; cbn; [by constructor|].
      destruct (String.leb x z); constructor; [done|]. by apply HdRel_inv in Hhd.
Qed.

Lemma Array_sort_Sorted (l : list string) : Sorted sortsBefore (JSON.Array_sort l).
Proof.
  induction l as [|x l IH]; [constructor|]. cbn. by apply sortInsert_Sorted.
Qed.

(** [sort] gives one result for all the orders of the same strings. *)
Lemma Array_sort_order (l l' : list string) :
  l ≡ₚ l' -> JSON.Array_sort l = JSON.Array_sort l'.
Proof.
  intros Hperm. apply (StronglySorted_unique sortsBefore).
  - apply Sorted_StronglySorted; [apply _|apply Array_sort_Sorted].
  - apply Sorted_StronglySorted; [apply _|apply Array_sort_Sorted].
  - by rewrite !Array_sort_Permutation.
Qed.

Lemma serializeGet_member f (ps : list (string * JSON.value)) (P : string) (v : JSON.value) :
  NoDup (map fst ps) -> (P, v) ∈ ps -> JSON.serializeGet f ps P = f v.
Proof.
  induction ps as [|[k x] ps IH]; intros Hnd Hin; [by apply not_elem_of_nil in Hin|].
  cbn [map fst] in Hnd. apply NoDup_cons in Hnd as [Hk Hnd].
  cbn [JSON.serializeGet].
  apply elem_of_cons in Hin as [[= <- <-]|Hin]; [by rewrite String.eqb_refl|].
  destruct (String.eqb_spec k P) as [->|_]; [|by apply IH].
  destruct Hk. apply list_elem_of_fmap. by exists (P, v).
Qed.

Lemma serializeGet_order f (ps ps' : list (string * JSON.value)) (P : string) :
  NoDup (map fst ps) -> ps ≡ₚ ps' ->
  JSON.serializeGet f ps P = JSON.serializeGet f ps' P.
Proof.
  intros Hnd Hperm.
  assert (Hnd' : NoDup (map fst ps')) by by rewrite <- Hperm.
  destruct (decide (P ∈ map fst ps)) as [Hin|Hout].
  - apply list_elem_of_fmap in Hin as ([k v] & -> & Hin). cbn [fst].
    rewrite (serializeGet_member f ps k v Hnd Hin).
    rewrite Hperm in Hin. by rewrite (serializeGet_member f ps' k v Hnd' Hin).
  - rewrite serializeGet_foreign by done.
    rewrite Hperm in Hout. by rewrite serializeGet_foreign.
Qed.

Lemma canonicalStringify_order (ps ps' : list (string * JSON.value)) :
  NoDup (map fst ps) -> ps ≡ₚ ps' ->
  canonicalStringify (JSON.Object ps) = canonicalStringify (JSON.Object ps').
Proof.
  intros Hnd Hperm. unfold canonicalStringify. cbn [JSON.Object_keys bindE].
  rewrite (Array_sort_order (map fst ps) (map fst ps')) by by rewrite Hperm.
  unfold JSON.stringify. cbn [fmap option_fmap option_map JSON.SerializeJSONProperty].
  by rewrite (serializeMembers_ext _ ps ps')
    by (intros P; by apply serializeGet_order).
Qed.

(** X23 — the canonical text does not depend on the order in which the
    properties of the object were written: two objects with the same
    properties, of distinct names, in any two orders have the same canonical
    text. *)
Theorem canonicalStringify_order_independent (ps ps' : list (string * JSON.value)) :
  NoDup (map fst ps) -> ps ≡ₚ ps' ->
  canonicalStringify (JSON.Object ps) = canonicalStringify (JSON.Object ps').
Proof. apply canonicalStringify_order. Qed.

Lemma canonicalStringify_order_independent_witness :
  canonicalStringify (JSON.Object Samples.written)
  = canonicalStringify (JSON.Object Samples.rewrittenOrder).
Proof.
  apply (canonicalStringify_order_independent Samples.written Samples.rewrittenOrder).
  - apply (bool_decide_unpack (NoDup (map fst Samples.written))). reflexivity.
  - unfold Samples.written, Samples.rewrittenOrder.
    etrans; [|apply Permutation_swap]. apply perm_skip, Permutation_swap.
Defined.

(** ** The policy argument of the command line *)

Lemma split_nonempty (sep : ascii) (s : string) :
  exists first rest, split sep s = first :: rest.
Proof.
  induction s as [|c s (first & rest & IH)]; [by eexists _, _|].
  cbn [split]. destruct (Ascii.eqb c sep); [by eexists _, _|].
  rewrite IH. by eexists _, _.
Qed.

Lemma split_lacks (sep : ascii) (s : string) : lacks sep s = true -> split sep s = [s].
Proof.
  induction s as [|c s IH]; [done|]. cbn [lacks split].
  intros [Hc Hs]%andb_prop. apply negb_true_iff in Hc. rewrite Hc.
  by rewrite (IH Hs).
Qed.

Lemma split_at (sep : ascii) (a b : string) :
  lacks sep a = true -> split sep (a ++ String sep b) = a :: split sep b.
Proof.
  induction a as [|c a IH]; cbn [lacks split String.append].
  - intros _. by rewrite Ascii.eqb_refl.
  - intros [Hc Ha]%andb_prop. apply negb_true_iff in Hc. rewrite Hc.
    by rewrite (IH Ha).
Qed.

Lemma split_join (sep : ascii) (l : list string) :
  l <> [] -> Forall (fun x => lacks sep x = true) l ->
  split sep (JSON.join (String sep "") l) = l.
Proof.
  induction l as [|x l IH]; [done|]. intros _ [Hx Hl]%Forall_cons.
  destruct l as [|y l]; [by apply split_lacks|].
  change (JSON.join (String sep "") (x :: y :: l))
    with (x ++ String sep (JSON.join (String sep "") (y :: l))).
  rewrite split_at by done. by rewrite IH.
Qed.

Lemma lacks_app (c : ascii) (a b : string) :
  lacks c (a ++ b) = lacks c a && lacks c b.
Proof.
  induction a as [|x a IH]; [done|]. cbn [String.append lacks].
  by rewrite IH, andb_assoc.
Qed.

Lemma lacks_join (c : ascii) (sep : string) (l : list string) :
  lacks c sep = true -> Forall (fun x => lacks c x = true) l ->
  lacks c (JSON.join sep l) = true.
Proof.
  intros Hsep. induction l as [|x l IH]; [done|]. intros [Hx Hl]%Forall_cons.
  destruct l as [|y l]; [done|].
  change (JSON.join sep (x :: y :: l)) with (x ++ sep ++ JSON.join sep (y :: l)).
  by rewrite !lacks_app, Hx, Hsep, (IH Hl).
Qed.

Lemma split_pieces_lack_separator (sep : ascii) (s : string) :
  Forall (fun x => lacks sep x = true) (split sep s).
Proof.
  induction s as [|c s IH]; [by repeat constructor|]. cbn [split].
  destruct (Ascii.eqb c sep) eqn:Hc; [by constructor|].
  destruct (split sep s) as [|first rest]; [by repeat (constructor; cbn; rewrite ?Hc)|].
  apply Forall_cons in IH as [Hfirst Hrest].
  constructor; [|done]. cbn [lacks]. by rewrite Hc, Hfirst.
Qed.

Lemma split_pieces_lack (c sep : ascii) (s : string) :
  lacks c s = true -> Forall (fun x => lacks c x = true) (split sep s).
Proof.
  induction s as [|x s IH]; [by repeat constructor|]. cbn [lacks split].
  intros [Hx Hs]%andb_prop. specialize (IH Hs).
  destruct (Ascii.eqb x sep); [by constructor|].
  destruct (split sep s) as [|first rest]; [by repeat (constructor; cbn; rewrite ?Hx)|].
  apply Forall_cons in IH as [Hfirst Hrest].
  constructor; [|done]. cbn [lacks]. by rewrite Hx, Hfirst.
Qed.

Lemma lacks_trimStart (c : ascii) (s : string) :
  lacks c s = true -> lacks c (trimStart s) = true.
Proof.
  induction s as [|x s IH]; [done|]. cbn [lacks trimStart].
  intros Hs. destruct (isStrWhiteSpace x); [|done].
  apply andb_prop in Hs as [_ Hs]. by apply IH.
Qed.

Lemma lacks_trimEnd (c : ascii) (s : string) :
  lacks c s = true -> lacks c (trimEnd s) = true.
Proof.
  induction s as [|x s IH]; [done|]. cbn [lacks trimEnd].
  intros [Hx Hs]%andb_prop. specialize (IH Hs).
  destruct (trimEnd s) as [|y r].
  - destruct (isStrWhiteSpace x); [done|]. cbn [lacks]. by rewrite Hx.
  - cbn [lacks] in *. by rewrite Hx, IH.
Qed.

Lemma trimEnd_idemp (s : string) : trimEnd (trimEnd s) = trimEnd s.
Proof.
  induction s as [|x s IH]; [done|]. cbn [trimEnd].
  destruct (trimEnd s) as [|y r] eqn:Hs.
  - destruct (isStrWhiteSpace x) eqn:Hx; [done|]. cbn [trimEnd]. by rewrite Hx.
  - cbn [trimEnd]. cbn [trimEnd] in IH. by rewrite IH.
Qed.

(** A string that starts with no white space keeps its first character
    under [trimEnd]. *)
Lemma trimStart_trimEnd (s : string) :
  trimStart s = s -> trimStart (trimEnd s) = trimEnd s.
Proof.
  destruct s as [|x s]; [done|]. cbn [trimStart].
  destruct (isStrWhiteSpace x) eqn:Hx.
  - intros Heq. exfalso.
    assert (Hlen : (String.length (trimStart s) <= String.length s)%nat).
    { clear. induction s as [|y s IH]; [done|]. cbn [trimStart].
      destruct (isStrWhiteSpace y); cbn [String.length]; lia. }
    rewrite Heq in Hlen. cbn [String.length] in Hlen. lia.
  - intros _. cbn [trimEnd]. destruct (trimEnd s) as [|y r].
    + rewrite Hx. cbn [trimStart]. by rewrite Hx.
    + cbn [trimStart]. by rewrite Hx.
Qed.

Lemma trimStart_idemp (s : string) : trimStart (trimStart s) = trimStart s.
Proof.
  induction s as [|x s IH]; [done|]. cbn [trimStart].
  destruct (isStrWhiteSpace x) eqn:Hx; [done|]. cbn [trimStart]. by rewrite Hx.
Qed.

Lemma trim_idemp (s : string) : trim (trim s) = trim s.
Proof.
  unfold trim. rewrite (trimStart_trimEnd (trimStart s)) by apply trimStart_idemp.
  apply trimEnd_idemp.
Qed.

Lemma orgName_trim_piece (s : string) :
  lacks "," s = true -> lacks ":" s = true -> orgName (trim s).
Proof.
  intros Hc Hs. unfold orgName, trim. split_and!.
  - by apply lacks_trimEnd, lacks_trimStart.
  - by apply lacks_trimEnd, lacks_trimStart.
  - apply trim_idemp.
Qed.

Lemma isASCII_split (sep : ascii) (s : string) :
  isASCII s = true -> Forall (fun x => isASCII x = true) (split sep s).
Proof.
  induction s as [|x s IH]; [by repeat constructor|]. cbn [isASCII split].
  intros [Hx Hs]%andb_prop. specialize (IH Hs).
  destruct (Ascii.eqb x sep); [by constructor|].
  destruct (split sep s) as [|first rest]; [by repeat (constructor; cbn; rewrite ?Hx)|].
  apply Forall_cons in IH as [Hfirst Hrest].
  constructor; [|done]. cbn [isASCII]. by rewrite Hx, Hfirst.
Qed.

Lemma isASCII_trimStart (s : string) : isASCII s = true -> isASCII (trimStart s) = true.
Proof.
  induction s as [|x s IH]; [done|]. cbn [isASCII trimStart].
  intros Hs. destruct (isStrWhiteSpace x); [|done].
  apply andb_prop in Hs as [_ Hs]. by apply IH.
Qed.

Lemma isASCII_trimEnd (s : string) : isASCII s = true -> isASCII (trimEnd s) = true.
Proof.
  induction s as [|x s IH]; [done|]. cbn [isASCII trimEnd].
  intros [Hx Hs]%andb_prop. specialize (IH Hs).
  destruct (trimEnd s) as [|y r].
  - destruct (isStrWhiteSpace x); [done|]. cbn [isASCII]. by rewrite Hx.
  - cbn [isASCII] in *. by rewrite Hx, IH.
Qed.

Lemma isASCII_trim (s : string) : isASCII s = true -> isASCII (trim s) = true.
Proof. intros Hs. by apply isASCII_trimEnd, isASCII_trimStart. Qed.

(** X24 — what the command line can ask for. For an argument in ASCII, a
    policy that [parseEndorsementPolicy] returns has one of the three known
    types, so the committer never answers it with "Unknown endorsement
    policy type"; its list of organizations is not empty, and every name in
    it is in ASCII, trimmed, and holds no comma and no colon (a name may be
    the empty string). *)
Theorem parseEndorsementPolicy_result (policy : string) (p : EndorsementPolicy) :
  isASCII policy = true ->
  parseEndorsementPolicy policy = Ok p ->
  (policy_type p = "ANY" \/ policy_type p = "ALL" \/ policy_type p = "MAJORITY")
  /\ policy_orgs p <> []
  /\ Forall orgName (policy_orgs p)
  /\ Forall (fun name => isASCII name = true) (policy_orgs p)
  /\ forall endorsingOrgs,
       v_code (checkEndorsementPolicy p endorsingOrgs) <> BAD_PAYLOAD.
Proof.
  intros Hascii. unfold parseEndorsementPolicy.
  pose proof (split_pieces_lack_separator ":" policy) as Hpieces.
  pose proof (isASCII_split ":" policy Hascii) as Hplain.
  destruct (split ":" policy) as [|type [|orgsStr [|? ?]]]; try done.
  destruct (_ || _); [done|].
  apply Forall_cons in Hpieces as [_ [Horgs _]%Forall_cons].
  apply Forall_cons in Hplain as [_ [Hplain _]%Forall_cons].
  assert (Hnames : Forall orgName (map trim (split "," orgsStr))).
  { apply Forall_fmap.
    pose proof (split_pieces_lack_separator "," orgsStr) as Hcomma.
    pose proof (split_pieces_lack ":" "," orgsStr Horgs) as Hcolon.
    induction (split "," orgsStr) as [|o os IH]; [constructor|].
    apply Forall_cons in Hcomma as [? ?]. apply Forall_cons in Hcolon as [? ?].
    constructor; [by apply orgName_trim_piece|by apply IH]. }
  assert (Hplains : Forall (fun name => isASCII name = true)
                           (map trim (split "," orgsStr))).
  { apply Forall_fmap. eapply Forall_impl; [exact (isASCII_split "," orgsStr Hplain)|].
    intros o Ho. by apply isASCII_trim. }
  assert (Hsome : map trim (split "," orgsStr) <> []).
  { destruct (split_nonempty "," orgsStr) as (first & rest & ->). done. }
  repeat (match goal with |- context [if ?b then _ else _] => destruct b end);
    intros [= <-]; cbn [policy_type policy_orgs];
    (split_and!; [tauto|done|done|done|]); intros endorsingOrgs;
    unfold checkEndorsementPolicy; cbn [policy_type String.eqb Ascii.eqb Bool.eqb];
    repeat (match goal with |- context [if ?b then _ else _] => destruct b end);
    done.
Qed.

(** The names are trimmed; after [ANY:] and a space the one name is the
    empty string. *)
Lemma parseEndorsementPolicy_result_witness :
  (parseEndorsementPolicy "majority:Org1, Org2 ,Org3"
   = Ok {| policy_type := "MAJORITY"; policy_orgs := ["Org1"; "Org2"; "Org3"] |}
   /\ Forall orgName ["Org1"; "Org2"; "Org3"])
  /\ (parseEndorsementPolicy "ANY: "
      = Ok {| policy_type := "ANY"; policy_orgs := [""] |}
      /\ Forall orgName [""]).
Proof.
  assert (Hparse : parseEndorsementPolicy "majority:Org1, Org2 ,Org3"
                   = Ok {| policy_type := "MAJORITY";
                           policy_orgs := ["Org1"; "Org2"; "Org3"] |}) by reflexivity.
  assert (Hempty : parseEndorsementPolicy "ANY: "
                   = Ok {| policy_type := "ANY"; policy_orgs := [""] |}) by reflexivity.
  split; (split; [eassumption|]).
  - exact (proj1 (proj2 (proj2 (parseEndorsementPolicy_result
                                  "majority:Org1, Org2 ,Org3" _ eq_refl Hparse)))).
  - exact (proj1 (proj2 (proj2 (parseEndorsementPolicy_result
                                  "ANY: " _ eq_refl Hempty)))).
Defined.

(** X25 — the policy format is read back. For each of the three types and
    each list of organization names in ASCII (trimmed, without comma or
    colon) whose joined text is not empty, the text [TYPE:name,...,name]
    parses to the policy with that type and these names. *)
Theorem parseEndorsementPolicy_format (type : string) (orgs : list string) :
  type = "ANY" \/ type = "ALL" \/ type = "MAJORITY" ->
  Forall orgName orgs ->
  Forall (fun name => isASCII name = true) orgs ->
  JSON.join "," orgs <> "" ->
  parseEndorsementPolicy (type ++ ":" ++ JSON.join "," orgs)
  = Ok {| policy_type := type; policy_orgs := orgs |}.
Proof.
  intros Htype Horgs _ Hsome.
  assert (Hne : orgs <> []) by (intros ->; done).
  assert (Hcomma : Forall (fun x => lacks "," x = true) orgs)
    by (eapply Forall_impl; [exact Horgs|]; by intros o (? & _)).
  assert (Hcolon : Forall (fun x => lacks ":" x = true) orgs)
    by (eapply Forall_impl; [exact Horgs|]; by intros o (_ & ? & _)).
  assert (Htrim : map trim orgs = orgs).
  { clear -Horgs. induction Horgs as [|o os (_ & _ & Ho) _ IH]; [done|].
    cbn [map]. by rewrite Ho, IH. }
  assert (Hsplit : split ":" (type ++ ":" ++ JSON.join "," orgs)
                   = [type; JSON.join "," orgs]).
  { change (type ++ ":" ++ JSON.join "," orgs)
      with (type ++ String ":" (JSON.join "," orgs)).
    rewrite split_at by (destruct Htype as [->|[->| ->]]; reflexivity).
    by rewrite split_lacks by by apply lacks_join. }
  unfold parseEndorsementPolicy. rewrite Hsplit.
  replace (String.eqb (JSON.join "," orgs) "") with false
    by (symmetry; by apply String.eqb_neq).
  rewrite (split_join "," orgs Hne Hcomma), Htrim.
  by destruct Htype as [->|[->| ->]].
Qed.

Lemma parseEndorsementPolicy_format_witness :
  parseEndorsementPolicy ("ALL" ++ ":" ++ JSON.join "," ["Org1"; "Org2"])
  = Ok {| policy_type := "ALL"; policy_orgs := ["Org1"; "Org2"] |}.
Proof.
  apply (parseEndorsementPolicy_format "ALL" ["Org1"; "Org2"]).
  - right. by left.
  - by repeat constructor.
  - by repeat constructor.
  - discriminate.
Defined.
